(** * Lo interpreter driver (main.cpp): a shallow embedding and its properties

    The driver of the Lo interpreter reads a program line by line, classifies
    every trimmed line with regular expressions and dispatches it to one of the
    handlers [processLoc], [processInput], [processAssign], [processPrint],
    keeping a stack of conditional frames and a function-collection mode.

    The embedding follows main.cpp: the regular expressions are regular
    expression values run by a backtracking matcher, the two tables of the
    [Context] are finite maps, console streams are explicit, and a fatal exit is
    an outcome of every handler. *)

From Stdlib Require Import ZArith Ascii String DecimalString.
From stdpp Require Import gmap strings list fin_maps.

Local Open Scope string_scope.
Local Open Scope Z_scope.

(** ** Characters and strings *)

Definition char_in (lo hi c : ascii) : bool :=
  ((N_of_ascii lo <=? N_of_ascii c) && (N_of_ascii c <=? N_of_ascii hi))%N.

(** [isspace] of the C locale: space, \t, \n, \v, \f, \r. *)
Definition is_space (c : ascii) : bool :=
  (N_of_ascii c =? 32)%N || ((9 <=? N_of_ascii c) && (N_of_ascii c <=? 13))%N.

Definition is_digit (c : ascii) : bool := char_in "0" "9" c.

(** The class \w of ECMAScript: letters, digits and the underscore. *)
Definition is_word (c : ascii) : bool :=
  char_in "a" "z" c || char_in "A" "Z" c || is_digit c || Ascii.eqb c "_".

(** The class . of ECMAScript: everything but a line terminator. *)
Definition is_dot (c : ascii) : bool :=
  negb ((N_of_ascii c =? 10)%N || (N_of_ascii c =? 13)%N).

Definition is_not (x c : ascii) : bool := negb (Ascii.eqb c x).

Definition newline : string := String (ascii_of_nat 10) EmptyString.
Definition dquote : ascii := ascii_of_nat 34.

Fixpoint drop_spaces (s : string) : string :=
  match s with
  | String c s' => if is_space c then drop_spaces s' else s
  | EmptyString => EmptyString
  end.

Fixpoint string_rev_onto (s acc : string) : string :=
  match s with
  | String c s' => string_rev_onto s' (String c acc)
  | EmptyString => acc
  end.

Definition string_rev (s : string) : string := string_rev_onto s EmptyString.

(** Modelled from the spec: [trim] of src/h/utils.h, which is not among the
    sources ("basic string trimming"): the text without its leading and
    trailing white space. *)
Definition trim (s : string) : string :=
  string_rev (drop_spaces (string_rev (drop_spaces s))).

(** [startsWith] of main.cpp. *)
Definition startsWith (s p : string) : bool := String.prefix p s.

(** [s.size() >= 2 && s.front() == '"' && s.back() == '"'], then
    [s.substr(1, s.size() - 2)]: one layer of double quotes is removed. *)
Definition quoted (s : string) : bool :=
  (2 <=? String.length s)%nat
  && match String.get 0 s, String.get (String.length s - 1) s with
     | Some a, Some b => Ascii.eqb a dquote && Ascii.eqb b dquote
     | _, _ => false
     end.

Definition unquote (s : string) : string :=
  if quoted s then String.substring 1 (String.length s - 2) s else s.

(** The loop [while (std::getline(ss, item, delim)) ...] over a string stream:
    the items between delimiters; an empty stream gives no item, and no empty
    item follows a final delimiter, since the read at the end of the stream
    extracts nothing and fails. *)
Fixpoint getline_items (delim : ascii) (s : string) (cur : string) : list string :=
  match s with
  | EmptyString =>
      match cur with EmptyString => [] | _ => [string_rev cur] end
  | String c s' =>
      if Ascii.eqb c delim
      then string_rev cur :: getline_items delim s' EmptyString
      else getline_items delim s' (String c cur)
  end.

Definition split_on (delim : ascii) (s : string) : list string :=
  getline_items delim s EmptyString.

(** [os << e0 << sep << e1 ...]. *)
Fixpoint join (sep : string) (l : list string) : string :=
  match l with
  | [] => ""
  | [x] => x
  | x :: l' => x +:+ sep +:+ join sep l'
  end.

(** Decimal text of a line number, as [operator<<] writes an int. *)
Definition show_nat (n : nat) : string := NilEmpty.string_of_uint (Nat.to_uint n).

(** ** Regular expressions

    The [std::regex] values of main.cpp are built from literals, the classes
    \s, \w and . and negated one-character sets, greedy repetition of a class,
    alternation, capture groups and the two anchors. [std::regex_match] asks
    for a match of the whole line. *)

Inductive regex : Type :=
| Bol                        (* ^ *)
| Eol                        (* $ *)
| Chr (c : ascii)            (* one literal character *)
| Cls (p : ascii -> bool)    (* one character of a class *)
| Many (p : ascii -> bool)   (* greedy repetition of a class *)
| Seq (r1 r2 : regex)
| Alt (r1 r2 : regex)
| Grp (i : nat) (r : regex). (* capture group number i *)

(** A match result: the text of every capture group that took part in the
    match, [m !! i = None] when [m[i].matched] is false. *)
Abbreviation smatch := (gmap nat string).

Definition cont : Type := string -> smatch -> option smatch.

(** Greedy repetition with backtracking: as many characters of the class as
    possible first, one fewer whenever the rest of the pattern fails. *)
Fixpoint many (p : ascii -> bool) (s : string) (k : string -> option smatch)
    : option smatch :=
  match s with
  | String c s' =>
      if p c then
        match many p s' k with
        | Some r => Some r
        | None => k s
        end
      else k s
  | EmptyString => k s
  end.

(** The backtracking matcher: [s] is what is left of the line, [whole] the
    length of the line, [caps] the groups captured so far and [k] the rest of
    the pattern. Alternatives are tried from left to right. *)
Fixpoint rmatch (r : regex) (whole : nat) (s : string) (caps : smatch) (k : cont)
    : option smatch :=
  match r with
  | Bol => if (String.length s =? whole)%nat then k s caps else None
  | Eol => match s with EmptyString => k s caps | _ => None end
  | Chr c =>
      match s with
      | String a s' => if Ascii.eqb a c then k s' caps else None
      | EmptyString => None
      end
  | Cls p =>
      match s with
      | String a s' => if p a then k s' caps else None
      | EmptyString => None
      end
  | Many p => many p s (fun s' => k s' caps)
  | Seq r1 r2 => rmatch r1 whole s caps (fun s' caps' => rmatch r2 whole s' caps' k)
  | Alt r1 r2 =>
      match rmatch r1 whole s caps k with
      | Some c => Some c
      | None => rmatch r2 whole s caps k
      end
  | Grp i r' =>
      rmatch r' whole s caps (fun s' caps' =>
        k s' (<[i := String.substring 0 (String.length s - String.length s') s]> caps'))
  end.

Definition at_end : cont :=
  fun s caps => match s with EmptyString => Some caps | _ => None end.

(** [std::regex_match(ln, match, re)]. *)
Definition regex_match (re : regex) (ln : string) : option smatch :=
  rmatch re (String.length ln) ln ∅ at_end.

(** [m[i]] converted to a string: empty when the group did not match. *)
Definition sub (m : smatch) (i : nat) : string := default "" (m !! i).

Definition Eps : regex := Many (fun _ => false).

Fixpoint lit (s : string) : regex :=
  match s with
  | EmptyString => Eps
  | String c EmptyString => Chr c
  | String c s' => Seq (Chr c) (lit s')
  end.

Fixpoint cat (rs : list regex) : regex :=
  match rs with
  | [] => Eps
  | [r] => r
  | r :: rs' => Seq r (cat rs')
  end.

(** p+, \s*, \s+ and \w+ *)
Definition plus (p : ascii -> bool) : regex := Seq (Cls p) (Many p).
Definition ws : regex := Many is_space.
Definition ws1 : regex := plus is_space.
Definition word : regex := plus is_word.

(** [locRegex]: "^loc\s+(\w+)\s*=\s*(int|str|bool|arr)\((.*)\)\s*!$" *)
Definition locRegex : regex :=
  cat [Bol; lit "loc"; ws1; Grp 1 word; ws; Chr "="; ws;
       Grp 2 (Alt (lit "int") (Alt (lit "str") (Alt (lit "bool") (lit "arr"))));
       Chr "("; Grp 3 (Many is_dot); Chr ")"; ws; Chr "!"; Eol].

(** [assignRegex]: "^(\w+)\s*=\s*(.+)\!$" *)
Definition assignRegex : regex :=
  cat [Bol; Grp 1 word; ws; Chr "="; ws; Grp 2 (plus is_dot); Chr "!"; Eol].

(** [inputRegex], writing Q for the double quote:
    "^(\w+)\s*=\s*input--\s*(i|str)-\s*Q([^Q]*)Q!$" *)
Definition inputRegex : regex :=
  cat [Bol; Grp 1 word; ws; Chr "="; ws; lit "input--"; ws;
       Grp 2 (Alt (lit "i") (lit "str")); Chr "-"; ws;
       Chr dquote; Grp 3 (Many (is_not dquote)); Chr dquote; Chr "!"; Eol].

(** [funRegex]: "^funS\s+(\w+)\s+(\w+)\(([^)]*)\):\s*\{$" *)
Definition funRegex : regex :=
  cat [Bol; lit "funS"; ws1; Grp 1 word; ws1;
       Grp 2 word; Chr "("; Grp 3 (Many (is_not ")")); Chr ")"; Chr ":";
       ws; Chr "{"; Eol].

(** [returnRegex]: "^return\s+(.*)!$" *)
Definition returnRegex : regex :=
  cat [Bol; lit "return"; ws1; Grp 1 (Many is_dot); Chr "!"; Eol].

(** [printRegex], writing Q for the double quote:
    "^print--\s*(?:(Q([^Q]*)Q)|(\w+)|f-(\w+)\(([^)]*)\))!$"
    groups: 2 = literal text, 3 = variable, 4 = func name, 5 = func args *)
Definition printRegex : regex :=
  cat [Bol; lit "print--"; ws;
       Alt (Grp 1 (cat [Chr dquote; Grp 2 (Many (is_not dquote)); Chr dquote]))
           (Alt (Grp 3 word)
                (cat [lit "f-"; Grp 4 word; Chr "(";
                      Grp 5 (Many (is_not ")")); Chr ")"]));
       Chr "!"; Eol].

(** [ifRe]: "if-\s*(\w+)\s*(>>|<<|===)\s*(\w+)\s*the", and [elifRe], the same
    after "elif-" *)
Definition condRegex (kw : string) : regex :=
  cat [lit kw; ws; Grp 1 word; ws;
       Grp 2 (Alt (lit ">>") (Alt (lit "<<") (lit "===")));
       ws; Grp 3 word; ws; lit "the"].

Definition ifRe : regex := condRegex "if-".
Definition elifRe : regex := condRegex "elif-".

(** ** Data model *)

(** The struct Variable of src/h/variable.h, as main.cpp builds and reads it:
    [{"str", raw}], [var.type], [var.value]. (Its name is a reserved word here,
    hence [Var].) *)
Record Var : Type := mkVar { type : string; value : string }.

(** [FunctionDef] of src/h/function.h, as main.cpp fills it: the return type
    tag, the parameters as (type, name) pairs and the body lines. *)
Record FunctionDef : Type := mkFunctionDef {
  returnType : string;
  params : list (string * string);
  body : list string
}.

Record Context : Type := mkContext {
  functions : gmap string FunctionDef;
  variables : gmap string Var
}.

Record IfState : Type := mkIfState {
  matched : bool;
  skipping : bool  (* true: we skip body *)
}.

(** ** Console streams and fatal exits *)

Record IO : Type := mkIO {
  stdin : list string;   (* the lines not read yet *)
  stdout : string;
  stderr : string
}.

Inductive outcome (A : Type) : Type :=
| Running (a : A) (w : IO)
| Exit (status : Z) (w : IO).
Arguments Running {A} a w.
Arguments Exit {A} status w.

Definition M (A : Type) : Type := IO -> outcome A.

Definition ret {A} (a : A) : M A := fun w => Running a w.

Definition bind {A B} (m : M A) (k : A -> M B) : M B :=
  fun w => match m w with
           | Running a w' => k a w'
           | Exit c w' => Exit c w'
           end.

Notation "'let*' x ':=' m 'in' k" := (bind m (fun x => k))
  (at level 10, x name, m at level 100, k at level 200).

Definition cout (s : string) : M unit :=
  fun w => Running tt (mkIO (stdin w) (stdout w +:+ s) (stderr w)).

Definition cerr (s : string) : M unit :=
  fun w => Running tt (mkIO (stdin w) (stdout w) (stderr w +:+ s)).

Definition exit {A} (status : Z) : M A := fun w => Exit status w.

(** [std::getline(std::cin, input)]: the next line, the empty string when the
    input is exhausted. *)
Definition getline_cin : M string :=
  fun w => match stdin w with
           | l :: rest => Running l (mkIO rest (stdout w) (stderr w))
           | [] => Running "" w
           end.

Definition endl : string := newline.

(** [errorAndExit] of main.cpp. *)
Definition errorAndExit {A} (lineno : nat) (msg : string) : M A :=
  let* _ := cerr ("Error at line " +:+ show_nat lineno +:+ ": " +:+ msg +:+ endl) in
  exit 1.

(** ** [std::stoll]

    Leading white space is skipped, a sign is optional, then the longest run of
    decimal digits is converted; whatever follows the digits is ignored. It
    throws when there is no digit or when the number does not fit a long long
    ([None] here). *)

Definition digit_val (c : ascii) : Z := Z.of_N (N_of_ascii c) - 48.

Fixpoint digits_value (s : string) (acc : Z) : Z :=
  match s with
  | String c s' => if is_digit c then digits_value s' (10 * acc + digit_val c) else acc
  | EmptyString => acc
  end.

Definition starts_with_digit (s : string) : bool :=
  match s with String c _ => is_digit c | EmptyString => false end.

Definition in_long_long (z : Z) : bool := (- 2 ^ 63 <=? z) && (z <=? 2 ^ 63 - 1).

Definition stoll (s : string) : option Z :=
  let s1 := drop_spaces s in
  let '(neg, s2) :=
    match s1 with
    | String c s' =>
        if Ascii.eqb c "-" then (true, s')
        else if Ascii.eqb c "+" then (false, s') else (false, s1)
    | EmptyString => (false, s1)
    end in
  if starts_with_digit s2
  then let v := if neg then - digits_value s2 0 else digits_value s2 0 in
       if in_long_long v then Some v else None
  else None.

(** ** The handlers and the driver

    The headers evaluator.h and executor.h are not among the sources. Their
    three entry points are parameters of the driver: each may write to the
    console or end the run. main.cpp calls evalExpression with the text alone;
    the spec gives the evaluator the variable table (4.2), so the parameter
    takes the table as well, which covers an evaluator that ignores it. The
    executor is called with ctx.functions and ctx.variables themselves; how
    executor.h declares these parameters is not known, so the executor hands
    back, with its result, the two tables as the call left them. *)

Section Driver.

Variable evalExpression : gmap string Var -> string -> M string.
Variable evaluateCondition : gmap string Var -> string -> string -> string -> M bool.
Variable executeFunction :
  FunctionDef -> list string -> gmap string FunctionDef -> gmap string Var ->
  M (string * Context).

Definition set_variable (ctx : Context) (name : string) (v : Var) : Context :=
  mkContext (functions ctx) (<[name := v]> (variables ctx)).

(** The loop of processLoc that writes the elements with "," between them. *)
Fixpoint write_elements (first : bool) (elements : list string) (os : string) : string :=
  match elements with
  | [] => os
  | e :: rest =>
      write_elements false rest ((if first then os else os +:+ ",") +:+ e)
  end.

Definition processLoc (ctx : Context) (m : smatch) (lineno : nat) : M Context :=
  let name := sub m 1 in
  let type := sub m 2 in
  let raw := trim (sub m 3) in
  if String.eqb type "str" then
    ret (set_variable ctx name (mkVar "str" (unquote raw)))
  else if String.eqb type "int" then
    let* val := evalExpression (variables ctx) raw in
    ret (set_variable ctx name (mkVar "int" val))
  else if String.eqb type "bool" then
    let val := trim raw in
    if String.eqb val "true" || String.eqb val "1"
    then ret (set_variable ctx name (mkVar "bool" "true"))
    else if String.eqb val "false" || String.eqb val "0"
    then ret (set_variable ctx name (mkVar "bool" "false"))
    else errorAndExit lineno ("Invalid bool value: " +:+ val)
  else if String.eqb type "arr" then
    let rawList := trim raw in
    let elements := map (fun item => unquote (trim item)) (split_on "," rawList) in
    ret (set_variable ctx name (mkVar "arr" (write_elements true elements "")))
  else errorAndExit lineno ("Unknown type for loc: " +:+ type).

Definition processAssign (ctx : Context) (m : smatch) (lineno : nat) : M Context :=
  let name := sub m 1 in
  match variables ctx !! name with
  | None => errorAndExit lineno ("Undefined variable: " +:+ name)
  | Some var =>
      let rhs := trim (sub m 2) in
      if String.eqb (type var) "int" then
        let* val := evalExpression (variables ctx) rhs in
        ret (set_variable ctx name (mkVar (type var) val))
      else if String.eqb (type var) "bool" then
        let rhs := trim rhs in
        if String.eqb rhs "true" || String.eqb rhs "1"
        then ret (set_variable ctx name (mkVar (type var) "true"))
        else if String.eqb rhs "false" || String.eqb rhs "0"
        then ret (set_variable ctx name (mkVar (type var) "false"))
        else errorAndExit lineno ("Invalid bool assignment: " +:+ rhs)
      else ret (set_variable ctx name (mkVar (type var) (unquote rhs)))
  end.

Definition processInput (ctx : Context) (m : smatch) (lineno : nat) : M Context :=
  let name := sub m 1 in
  let type := sub m 2 in
  let prompt := sub m 3 in
  let* _ := cout prompt in
  let* input := getline_cin in
  if String.eqb type "i" then
    match stoll input with
    | Some _ => ret (set_variable ctx name (mkVar "int" input))
    | None => errorAndExit lineno ("Invalid input for int: " +:+ input)
    end
  else ret (set_variable ctx name (mkVar "str" input)).

(** The loop of processPrint over the items of an array: every item, and ", "
    after each one but the last. *)
Fixpoint print_items (vals : list string) : string :=
  match vals with
  | [] => ""
  | v :: rest => v +:+ (match rest with [] => "" | _ => ", " end) +:+ print_items rest
  end.

Definition processPrint (ctx : Context) (m : smatch) (lineno : nat) : M Context :=
  match m !! 2%nat with
  | Some literal => let* _ := cout (literal +:+ endl) in ret ctx
  | None =>
  match m !! 3%nat with
  | Some var =>
      match variables ctx !! var with
      | None => let* _ := cerr ("Undefined variable: " +:+ var +:+ endl) in ret ctx
      | Some v =>
          if String.eqb (type v) "arr" then
            let vals := map trim (split_on "," (value v)) in
            let* _ := cout ("[" +:+ print_items vals +:+ "]" +:+ endl) in ret ctx
          else
            let* _ := cout (value v +:+ endl) in ret ctx
      end
  | None =>
  match m !! 4%nat with
  | Some fname =>
      let argsStr := sub m 5 in
      let args := map trim (split_on "," argsStr) in
      match functions ctx !! fname with
      | None => errorAndExit lineno ("Undefined function: " +:+ fname)
      | Some def =>
          let* res := executeFunction def args (functions ctx) (variables ctx) in
          let* _ := cout (fst res +:+ endl) in
          ret (snd res)
      end
  | None => errorAndExit lineno "Bad print expression"
  end end end.

(** The state of the loop of [main]. *)
Record Driver : Type := mkDriver {
  ctx : Context;
  inFunction : bool;
  currentFunc : FunctionDef;
  currentFuncName : string;
  ifStack : list IfState
}.

Definition with_ctx (st : Driver) (c : Context) : Driver :=
  mkDriver c (inFunction st) (currentFunc st) (currentFuncName st) (ifStack st).

Definition with_ifStack (st : Driver) (stk : list IfState) : Driver :=
  mkDriver (ctx st) (inFunction st) (currentFunc st) (currentFuncName st) stk.

(** [ctx.functions[currentFuncName] = currentFunc; inFunction = false;] *)
Definition commit_function (st : Driver) : Driver :=
  mkDriver (mkContext (<[currentFuncName st := currentFunc st]> (functions (ctx st)))
                      (variables (ctx st)))
           false (currentFunc st) (currentFuncName st) (ifStack st).

(** [currentFunc.body.push_back(ln);] *)
Definition collect_line (st : Driver) (ln : string) : Driver :=
  mkDriver (ctx st) true
           (mkFunctionDef (returnType (currentFunc st)) (params (currentFunc st))
                          (body (currentFunc st) ++ [ln])%list)
           (currentFuncName st) (ifStack st).

(** One parameter of a function header: "type: name", or a bare name, which
    gets the type "var"; an empty item is skipped. *)
Definition parse_param (p : string) : option (string * string) :=
  let p := trim p in
  if String.eqb p "" then None
  else match String.index 0 ":" p with
       | Some colon =>
           Some (trim (String.substring 0 colon p),
                 trim (String.substring (colon + 1) (String.length p - (colon + 1)) p))
       | None => Some ("var", trim p)
       end.

Definition open_function (st : Driver) (m : smatch) : Driver :=
  mkDriver (ctx st) true
           (mkFunctionDef (sub m 1) (omap parse_param (split_on "," (sub m 3))) [])
           (sub m 2) (ifStack st).

Definition push_result (res : bool) (stk : list IfState) : list IfState :=
  mkIfState res (negb res) :: stk.

(** The if / elif / end handling of [main]: [None] when the line is none of
    the three, the new stack otherwise. *)
Definition conditional (vars : gmap string Var) (stk : list IfState)
    (lineno : nat) (ln : string) : option (M (list IfState)) :=
  if startsWith ln "if-" then
    Some match regex_match ifRe ln with
         | Some m2 =>
             let* res := evaluateCondition vars (sub m2 1) (sub m2 2) (sub m2 3) in
             ret (push_result res stk)
         | None => errorAndExit lineno "Malformed if condition"
         end
  else if startsWith ln "elif-" then
    Some match stk with
         | [] => errorAndExit lineno "elif without if"
         | top :: rest =>
             if matched top then
               (* earlier branch matched: remain skipping *)
               ret (mkIfState true true :: rest)
             else
               match regex_match elifRe ln with
               | None => errorAndExit lineno "Malformed elif"
               | Some m2 =>
                   let* res := evaluateCondition vars (sub m2 1) (sub m2 2) (sub m2 3) in
                   ret (push_result res rest)
               end
         end
  else if String.eqb ln "end--" then
    Some match stk with
         | [] => errorAndExit lineno "end-- without if"
         | _ :: rest => ret rest
         end
  else None.

(** [!ifStack.empty() && ifStack.top().skipping] *)
Definition in_skipped_body (stk : list IfState) : bool :=
  match stk with
  | [] => false
  | top :: _ => skipping top
  end.

(** The simple constructs of [main], tried in the order loc, input, assign,
    print; a line that is none of them is a syntax error. *)
Definition simple_construct (c : Context) (lineno : nat) (ln : string) : M Context :=
  match regex_match locRegex ln with
  | Some m => processLoc c m lineno
  | None =>
  match regex_match inputRegex ln with
  | Some m => processInput c m lineno
  | None =>
  match regex_match assignRegex ln with
  | Some m => processAssign c m lineno
  | None =>
  match regex_match printRegex ln with
  | Some m => processPrint c m lineno
  | None =>
      let* _ := cerr ("Syntax error at line " +:+ show_nat lineno +:+ ": " +:+ ln +:+ endl) in
      exit 1
  end end end end.

(** The body of the loop of [main] for line [lines[i]]. *)
Definition step (i : nat) (ln : string) (st : Driver) : M Driver :=
  if String.eqb ln "" then ret st
  else if inFunction st then
    if String.eqb ln "}" then ret (commit_function st)
    else ret (collect_line st ln)
  else
    match regex_match funRegex ln with
    | Some m => ret (open_function st m)
    | None =>
        match conditional (variables (ctx st)) (ifStack st) (i + 1) ln with
        | Some act => let* stk := act in ret (with_ifStack st stk)
        | None =>
            if in_skipped_body (ifStack st) then ret st
            else let* c := simple_construct (ctx st) (i + 1) ln in ret (with_ctx st c)
        end
    end.

Fixpoint loop (i : nat) (lines : list string) (st : Driver) : M Driver :=
  match lines with
  | [] => ret st
  | ln :: rest => let* st' := step i ln st in loop (S i) rest st'
  end.

Definition initial : Driver :=
  mkDriver (mkContext ∅ ∅) false (mkFunctionDef "" [] []) "" [].

(** [main] once the file is open: the lines of the file are trimmed, then
    interpreted in order from the initial state. *)
Definition interpret (file : list string) : M Driver :=
  loop 0 (map trim file) initial.

(** [main]: [argv] with the program name first, [open] the file system (the
    lines of a file that can be opened), and the exit status with the final
    streams. *)
Definition main (argv : list string) (open : string -> option (list string))
    (w : IO) : Z * IO :=
  match argv with
  | _ :: path :: _ =>
      match open path with
      | None => (1, mkIO (stdin w) (stdout w) (stderr w +:+ "Failed to open file" +:+ newline))
      | Some file =>
          match interpret file w with
          | Running _ w' => (0, w')
          | Exit status w' => (status, w')
          end
      end
  | _ => (1, mkIO (stdin w) (stdout w) (stderr w +:+ "Usage: lomake <file.lo>" +:+ newline))
  end.

End Driver.

(** ** The evaluators and the executor, from the spec

    These three definitions stand for src/h/evaluator.h and src/h/executor.h in
    the concrete runs below. The properties of the driver are proved for every
    choice of the three. *)

(** Modelled from the spec: how the missing evaluators and executor fail. A
    semantic failure is fatal and is reported with its line number (7), as
    "Error at line N: message" with exit status 1 (6). The calls in main.cpp
    pass no line number, so the evaluators and the executor below take the
    number of the line that is being interpreted as their first argument. *)
Definition fail_with {A} (lineno : nat) (msg : string) : M A :=
  let* _ := cerr ("Error at line " +:+ show_nat lineno +:+ ": " +:+ msg +:+ endl) in
  exit 1.

Fixpoint all_digits_from (s : string) : bool :=
  match s with
  | String c s' => is_digit c && all_digits_from s'
  | EmptyString => true
  end.

Definition all_digits (s : string) : bool :=
  starts_with_digit s && all_digits_from s.

(** Decimal integer text: digits, with an optional minus sign before them. *)
Definition parse_int (s : string) : option Z :=
  match s with
  | String c s' =>
      if Ascii.eqb c "-"
      then (if all_digits s' then Some (- digits_value s' 0) else None)
      else (if all_digits s then Some (digits_value s 0) else None)
  | EmptyString => None
  end.

Definition is_decimal (s : string) : bool :=
  match parse_int s with Some _ => true | None => false end.

Definition show_Z (z : Z) : string :=
  if z <? 0 then "-" +:+ show_nat (Z.to_nat (- z)) else show_nat (Z.to_nat z).

Definition identifier_shaped (tok : string) : bool :=
  match tok with
  | String c _ => is_word c && negb (is_digit c)
  | EmptyString => false
  end.

(** Modelled from the spec: an operand of a condition (4.3), part of the
    missing evaluator: the value of a declared variable, else a literal; a
    token shaped like an identifier that is not declared is an error. *)
Definition operand (lineno : nat) (vars : gmap string Var) (tok : string) : M string :=
  match vars !! tok with
  | Some v => ret (value v)
  | None =>
      if is_decimal tok then ret tok
      else if identifier_shaped tok then fail_with lineno ("Undefined variable: " +:+ tok)
      else ret tok
  end.

(** Modelled from the spec: the comparison of the missing evaluator (4.3),
    numeric when both operands are integers and textual otherwise. *)
Definition compare_operands (op a b : string) : bool :=
  match parse_int a, parse_int b with
  | Some x, Some y =>
      if String.eqb op ">>" then y <? x
      else if String.eqb op "<<" then x <? y
      else x =? y
  | _, _ =>
      if String.eqb op ">>" then String.ltb b a
      else if String.eqb op "<<" then String.ltb a b
      else String.eqb a b
  end.

(** Modelled from the spec: [evaluateCondition] of src/h/evaluator.h (4.3),
    which is not among the sources: both operands are resolved, then compared
    as integers when both are integers and as text otherwise. *)
Definition evaluateCondition_model (lineno : nat) (vars : gmap string Var)
    (lhs op rhs : string) : M bool :=
  let* a := operand lineno vars lhs in
  let* b := operand lineno vars rhs in
  ret (compare_operands op a b).

(** Modelled from the spec: the tokens of the missing expression evaluator
    (4.2 and the design notes): integer literals, identifiers, the operators
    + - * / % and parentheses. *)
Inductive token : Type :=
| TNum (z : Z)
| TId (x : string)
| TOp (c : ascii)
| TLParen
| TRParen.

Definition flush (pending : string) : list token :=
  match pending with
  | EmptyString => []
  | _ => let w := string_rev pending in
         if all_digits w then [TNum (digits_value w 0)] else [TId w]
  end.

Definition is_operator (c : ascii) : bool :=
  Ascii.eqb c "+" || Ascii.eqb c "-" || Ascii.eqb c "*" || Ascii.eqb c "/"
  || Ascii.eqb c "%".

Fixpoint lex (s : string) (pending : string) : option (list token) :=
  match s with
  | EmptyString => Some (flush pending)
  | String c s' =>
      if is_word c then lex s' (String c pending)
      else
        let here :=
          if is_space c then Some []
          else if is_operator c then Some [TOp c]
          else if Ascii.eqb c "(" then Some [TLParen]
          else if Ascii.eqb c ")" then Some [TRParen]
          else None in
        match here, lex s' EmptyString with
        | Some t, Some rest => Some (flush pending ++ t ++ rest)%list
        | _, _ => None
        end
  end.

Inductive nonterminal : Type :=
| NExpr
| NExprRest (acc : Z)
| NTerm
| NTermRest (acc : Z)
| NFactor.

(** Modelled from the spec: a reference to a variable in an expression (4.2);
    only int-typed variables may be referenced. *)
Definition int_variable (vars : gmap string Var) (x : string) : string + Z :=
  match vars !! x with
  | None => inl ("Invalid expression: " +:+ x)
  | Some v =>
      if String.eqb (type v) "int"
      then match parse_int (value v) with
           | Some z => inr z
           | None => inl ("Invalid expression: " +:+ x)
           end
      else inl ("Type error: " +:+ x +:+ " is not an int")
  end.

(** Modelled from the spec: the parser of the missing expression evaluator
    (4.2): recursive descent over + - * / % and parentheses, with the usual
    precedence and left associativity; division truncates as in C++. *)
Fixpoint parse (fuel : nat) (vars : gmap string Var) (nt : nonterminal)
    (toks : list token) : string + (Z * list token) :=
  match fuel with
  | O => inl "Invalid expression"
  | S fuel' =>
      match nt with
      | NFactor =>
          match toks with
          | TNum z :: rest => inr (z, rest)
          | TId x :: rest =>
              match int_variable vars x with
              | inr z => inr (z, rest)
              | inl e => inl e
              end
          | TLParen :: rest =>
              match parse fuel' vars NExpr rest with
              | inr (z, TRParen :: rest') => inr (z, rest')
              | inr _ => inl "Invalid expression"
              | inl e => inl e
              end
          | _ => inl "Invalid expression"
          end
      | NTerm =>
          match parse fuel' vars NFactor toks with
          | inr (z, rest) => parse fuel' vars (NTermRest z) rest
          | inl e => inl e
          end
      | NTermRest acc =>
          match toks with
          | TOp c :: rest =>
              if Ascii.eqb c "*" || Ascii.eqb c "/" || Ascii.eqb c "%" then
                match parse fuel' vars NFactor rest with
                | inr (z, rest') =>
                    if Ascii.eqb c "*" then parse fuel' vars (NTermRest (acc * z)) rest'
                    else if z =? 0 then inl "Division by zero"
                    else if Ascii.eqb c "/"
                    then parse fuel' vars (NTermRest (Z.quot acc z)) rest'
                    else parse fuel' vars (NTermRest (Z.rem acc z)) rest'
                | inl e => inl e
                end
              else inr (acc, toks)
          | _ => inr (acc, toks)
          end
      | NExpr =>
          match parse fuel' vars NTerm toks with
          | inr (z, rest) => parse fuel' vars (NExprRest z) rest
          | inl e => inl e
          end
      | NExprRest acc =>
          match toks with
          | TOp c :: rest =>
              if Ascii.eqb c "+" || Ascii.eqb c "-" then
                match parse fuel' vars NTerm rest with
                | inr (z, rest') =>
                    parse fuel' vars
                          (NExprRest (if Ascii.eqb c "+" then acc + z else acc - z)) rest'
                | inl e => inl e
                end
              else inr (acc, toks)
          | _ => inr (acc, toks)
          end
      end
  end.

(** Modelled from the spec: [evalExpression] of src/h/evaluator.h (4.2), which
    is not among the sources: integer arithmetic over literals and int-typed
    variables, the result as decimal text. *)
Definition evalExpression_model (lineno : nat) (vars : gmap string Var) (expr : string)
    : M string :=
  match lex expr EmptyString with
  | None => fail_with lineno "Invalid expression"
  | Some toks =>
      match parse (4 * List.length toks + 4) vars NExpr toks with
      | inr (z, []) => ret (show_Z z)
      | inr _ => fail_with lineno "Invalid expression"
      | inl e => fail_with lineno e
      end
  end.

(** Modelled from the spec: the binding of arguments in the missing executor
    (4.5). A parameter is bound as a declaration of its type would bind it; a
    parameter of type "var" takes the text of the argument as a string. A
    failure is reported for the line of the call. *)
Fixpoint bind_parameters (lineno : nat) (ps : list (string * string)) (args : list string)
    (vars : gmap string Var) : M (gmap string Var) :=
  match ps, args with
  | (ty, name) :: ps', a :: args' =>
      if String.eqb ty "var"
      then bind_parameters lineno ps' args' (<[name := mkVar "str" a]> vars)
      else
        let* c := processLoc (evalExpression_model lineno) (mkContext ∅ vars)
                             (<[1%nat := name]> (<[2%nat := ty]> (<[3%nat := a]> ∅)))
                             lineno in
        bind_parameters lineno ps' args' (variables c)
  | _, _ => ret vars
  end.

(** Modelled from the spec: the end of a call in the missing executor (4.5).
    The outer bindings of the parameter names come back. *)
Definition restore_bindings (ps : list (string * string)) (outer vars : gmap string Var)
    : gmap string Var :=
  foldr (fun p acc => match outer !! snd p with
                      | Some v => <[snd p := v]> acc
                      | None => delete (snd p) acc
                      end) vars ps.

Section Body.

Variable call :
  nat -> FunctionDef -> list string -> gmap string FunctionDef -> gmap string Var ->
  M (string * Context).

(** Modelled from the spec: the interpretation of a body in the missing
    executor (4.5). The body lines go through the dispatch of the top level;
    the first [return] that is reached ends the call with its value, the end
    of the body with the empty text. A definition keeps the text of its body
    lines only, so the lines of a body are numbered from 1. *)
Fixpoint run_body (lines : list string) (lineno : nat) (c : Context)
    (stk : list IfState) : M (string * Context) :=
  match lines with
  | [] => ret ("", c)
  | ln :: rest =>
      match conditional (evaluateCondition_model lineno) (variables c) stk lineno ln with
      | Some act => let* stk' := act in run_body rest (S lineno) c stk'
      | None =>
          if in_skipped_body stk then run_body rest (S lineno) c stk
          else
            match regex_match returnRegex ln with
            | Some m =>
                let* v := evalExpression_model lineno (variables c) (trim (sub m 1)) in
                ret (v, c)
            | None =>
                let* c' := simple_construct (evalExpression_model lineno) (call lineno)
                                            c lineno ln in
                run_body rest (S lineno) c' stk
            end
      end
  end.

End Body.

(** Modelled from the spec: [executeFunction] of src/h/executor.h (4.5), which
    is not among the sources. [depth] bounds the nesting of calls, as the call
    stack of the host does, and [lineno] is the line of the call. Functions
    are immutable once defined (3): the table comes back as it was given. *)
Fixpoint executeFunction_model (depth : nat) (lineno : nat) (def : FunctionDef)
    (args : list string) (funcs : gmap string FunctionDef) (vars : gmap string Var)
    : M (string * Context) :=
  match depth with
  | O => fail_with lineno "Call stack exhausted"
  | S depth' =>
      if (List.length args =? List.length (params def))%nat then
        let* bound := bind_parameters lineno (params def) args vars in
        let* r := run_body (executeFunction_model depth') (body def) 1
                           (mkContext funcs bound) [] in
        ret (fst r,
             mkContext funcs (restore_bindings (params def) vars (variables (snd r))))
      else fail_with lineno "Arity error"
  end.

Definition call_depth : nat := 1000.

(** ** The interpreter with the evaluators and the executor of the spec

    The evaluators of the spec report the number of the line that is being
    interpreted, so the driver is given them anew for every line: the loop,
    [interpret] and [main] of the driver are repeated here with the step of a
    line as a parameter. With [step] itself as the parameter they are the
    definitions of the driver ([loop_by_step], [main_by_step]). *)

Section Lines.

Variable line_step : nat -> string -> Driver -> M Driver.

(** [loop], [interpret] and [main] of the driver, with [line_step] in the
    place of [step]. *)
Fixpoint loop_by (i : nat) (lines : list string) (st : Driver) : M Driver :=
  match lines with
  | [] => ret st
  | ln :: rest => let* st' := line_step i ln st in loop_by (S i) rest st'
  end.

Definition interpret_by (file : list string) : M Driver :=
  loop_by 0 (map trim file) initial.

Definition main_by (argv : list string) (open : string -> option (list string))
    (w : IO) : Z * IO :=
  match argv with
  | _ :: path :: _ =>
      match open path with
      | None => (1, mkIO (stdin w) (stdout w) (stderr w +:+ "Failed to open file" +:+ newline))
      | Some file =>
          match interpret_by file w with
          | Running _ w' => (0, w')
          | Exit status w' => (status, w')
          end
      end
  | _ => (1, mkIO (stdin w) (stdout w) (stderr w +:+ "Usage: lomake <file.lo>" +:+ newline))
  end.

End Lines.

(** Modelled from the spec: the step of line [i + 1], with the evaluators
    and the executor reporting that line in their diagnostics (6, 7). *)
Definition lo_step (i : nat) : string -> Driver -> M Driver :=
  step (evalExpression_model (i + 1)) (evaluateCondition_model (i + 1))
       (executeFunction_model call_depth (i + 1)) i.

Definition lo_interpret : list string -> M Driver := interpret_by lo_step.

Definition lo_main : list string -> (string -> option (list string)) -> IO -> Z * IO :=
  main_by lo_step.

(** The driver with the evaluators and the executor of the spec as they are
    on line [n]: the instance of the driver that the properties proved for
    every evaluator and executor are applied to. *)
Definition lo_loop_at (n : nat) : nat -> list string -> Driver -> M Driver :=
  loop (evalExpression_model n) (evaluateCondition_model n)
       (executeFunction_model call_depth n).

Definition lo_interpret_at (n : nat) : list string -> M Driver :=
  interpret (evalExpression_model n) (evaluateCondition_model n)
            (executeFunction_model call_depth n).

Definition lo_main_at (n : nat)
    : list string -> (string -> option (list string)) -> IO -> Z * IO :=
  main (evalExpression_model n) (evaluateCondition_model n)
       (executeFunction_model call_depth n).

(** Program text is written with an apostrophe for every double quote. *)
Fixpoint lo (s : string) : string :=
  match s with
  | String c s' => String (if Ascii.eqb c "'" then dquote else c) (lo s')
  | EmptyString => EmptyString
  end.

Definition console (input : list string) : IO := mkIO input "" "".

(** The run of a program given by its lines, with the lines typed on the
    console. *)
Definition run (program : list string) (input : list string) : Z * IO :=
  lo_main ["lomake"; "program.lo"] (fun _ => Some (map lo program)) (console input).

(** What a run leaves behind when it reaches the end of the program. *)
Definition state_after (program input : list string) : option Driver :=
  match lo_interpret (map lo program) (console input) with
  | Running st _ => Some st
  | Exit _ _ => None
  end.

Definition var_after (program input : list string) (name : string) : option Var :=
  st ← state_after program input; variables (ctx st) !! name.

Definition fun_after (program input : list string) (name : string) : option FunctionDef :=
  st ← state_after program input; functions (ctx st) !! name.

(** ** Classification of lines *)

Definition is_function_header (ln : string) : bool :=
  match regex_match funRegex ln with Some _ => true | None => false end.

Definition is_control (ln : string) : bool :=
  startsWith ln "if-" || startsWith ln "elif-" || String.eqb ln "end--".

(** A line of a branch body that is neither a conditional keyword line nor a
    function header: a statement line, or an empty line. *)
Definition body_line (ln : string) : bool :=
  negb (is_function_header ln) && negb (is_control ln).

(** A line of a chain without nesting: a body line or an elif- line. *)
Definition flat_line (ln : string) : bool :=
  body_line ln || startsWith ln "elif-".



(** A frame is coherent when a body that runs belongs to a matched branch. *)
Definition coherent (f : IfState) : bool := skipping f || matched f.

(** The place of a line in a chain: whether a function body is being
    collected there, and how many inner if- regions are open around it.
    [scan inF depth lines] follows the dispatch of [step] over [lines] from
    such a place and gives the place after them, or nothing when the lines
    close the chain itself (an end-- line outside every inner region). *)
Fixpoint scan (inF : bool) (depth : nat) (lines : list string) : option (bool * nat) :=
  match lines with
  | [] => Some (inF, depth)
  | ln :: rest =>
      if String.eqb ln "" then scan inF depth rest
      else if inF then scan (negb (String.eqb ln "}")) depth rest
      else if is_function_header ln then scan true depth rest
      else if startsWith ln "if-" then scan false (S depth) rest
      else if startsWith ln "elif-" then scan false depth rest
      else if String.eqb ln "end--" then
        match depth with
        | O => None
        | S depth' => scan false depth' rest
        end
      else scan false depth rest
  end.

(** The elif- lines of the chain itself among [lines]: the ones that lie in
    no function body and in no inner region. *)
Fixpoint own_elifs (inF : bool) (depth : nat) (lines : list string) : list string :=
  match lines with
  | [] => []
  | ln :: rest =>
      if String.eqb ln "" then own_elifs inF depth rest
      else if inF then own_elifs (negb (String.eqb ln "}")) depth rest
      else if is_function_header ln then own_elifs true depth rest
      else if startsWith ln "if-" then own_elifs false (S depth) rest
      else if startsWith ln "elif-" then
        match depth with
        | O => ln :: own_elifs false depth rest
        | S _ => own_elifs false depth rest
        end
      else if String.eqb ln "end--" then
        match depth with
        | O => []
        | S depth' => own_elifs false depth' rest
        end
      else own_elifs false depth rest
  end.

Definition add_stderr (w : IO) (s : string) : IO :=
  mkIO (stdin w) (stdout w) (stderr w +:+ s).

Definition add_stdout (w : IO) (s : string) : IO :=
  mkIO (stdin w) (stdout w +:+ s) (stderr w).

(** The executor leaves the function table alone: a call that returns hands
    back the function table it was given. *)
Definition keeps_functions
    (executeFunction :
       FunctionDef -> list string -> gmap string FunctionDef -> gmap string Var ->
       M (string * Context)) : Prop :=
  forall def args funcs vars w res w',
    executeFunction def args funcs vars w = Running res w' -> functions (snd res) = funcs.

(** ** Lines and states used in the statements *)

Fixpoint all_chars (p : ascii -> bool) (s : string) : bool :=
  match s with
  | String c s' => p c && all_chars p s'
  | EmptyString => true
  end.

Definition starts_in (p : ascii -> bool) (s : string) : bool :=
  match s with String c _ => p c | EmptyString => false end.

(** A non-empty run of word characters: what (\w+) captures. *)
Definition word_string (s : string) : bool :=
  starts_in is_word s && all_chars is_word s.

(** The statement "print--NAME!" and the call "print--f-NAME(ARGS)!". *)
Definition print_variable (name : string) : string := "print--" +:+ name +:+ "!".

Definition print_call (fname args : string) : string :=
  "print--f-" +:+ fname +:+ "(" +:+ args +:+ ")!".

(** The definition that "funS int f():{", "return N!", "}" commits. *)
Definition f_returns (n : string) : FunctionDef :=
  mkFunctionDef "int" [] ["return " +:+ n +:+ "!"].

(** The driver at top level with the given frames and nothing declared. *)
Definition frames (stk : list IfState) : Driver :=
  mkDriver (mkContext ∅ ∅) false (mkFunctionDef "" [] []) "" stk.

(** A file system in which every path opens the given file. *)
Definition one_file (file : list string) : string -> option (list string) :=
  fun _ => Some file.

(** An evaluator of conditions that answers [result] and leaves a record of
    every call on the error stream: with it a run shows which conditions the
    driver has had evaluated. *)
Definition recording_evaluator (result : bool)
    : gmap string Var -> string -> string -> string -> M bool :=
  fun _ lhs op rhs w =>
    Running result
            (add_stderr w ("evaluated " +:+ lhs +:+ " " +:+ op +:+ " " +:+ rhs +:+ newline)).

Definition recorded_run (result : bool) (program : list string) : Z * IO :=
  main_by (fun i => step (evalExpression_model (i + 1)) (recording_evaluator result)
                         (executeFunction_model call_depth (i + 1)) i)
          ["lomake"; "program.lo"] (one_file (map lo program)) (console []).

(** ** Lines and predicates used in the further properties *)

(** The text between one pair of double quotes. *)
Definition quote (s : string) : string := String dquote (s +:+ String dquote "").

(** The statement "print--"TEXT"!". *)
Definition print_literal (text : string) : string := "print--" +:+ quote text +:+ "!".

(** The declaration "loc NAME = TYPE(RAW)!". *)
Definition loc_line (name ty raw : string) : string :=
  "loc " +:+ name +:+ " = " +:+ ty +:+ "(" +:+ raw +:+ ")!".

(** The header "funS RET NAME(PARAMS):{". *)
Definition fun_header (ret name ps : string) : string :=
  "funS " +:+ ret +:+ " " +:+ name +:+ "(" +:+ ps +:+ "):{".

(** A parameter as a header writes it: "type: name". *)
Definition show_param (p : string * string) : string := fst p +:+ ": " +:+ snd p.

(** The lines that the collection of a body keeps: the ones that are not
    empty. *)
Definition collected (lines : list string) : list string :=
  filter (fun l => l <> "") lines.

(** Every variable of type bool holds true or false. *)
Definition bools_canonical (vars : gmap string Var) : Prop :=
  forall n v, vars !! n = Some v -> type v = "bool" ->
              value v = "true" \/ value v = "false".

(** No frame says that a branch is running in a chain that has not matched. *)
Definition frames_coherent (stk : list IfState) : Prop :=
  Forall (fun f => coherent f = true) stk.

(** One of the four type names of a declaration. *)
Definition is_type_name (ty : string) : bool :=
  String.eqb ty "int" || String.eqb ty "str" || String.eqb ty "bool"
  || String.eqb ty "arr".

(** The state of a collection: the context [c], the frames [stk], and the
    definition of [name] with the body lines gathered so far. *)
Definition collecting (c : Context) (stk : list IfState) (name rty : string)
    (ps : list (string * string)) (lines : list string) : Driver :=
  mkDriver c true (mkFunctionDef rty ps lines) name stk.

(** The statements "NAME = RHS!" and "NAME = input-- KIND- QPROMPTQ!", Q being
    the double quote. *)
Definition assign_line (name rhs : string) : string := name +:+ " = " +:+ rhs +:+ "!".

Definition input_line (name kind prompt : string) : string :=
  assign_line name ("input-- " +:+ kind +:+ "- " +:+ quote prompt).

(** The first character of a text that is not a word character. *)
Fixpoint first_nonword (s : string) : option ascii :=
  match s with
  | String c s' => if is_word c then first_nonword s' else Some c
  | EmptyString => None
  end.

(** A computation that ends the run does so with status 1. *)
Definition exits_with_1 {A} (m : M A) : Prop :=
  forall w status w', m w = Exit status w' -> status = 1.

(** The groups of a pattern, and the groups that every match of it
    captures. *)
Fixpoint groups_of (r : regex) : list nat :=
  match r with
  | Seq r1 r2 | Alt r1 r2 => (groups_of r1 ++ groups_of r2)%list
  | Grp i r' => i :: groups_of r'
  | _ => []
  end.

Fixpoint sure_groups (r : regex) : list nat :=
  match r with
  | Seq r1 r2 => (sure_groups r1 ++ sure_groups r2)%list
  | Grp i r' => i :: sure_groups r'
  | _ => []
  end.

(** * Properties *)

(** ** Runs of small programs *)

Example run_precedence :
  run ["loc n = int(2 + 3 * 4)!"; "print--n!"] [] = (0, mkIO [] ("14" +:+ newline) "").
Proof. vm_compute; reflexivity. Qed.

Example run_function_call :
  run ["funS int add(int: a, int: b):{"; "  return a + b!"; "}"; "print--f-add(3,4)!"] []
  = (0, mkIO [] ("7" +:+ newline) "").
Proof. vm_compute; reflexivity. Qed.

Example run_branches :
  run ["loc a = int(3)!"; "loc b = int(2)!";
       "if- a << b the"; "print--'less'!";
       "elif- a >> b the"; "print--'greater'!";
       "elif- a === a the"; "print--'same'!";
       "end--"] []
  = (0, mkIO [] ("greater" +:+ newline) "").
Proof. vm_compute; reflexivity. Qed.

Example run_without_argument :
  lo_main ["lomake"] (one_file []) (console [])
  = (1, mkIO [] "" ("Usage: lomake <file.lo>" +:+ newline)).
Proof. reflexivity. Qed.

Example run_missing_file :
  lo_main ["lomake"; "nosuch.lo"] (fun _ => None) (console [])
  = (1, mkIO [] "" ("Failed to open file" +:+ newline)).
Proof. reflexivity. Qed.

(** ** The monad and the loop *)

Lemma bind_running {A B} (m : M A) (k : A -> M B) w a w' :
  m w = Running a w' -> bind m k w = k a w'.
Proof. intros H. unfold bind. now rewrite H. Qed.

Lemma bind_exit {A B} (m : M A) (k : A -> M B) w c w' :
  m w = Exit c w' -> bind m k w = Exit c w'.
Proof. intros H. unfold bind. now rewrite H. Qed.

Lemma bind_inv {A B} (m : M A) (k : A -> M B) w b w' :
  bind m k w = Running b w' ->
  exists a w1, m w = Running a w1 /\ k a w1 = Running b w'.
Proof.
  unfold bind. destruct (m w) as [a w1|c w1]; [eauto | discriminate].
Qed.

Lemma errorAndExit_eq {A} lineno msg w :
  @errorAndExit A lineno msg w
  = Exit 1 (add_stderr w ("Error at line " +:+ show_nat lineno +:+ ": " +:+ msg +:+ endl)).
Proof. reflexivity. Qed.

Lemma errorAndExit_not_running {A} lineno msg w (a : A) w' :
  errorAndExit lineno msg w <> Running a w'.
Proof. rewrite errorAndExit_eq. discriminate. Qed.

Section Facts.

Variable evalExpression : gmap string Var -> string -> M string.
Variable evaluateCondition : gmap string Var -> string -> string -> string -> M bool.
Variable executeFunction :
  FunctionDef -> list string -> gmap string FunctionDef -> gmap string Var ->
  M (string * Context).

Let step' := step evalExpression evaluateCondition executeFunction.
Let loop' := loop evalExpression evaluateCondition executeFunction.

Lemma loop_app i l1 l2 st w :
  loop' i (l1 ++ l2) st w
  = match loop' i l1 st w with
    | Running st' w' => loop' (i + List.length l1) l2 st' w'
    | Exit c w' => Exit c w'
    end.
Proof.
  revert i st w. induction l1 as [|ln l1 IH]; intros i st w; simpl.
  - now rewrite Nat.add_0_r.
  - unfold loop', bind in *. simpl.
    destruct (step _ _ _ i ln st w) as [st1 w1|c w1]; [|reflexivity].
    rewrite IH. now rewrite Nat.add_succ_r.
Qed.

Lemma loop_cons i ln rest st w :
  loop' i (ln :: rest) st w
  = match step' i ln st w with
    | Running st' w' => loop' (S i) rest st' w'
    | Exit c w' => Exit c w'
    end.
Proof. reflexivity. Qed.

End Facts.

(** The loop, [interpret] and [main] with the step of a line as a parameter
    are the ones of the driver when the parameter is [step]. *)
Lemma loop_by_step evalExpression evaluateCondition executeFunction i lines st w :
  loop_by (step evalExpression evaluateCondition executeFunction) i lines st w
  = loop evalExpression evaluateCondition executeFunction i lines st w.
Proof.
  revert i st w. induction lines as [|ln lines IH]; intros i st w; [reflexivity|].
  simpl. unfold bind. destruct (step _ _ _ i ln st w) as [st' w'|]; [apply IH | reflexivity].
Qed.

Lemma main_by_step evalExpression evaluateCondition executeFunction argv open w :
  main_by (step evalExpression evaluateCondition executeFunction) argv open w
  = main evalExpression evaluateCondition executeFunction argv open w.
Proof.
  unfold main_by, main, interpret_by, interpret.
  destruct argv as [|argv0 [|path more]]; [reflexivity | reflexivity |].
  destruct (open path) as [file|]; [|reflexivity]. now rewrite loop_by_step.
Qed.

(** ** Facts about the matcher *)

Lemma append_cons c s t : String c s +:+ t = String c (s +:+ t).
Proof. reflexivity. Qed.

Lemma append_empty_r s : s +:+ "" = s.
Proof.
  induction s as [|c s IH]; [reflexivity|]. now rewrite append_cons, IH.
Qed.

Lemma length_append_le a b : (String.length b <= String.length (a +:+ b))%nat.
Proof.
  induction a as [|c a IH]; [change ("" +:+ b) with b; lia|].
  rewrite append_cons. simpl. lia.
Qed.

Lemma substring_prefix a b :
  String.substring 0 (String.length (a +:+ b) - String.length b) (a +:+ b) = a.
Proof.
  induction a as [|c a IH].
  - change ("" +:+ b) with b. rewrite Nat.sub_diag. destruct b; reflexivity.
  - rewrite append_cons. simpl String.length.
    rewrite Nat.sub_succ_l by apply length_append_le. simpl. now rewrite IH.
Qed.

Lemma many_cons p c s k :
  many p (String c s) k
  = if p c then match many p s k with Some r => Some r | None => k (String c s) end
    else k (String c s).
Proof. reflexivity. Qed.

Lemma many_stop p s k : starts_in p s = false -> many p s k = k s.
Proof. destruct s as [|c s]; [reflexivity|]. simpl. now intros ->. Qed.

(** The greedy repetition takes a whole run of the class when the rest of the
    pattern accepts what follows the run. *)
Lemma many_all p a b k r :
  all_chars p a = true -> starts_in p b = false -> k b = Some r ->
  many p (a +:+ b) k = Some r.
Proof.
  intros Ha Hb Hk. induction a as [|c a IH].
  - change ("" +:+ b) with b. now rewrite many_stop.
  - simpl in Ha. apply andb_true_iff in Ha as [Hc Ha].
    rewrite append_cons, many_cons, Hc, (IH Ha). reflexivity.
Qed.

Lemma regex_match_bol r ln :
  regex_match (Seq Bol r) ln = rmatch r (String.length ln) ln ∅ at_end.
Proof. unfold regex_match. simpl. now rewrite Nat.eqb_refl. Qed.

Lemma rmatch_seq r1 r2 whole s caps k :
  rmatch (Seq r1 r2) whole s caps k
  = rmatch r1 whole s caps (fun s' caps' => rmatch r2 whole s' caps' k).
Proof. reflexivity. Qed.

Lemma rmatch_lit p whole s caps k :
  p <> "" -> rmatch (lit p) whole (p +:+ s) caps k = k s caps.
Proof.
  induction p as [|c p IH]; [congruence|]. intros _.
  destruct p as [|c' p].
  - simpl. now rewrite Ascii.eqb_refl.
  - change (lit (String c (String c' p))) with (Seq (Chr c) (lit (String c' p))).
    rewrite rmatch_seq, append_cons. simpl rmatch at 1. rewrite Ascii.eqb_refl.
    now apply IH.
Qed.

Lemma word_not_space c : is_word c = true -> is_space c = false.
Proof. destruct c as [[] [] [] [] [] [] [] []]; vm_compute; congruence. Qed.

Lemma word_not_dquote c : is_word c = true -> Ascii.eqb c dquote = false.
Proof. destruct c as [[] [] [] [] [] [] [] []]; vm_compute; congruence. Qed.

(** A regular expression anchored at the start fails on a line when it fails
    whatever the length of the line is taken to be. *)
Ltac anchored_mismatch :=
  cbv [cat]; rewrite regex_match_bol;
  match goal with |- context [String.length ?l] => generalize (String.length l) end;
  intros ?; vm_compute; reflexivity.

(** A line that starts with print-- is no declaration, input statement,
    assignment or function header, and no conditional keyword line. *)
Lemma print_line_dispatch tail :
  let ln := "print--" +:+ tail in
  String.eqb ln "" = false
  /\ regex_match funRegex ln = None
  /\ is_control ln = false
  /\ regex_match locRegex ln = None
  /\ regex_match inputRegex ln = None
  /\ regex_match assignRegex ln = None.
Proof.
  intros ln. subst ln. split; [reflexivity|].
  split; [unfold funRegex; anchored_mismatch|].
  split; [reflexivity|].
  split; [unfold locRegex; anchored_mismatch|].
  split; [unfold inputRegex; anchored_mismatch|].
  unfold assignRegex; anchored_mismatch.
Qed.

(** "print--NAME!" matches [printRegex] with NAME as group 3, and no group
    2. *)
Lemma print_variable_match name :
  word_string name = true ->
  regex_match printRegex (print_variable name) = Some (<[3%nat := name]> ∅).
Proof.
  unfold word_string. intros Hw. apply andb_true_iff in Hw as [Hst Hall].
  unfold printRegex, print_variable. cbv [cat]. rewrite regex_match_bol.
  generalize (String.length ("print--" +:+ name +:+ "!")). intros whole.
  rewrite rmatch_seq, rmatch_lit by discriminate.
  rewrite rmatch_seq. unfold ws. simpl rmatch at 1.
  destruct name as [|c name]; [discriminate|]. simpl in Hst, Hall.
  rewrite Hst in Hall. simpl in Hall.
  rewrite append_cons. rewrite many_stop by (simpl; now apply word_not_space).
  rewrite (word_not_dquote c Hst), Hst.
  rewrite (many_all is_word name "!" _ (<[3%nat := String c name]> ∅));
    [reflexivity|assumption|reflexivity|].
  change (String c (name +:+ "!")) with (String c name +:+ "!").
  rewrite substring_prefix. reflexivity.
Qed.

(** "print--f-NAME(ARGS)!" matches [printRegex] with NAME as group 4 and ARGS
    as group 5, and no group 2 or 3. *)
Lemma print_call_match fname args :
  word_string fname = true -> all_chars (is_not ")") args = true ->
  regex_match printRegex (print_call fname args)
  = Some (<[5%nat := args]> (<[4%nat := fname]> ∅)).
Proof.
  unfold word_string. intros Hw Hargs. apply andb_true_iff in Hw as [Hst Hall].
  unfold printRegex, print_call. cbv [cat]. rewrite regex_match_bol.
  generalize (String.length ("print--f-" +:+ fname +:+ "(" +:+ args +:+ ")!")).
  intros whole.
  change ("print--f-" +:+ fname +:+ "(" +:+ args +:+ ")!")
    with ("print--" +:+ "f-" +:+ fname +:+ "(" +:+ args +:+ ")!").
  rewrite rmatch_seq, rmatch_lit by discriminate.
  rewrite rmatch_seq. unfold ws. simpl rmatch at 1.
  change ("" +:+ fname +:+ "(" +:+ args +:+ ")!")
    with (fname +:+ "(" +:+ args +:+ ")!").
  destruct fname as [|c fname]; [discriminate|]. simpl in Hst, Hall.
  rewrite Hst in Hall. simpl in Hall.
  rewrite append_cons, Hst.
  rewrite (many_all is_word fname ("(" +:+ args +:+ ")!") _
             (<[5%nat := args]> (<[4%nat := String c fname]> ∅)));
    [reflexivity|assumption|reflexivity|].
  change ("(" +:+ args +:+ ")!") with (String "(" (args +:+ ")!")).
  change (Ascii.eqb "(" "(") with true. cbv iota.
  rewrite (many_all (is_not ")") args ")!" _
             (<[5%nat := args]> (<[4%nat := String c fname]> ∅)));
    [reflexivity|assumption|reflexivity|].
  rewrite substring_prefix.
  change (String c (fname +:+ String "(" (args +:+ ")!")))
    with (String c fname +:+ String "(" (args +:+ ")!")).
  rewrite substring_prefix. reflexivity.
Qed.

(** ** Splitting and joining *)

Lemma rev_onto_rev_onto e a b :
  string_rev_onto (string_rev_onto e a) b = string_rev_onto a (e +:+ b).
Proof.
  revert a b. induction e as [|c e IH]; intros a b; [reflexivity|].
  simpl. rewrite IH. reflexivity.
Qed.

Lemma string_rev_involutive e : string_rev (string_rev e) = e.
Proof.
  unfold string_rev. rewrite rev_onto_rev_onto. simpl. apply append_empty_r.
Qed.

Lemma getline_items_run d e s cur :
  all_chars (is_not d) e = true ->
  getline_items d (e +:+ s) cur = getline_items d s (string_rev_onto e cur).
Proof.
  revert cur. induction e as [|c e IH]; intros cur He; [reflexivity|].
  simpl in He. apply andb_true_iff in He as [Hc He].
  rewrite append_cons. simpl. unfold is_not in Hc.
  apply negb_true_iff in Hc. rewrite Hc. now apply IH.
Qed.

(** Elements without the delimiter come back from their join, provided the
    last one is not empty: the final read of [getline] yields no empty item. *)
Lemma split_on_join d es :
  Forall (fun e => all_chars (is_not d) e = true) es ->
  last es <> Some "" ->
  split_on d (join (String d "") es) = es.
Proof.
  induction es as [|e es IH]; intros Hall Hlast; [reflexivity|].
  apply Forall_cons in Hall as [He Hall]. unfold split_on in *.
  destruct es as [|e' es].
  - simpl. rewrite <- (append_empty_r e) at 1.
    rewrite (getline_items_run d e "" "" He). simpl.
    fold (string_rev e).
    destruct (string_rev e) eqn:Hrev.
    + exfalso. apply Hlast. simpl. f_equal.
      rewrite <- (string_rev_involutive e), Hrev. reflexivity.
    + rewrite <- Hrev, string_rev_involutive. reflexivity.
  - change (join (String d "") (e :: e' :: es))
      with (e +:+ String d "" +:+ join (String d "") (e' :: es)).
    rewrite (getline_items_run d e _ "" He).
    rewrite append_cons. simpl getline_items at 1. rewrite Ascii.eqb_refl.
    fold (string_rev e). rewrite string_rev_involutive. f_equal.
    change ("" +:+ join (String d "") (e' :: es)) with (join (String d "") (e' :: es)).
    apply IH; [assumption|]. exact Hlast.
Qed.

Lemma append_assoc a b c : (a +:+ b) +:+ c = a +:+ b +:+ c.
Proof.
  induction a as [|x a IH]; [reflexivity|]. now rewrite !append_cons, IH.
Qed.

Lemma write_elements_from first es os :
  write_elements first es os
  = match es with
    | [] => os
    | _ => (if first then os else os +:+ ",") +:+ join "," es
    end.
Proof.
  revert first os. induction es as [|e es IH]; intros first os; [reflexivity|].
  simpl write_elements. rewrite IH. destruct es as [|e' es]; [reflexivity|].
  change (join "," (e :: e' :: es)) with (e +:+ "," +:+ join "," (e' :: es)).
  now rewrite !append_assoc.
Qed.

(** The loop of processLoc writes the comma-join of the elements. *)
Lemma write_elements_join es : write_elements true es "" = join "," es.
Proof. rewrite write_elements_from. destruct es; reflexivity. Qed.

(** ** Variables: types and values *)

Section Store.

Variable evalExpression : gmap string Var -> string -> M string.

Lemma lookup_set_variable c name v n :
  variables (set_variable c name v) !! n
  = if decide (name = n) then Some v else variables c !! n.
Proof. unfold set_variable. simpl. apply lookup_insert. Qed.

Lemma functions_set_variable c name v :
  functions (set_variable c name v) = functions c.
Proof. reflexivity. Qed.

(** What an assignment that returns has done: the variable was declared, and
    it keeps its type with a new value. *)
Lemma processAssign_running c m lineno w c' w' :
  processAssign evalExpression c m lineno w = Running c' w' ->
  exists var val,
    variables c !! sub m 1 = Some var
    /\ c' = set_variable c (sub m 1) (mkVar (type var) val).
Proof.
  unfold processAssign.
  destruct (variables c !! sub m 1) as [var|] eqn:Hvar.
  2: { intros H. now apply errorAndExit_not_running in H. }
  intros H. exists var.
  destruct (String.eqb (type var) "int").
  { apply bind_inv in H as (val & w1 & _ & H). inversion H; subst. eauto. }
  destruct (String.eqb (type var) "bool").
  { destruct (_ || _).
    { inversion H; subst. eauto. }
    destruct (_ || _).
    { inversion H; subst. eauto. }
    now apply errorAndExit_not_running in H. }
  inversion H; subst. eauto.
Qed.

(** What a declaration that returns has done: the variable is bound to the
    type named in the statement. *)
Lemma processLoc_running c m lineno w c' w' :
  processLoc evalExpression c m lineno w = Running c' w' ->
  exists val, c' = set_variable c (sub m 1) (mkVar (sub m 2) val).
Proof.
  unfold processLoc. intros H.
  destruct (String.eqb (sub m 2) "str") eqn:E1.
  { apply String.eqb_eq in E1. rewrite E1. inversion H; subst. eauto. }
  destruct (String.eqb (sub m 2) "int") eqn:E2.
  { apply String.eqb_eq in E2. rewrite E2.
    apply bind_inv in H as (val & w1 & _ & H). inversion H; subst. eauto. }
  destruct (String.eqb (sub m 2) "bool") eqn:E3.
  { apply String.eqb_eq in E3. rewrite E3.
    destruct (_ || _).
    { inversion H; subst. eauto. }
    destruct (_ || _).
    { inversion H; subst. eauto. }
    now apply errorAndExit_not_running in H. }
  destruct (String.eqb (sub m 2) "arr") eqn:E4.
  { apply String.eqb_eq in E4. rewrite E4. inversion H; subst. eauto. }
  now apply errorAndExit_not_running in H.
Qed.

(** What an input statement that returns has done: the variable is bound to
    the type int or str, as the statement says, and to the line read. *)
Lemma processInput_running c m lineno w c' w' :
  processInput c m lineno w = Running c' w' ->
  exists line,
    c' = set_variable c (sub m 1)
           (mkVar (if String.eqb (sub m 2) "i" then "int" else "str") line).
Proof.
  unfold processInput. intros H.
  apply bind_inv in H as (? & ? & _ & H). apply bind_inv in H as (input & ? & _ & H).
  destruct (String.eqb _ _).
  - destruct (stoll input).
    + inversion H; subst. eauto.
    + now apply errorAndExit_not_running in H.
  - inversion H; subst. eauto.
Qed.

(** C3, as amended: an assignment never changes the type of a variable. Every
    variable has after the assignment the type it had before (a name is
    declared after it exactly when it was before), the variables other than
    the assigned one are untouched, and the function table is as it was. A
    declaration and an input statement bind their variable anew, with the type
    the statement names, whatever type the name had before. *)
Theorem assignment_keeps_types :
  (forall c m lineno w c' w',
     processAssign evalExpression c m lineno w = Running c' w' ->
     (forall n, type <$> (variables c' !! n) = type <$> (variables c !! n))
     /\ (forall n, n <> sub m 1 -> variables c' !! n = variables c !! n)
     /\ functions c' = functions c)
  /\ (forall c m lineno w c' w',
        processLoc evalExpression c m lineno w = Running c' w' ->
        type <$> (variables c' !! sub m 1) = Some (sub m 2))
  /\ (forall c m lineno w c' w',
        processInput c m lineno w = Running c' w' ->
        type <$> (variables c' !! sub m 1)
        = Some (if String.eqb (sub m 2) "i" then "int" else "str")).
Proof.
  split; [|split]; intros c m lineno w c' w' H.
  - apply processAssign_running in H as (var & val & Hvar & ->).
    split; [|split].
    + intros n. rewrite lookup_set_variable.
      destruct (decide (sub m 1 = n)) as [<-|Hne]; [|reflexivity].
      now rewrite Hvar.
    + intros n Hne. rewrite lookup_set_variable.
      destruct (decide (sub m 1 = n)); congruence.
    + reflexivity.
  - apply processLoc_running in H as (val & ->).
    rewrite lookup_set_variable. now destruct (decide (sub m 1 = sub m 1)).
  - apply processInput_running in H as (line & ->).
    rewrite lookup_set_variable. now destruct (decide (sub m 1 = sub m 1)).
Qed.

End Store.

(** The statement "b = 0!" for a variable b declared with type bool, and a
    declaration and an input statement for the same name. *)
Lemma assignment_keeps_types_witness :
  let c := mkContext ∅ (<[ "b" := mkVar "bool" "true" ]> ∅) in
  let m := <[1%nat := "b"]> (<[2%nat := "0"]> ∅) in
  let c' := set_variable c "b" (mkVar "bool" "false") in
  let d := <[1%nat := "b"]> (<[2%nat := "str"]> (<[3%nat := "a"]> ∅)) in
  let i := <[1%nat := "b"]> (<[2%nat := "i"]> (<[3%nat := "n: "]> ∅)) in
  regex_match assignRegex "b = 0!" = Some m
  /\ ((forall n, type <$> (variables c' !! n) = type <$> (variables c !! n))
      /\ (forall n, n <> sub m 1 -> variables c' !! n = variables c !! n)
      /\ functions c' = functions c)
  /\ type <$> (variables (set_variable c "b" (mkVar "str" "a")) !! sub d 1)
     = Some (sub d 2)
  /\ type <$> (variables (set_variable c "b" (mkVar "int" "7")) !! sub i 1)
     = Some (if String.eqb (sub i 2) "i" then "int" else "str").
Proof.
  intros c m c' d i.
  split; [vm_compute; reflexivity|]. split; [|split].
  - apply (proj1 (assignment_keeps_types (evalExpression_model 1))
             c m 1%nat (console []) c' (console [])).
    vm_compute; reflexivity.
  - apply (proj1 (proj2 (assignment_keeps_types (evalExpression_model 1)))
             c d 1%nat (console []) _ (console [])).
    vm_compute; reflexivity.
  - apply (proj2 (proj2 (assignment_keeps_types (evalExpression_model 1)))
             c i 1%nat (console ["7"]) _ (mkIO [] "n: " "")).
    vm_compute; reflexivity.
Defined.

(** C3 as stated fails: a second declaration of the name, and an input
    statement for it, each give the variable a new type. *)
Lemma redeclaration_changes_type :
  var_after ["loc x = bool(true)!"] [] "x" = Some (mkVar "bool" "true")
  /\ var_after ["loc x = bool(true)!"; "loc x = str('a')!"] [] "x"
     = Some (mkVar "str" "a")
  /\ var_after ["loc x = bool(true)!"; "x = input--i-'n: '!"] ["7"] "x"
     = Some (mkVar "int" "7").
Proof. repeat split; vm_compute; reflexivity. Qed.

(** An input statement of kind i stores the line as it was typed whenever
    [stoll] can read a number at its start. *)
Lemma processInput_int c m lineno w line rest z :
  sub m 2 = "i" -> stdin w = line :: rest -> stoll line = Some z ->
  processInput c m lineno w
  = Running (set_variable c (sub m 1) (mkVar "int" line))
            (mkIO rest (stdout w +:+ sub m 3) (stderr w)).
Proof.
  intros Hty Hin Hz. unfold processInput, bind, cout, getline_cin. simpl.
  rewrite Hin, Hty. simpl. now rewrite Hz.
Qed.

(** C4: the input statement of kind i breaks the invariant. With the line
    12abc typed at the prompt, [stoll] reads 12 and succeeds, and the variable
    is stored with type int and the value 12abc, which is not decimal integer
    text. *)
Theorem input_int_stores_raw_text :
  stoll "12abc" = Some 12
  /\ var_after ["n = input--i-'Enter: '!"] ["12abc"] "n" = Some (mkVar "int" "12abc")
  /\ is_decimal "12abc" = false
  /\ run ["n = input--i-'Enter: '!"; "print--n!"] ["12abc"]
     = (0, mkIO [] ("Enter: 12abc" +:+ newline) "").
Proof. repeat split; vm_compute; reflexivity. Qed.

(** ** The function table *)

Section Functions.

Variable evalExpression : gmap string Var -> string -> M string.
Variable evaluateCondition : gmap string Var -> string -> string -> string -> M bool.
Variable executeFunction :
  FunctionDef -> list string -> gmap string FunctionDef -> gmap string Var ->
  M (string * Context).

Lemma processLoc_functions c m lineno w c' w' :
  processLoc evalExpression c m lineno w = Running c' w' -> functions c' = functions c.
Proof.
  unfold processLoc. intros H.
  repeat match type of H with
         | (if ?b then _ else _) _ = _ => destruct b
         | bind _ _ _ = _ => apply bind_inv in H as (? & ? & _ & H)
         | ret _ _ = _ => inversion H; subst; clear H
         | errorAndExit _ _ _ = _ => now apply errorAndExit_not_running in H
         end; reflexivity.
Qed.

Lemma processInput_functions c m lineno w c' w' :
  processInput c m lineno w = Running c' w' -> functions c' = functions c.
Proof.
  unfold processInput. intros H.
  apply bind_inv in H as (? & ? & _ & H). apply bind_inv in H as (input & ? & _ & H).
  destruct (String.eqb _ _).
  - destruct (stoll input).
    + inversion H; subst. reflexivity.
    + now apply errorAndExit_not_running in H.
  - inversion H; subst. reflexivity.
Qed.

Hypothesis executeFunction_keeps : keeps_functions executeFunction.

Lemma processPrint_functions c m lineno w c' w' :
  processPrint executeFunction c m lineno w = Running c' w' -> functions c' = functions c.
Proof.
  unfold processPrint. intros H.
  destruct (m !! 2%nat).
  { apply bind_inv in H as (? & ? & _ & H). now inversion H. }
  destruct (m !! 3%nat).
  { destruct (variables c !! _).
    - destruct (String.eqb _ _);
        apply bind_inv in H as (? & ? & _ & H); now inversion H.
    - apply bind_inv in H as (? & ? & _ & H). now inversion H. }
  destruct (m !! 4%nat).
  { destruct (functions c !! _).
    - apply bind_inv in H as (res & ? & Hcall & H).
      apply bind_inv in H as (? & ? & _ & H). inversion H; subst.
      exact (executeFunction_keeps _ _ _ _ _ _ _ Hcall).
    - now apply errorAndExit_not_running in H. }
  now apply errorAndExit_not_running in H.
Qed.

Lemma simple_construct_functions c lineno ln w c' w' :
  simple_construct evalExpression executeFunction c lineno ln w = Running c' w' ->
  functions c' = functions c.
Proof.
  unfold simple_construct. intros H.
  destruct (regex_match locRegex ln); [now apply processLoc_functions in H|].
  destruct (regex_match inputRegex ln); [now apply processInput_functions in H|].
  destruct (regex_match assignRegex ln).
  { now apply processAssign_running in H as (var & val & _ & ->). }
  destruct (regex_match printRegex ln); [now apply processPrint_functions in H|].
  apply bind_inv in H as (? & ? & _ & H). discriminate.
Qed.

(** The closing line of a definition always stores the definition. *)
Lemma step_commit i st w :
  inFunction st = true ->
  step evalExpression evaluateCondition executeFunction i "}" st w
  = Running (commit_function st) w.
Proof. intros HinF. unfold step. simpl String.eqb. now rewrite HinF. Qed.

(** Every other line leaves the function table as it is. *)
Lemma step_keeps_functions i ln st w st' w' :
  inFunction st = false \/ ln <> "}" ->
  step evalExpression evaluateCondition executeFunction i ln st w = Running st' w' ->
  functions (ctx st') = functions (ctx st).
Proof.
  unfold step. intros Hother H.
  destruct (String.eqb ln "") eqn:Hempty.
  { now inversion H. }
  destruct (inFunction st) eqn:HinF.
  { destruct (String.eqb ln "}") eqn:Hclose.
    - apply String.eqb_eq in Hclose. destruct Hother; congruence.
    - now inversion H. }
  destruct (regex_match funRegex ln).
  { now inversion H. }
  destruct (conditional _ _ _ _ _).
  { apply bind_inv in H as (? & ? & _ & H). now inversion H. }
  destruct (in_skipped_body _).
  { now inversion H. }
  apply bind_inv in H as (c' & ? & Hc & H). inversion H; subst.
  simpl. now apply simple_construct_functions in Hc.
Qed.

End Functions.

(** C5, as amended: the function table is a map from names, so names are
    unique. The line that closes a definition always stores the definition
    just collected under its name: the table afterwards is the table from
    before with that entry written, so whatever the name was bound to before
    is replaced and the entries of all other names stay as they were. Every
    other line leaves the table as it is; this part needs that the executor,
    which a call hands the table to, gives the table back as it got it. *)
Theorem function_table_changes_only_at_commit
    evalExpression evaluateCondition executeFunction i ln st w :
  (inFunction st = true -> ln = "}" ->
   exists st',
     step evalExpression evaluateCondition executeFunction i ln st w = Running st' w
     /\ functions (ctx st')
        = <[currentFuncName st := currentFunc st]> (functions (ctx st))
     /\ functions (ctx st') !! currentFuncName st = Some (currentFunc st)
     /\ forall name, name <> currentFuncName st ->
          functions (ctx st') !! name = functions (ctx st) !! name)
  /\ (keeps_functions executeFunction ->
      forall st' w',
        inFunction st = false \/ ln <> "}" ->
        step evalExpression evaluateCondition executeFunction i ln st w = Running st' w' ->
        functions (ctx st') = functions (ctx st)).
Proof.
  split.
  - intros HinF ->. exists (commit_function st).
    split; [now apply step_commit|]. split; [reflexivity|]. simpl. split.
    + apply lookup_insert_eq.
    + intros name Hne. now apply lookup_insert_ne.
  - intros Hkeeps st' w'. now apply step_keeps_functions.
Qed.

(** The executor of the spec hands the function table back as it was
    given. *)
Lemma executeFunction_model_keeps depth lineno :
  keeps_functions (executeFunction_model depth lineno).
Proof.
  intros def args funcs vars w res w' H. destruct depth as [|depth]; [discriminate H|].
  simpl in H. destruct (_ =? _)%nat; [|discriminate H].
  apply bind_inv in H as (bound & w1 & _ & H).
  apply bind_inv in H as (r & w2 & _ & H). now inversion H.
Qed.

(** The closing line of a second definition of f, and a call of f. *)
Lemma function_table_changes_only_at_commit_witness :
  let c := mkContext (<[ "f" := f_returns "1" ]> ∅) ∅ in
  let st := mkDriver c true (f_returns "2") "f" [] in
  let top := mkDriver c false (f_returns "1") "f" [] in
  (exists st',
     lo_step 6 "}" st (console []) = Running st' (console [])
     /\ functions (ctx st') = <[ "f" := f_returns "2" ]> (functions c)
     /\ functions (ctx st') !! "f" = Some (f_returns "2")
     /\ forall name, name <> "f" ->
          functions (ctx st') !! name = functions (ctx st) !! name)
  /\ keeps_functions (executeFunction_model call_depth (7 + 1))
  /\ lo_step 7 (print_call "f" "") top (console [])
     = Running top (mkIO [] ("1" +:+ newline) "")
  /\ functions (ctx top) = functions c.
Proof.
  intros c st top. split; [|split; [|split]].
  - exact (proj1 (function_table_changes_only_at_commit
                    (evalExpression_model (6 + 1)) (evaluateCondition_model (6 + 1))
                    (executeFunction_model call_depth (6 + 1))
                    6%nat "}" st (console [])) eq_refl eq_refl).
  - apply executeFunction_model_keeps.
  - vm_compute; reflexivity.
  - assert (lo_step 7 (print_call "f" "") top (console [])
            = Running top (mkIO [] ("1" +:+ newline) "")) as Hrun
      by (vm_compute; reflexivity).
    exact (proj2 (function_table_changes_only_at_commit
                    (evalExpression_model (7 + 1)) (evaluateCondition_model (7 + 1))
                    (executeFunction_model call_depth (7 + 1))
                    7%nat (print_call "f" "") top (console []))
                 (executeFunction_model_keeps call_depth (7 + 1))
                 top (mkIO [] ("1" +:+ newline) "") (or_introl eq_refl) Hrun).
Defined.

(** C5 as stated fails: a second definition of f replaces the first one, and
    a call made after it runs the second body. *)
Lemma redefinition_replaces_function :
  fun_after ["funS int f():{"; "return 1!"; "}"] [] "f" = Some (f_returns "1")
  /\ fun_after ["funS int f():{"; "return 1!"; "}";
                "funS int f():{"; "return 2!"; "}"] [] "f" = Some (f_returns "2")
  /\ run ["funS int f():{"; "return 1!"; "}";
          "funS int f():{"; "return 2!"; "}"; "print--f-f()!"] []
     = (0, mkIO [] ("2" +:+ newline) "").
Proof. repeat split; vm_compute; reflexivity. Qed.

(** ** Printing *)

Lemma print_items_join vals : print_items vals = join ", " vals.
Proof.
  induction vals as [|v rest IH]; [reflexivity|].
  change (print_items (v :: rest))
    with (v +:+ (match rest with [] => "" | _ => ", " end) +:+ print_items rest).
  rewrite IH. destruct rest; [|reflexivity].
  simpl. apply append_empty_r.
Qed.

Section Print.

Variable evalExpression : gmap string Var -> string -> M string.
Variable evaluateCondition : gmap string Var -> string -> string -> string -> M bool.
Variable executeFunction :
  FunctionDef -> list string -> gmap string FunctionDef -> gmap string Var ->
  M (string * Context).

Lemma processPrint_array c m lineno w name v :
  m !! 2%nat = None -> m !! 3%nat = Some name ->
  variables c !! name = Some v -> type v = "arr" ->
  processPrint executeFunction c m lineno w
  = Running c (add_stdout w ("[" +:+ join ", " (map trim (split_on "," (value v)))
                                 +:+ "]" +:+ newline)).
Proof.
  intros H2 H3 Hv Hty. unfold processPrint. rewrite H2, H3, Hv, Hty. simpl.
  unfold bind, cout, ret, add_stdout. simpl. now rewrite print_items_join.
Qed.

Lemma processPrint_undefined_variable c m lineno w name :
  m !! 2%nat = None -> m !! 3%nat = Some name -> variables c !! name = None ->
  processPrint executeFunction c m lineno w
  = Running c (add_stderr w ("Undefined variable: " +:+ name +:+ newline)).
Proof. intros H2 H3 Hv. unfold processPrint. now rewrite H2, H3, Hv. Qed.

Lemma processPrint_undefined_function c m lineno w fname :
  m !! 2%nat = None -> m !! 3%nat = None -> m !! 4%nat = Some fname ->
  functions c !! fname = None ->
  processPrint executeFunction c m lineno w
  = Exit 1 (add_stderr w ("Error at line " +:+ show_nat lineno
                          +:+ ": Undefined function: " +:+ fname +:+ newline)).
Proof. intros H2 H3 H4 Hf. unfold processPrint. now rewrite H2, H3, H4, Hf. Qed.

Lemma processAssign_undefined_variable c m lineno w :
  variables c !! sub m 1 = None ->
  processAssign evalExpression c m lineno w
  = Exit 1 (add_stderr w ("Error at line " +:+ show_nat lineno
                          +:+ ": Undefined variable: " +:+ sub m 1 +:+ newline)).
Proof. intros Hv. unfold processAssign. now rewrite Hv. Qed.

(** An input statement of kind str never fails, whether or not its variable
    was declared. *)
Lemma processInput_str c m lineno w :
  sub m 2 = "str" ->
  processInput c m lineno w
  = let line := match stdin w with l :: _ => l | [] => "" end in
    Running (set_variable c (sub m 1) (mkVar "str" line))
            (mkIO (tail (stdin w)) (stdout w +:+ sub m 3) (stderr w)).
Proof.
  intros Hty. unfold processInput, bind, cout, getline_cin. simpl.
  rewrite Hty. simpl. destruct w as [[|l rest] out err]; reflexivity.
Qed.

(** How a line that is dispatched to a simple construct moves the driver. *)
Lemma step_simple i ln st w :
  String.eqb ln "" = false -> inFunction st = false ->
  regex_match funRegex ln = None -> is_control ln = false ->
  in_skipped_body (ifStack st) = false ->
  step evalExpression evaluateCondition executeFunction i ln st w
  = bind (simple_construct evalExpression executeFunction (ctx st) (i + 1) ln)
         (fun c => ret (with_ctx st c)) w.
Proof.
  intros Hne HinF Hfun Hctl Hskip. unfold step. rewrite Hne, HinF, Hfun.
  unfold is_control in Hctl. apply orb_false_iff in Hctl as [Hctl Hend].
  apply orb_false_iff in Hctl as [Hif Helif].
  unfold conditional. now rewrite Hif, Helif, Hend, Hskip.
Qed.

Lemma with_ctx_same st : with_ctx st (ctx st) = st.
Proof. now destruct st. Qed.

(** A print statement that is reached goes to processPrint. *)
Lemma step_print i tail m st w :
  inFunction st = false -> in_skipped_body (ifStack st) = false ->
  regex_match printRegex ("print--" +:+ tail) = Some m ->
  step evalExpression evaluateCondition executeFunction i ("print--" +:+ tail) st w
  = bind (processPrint executeFunction (ctx st) m (i + 1))
         (fun c => ret (with_ctx st c)) w.
Proof.
  intros HinF Hskip Hm.
  destruct (print_line_dispatch tail) as (Hne & Hfun & Hctl & Hloc & Hinp & Hasg).
  rewrite step_simple by assumption.
  unfold simple_construct. now rewrite Hloc, Hinp, Hasg, Hm.
Qed.

Lemma step_print_array i name st w v :
  word_string name = true ->
  inFunction st = false -> in_skipped_body (ifStack st) = false ->
  variables (ctx st) !! name = Some v -> type v = "arr" ->
  step evalExpression evaluateCondition executeFunction i (print_variable name) st w
  = Running st (add_stdout w ("[" +:+ join ", " (map trim (split_on "," (value v)))
                                  +:+ "]" +:+ newline)).
Proof.
  intros Hname HinF Hskip Hv Hty. unfold print_variable.
  rewrite (step_print _ _ _ _ _ HinF Hskip (print_variable_match name Hname)).
  unfold bind.
  rewrite (processPrint_array _ _ _ _ name v) by (assumption || reflexivity).
  unfold ret. now rewrite with_ctx_same.
Qed.

Lemma step_print_undefined_variable i name st w :
  word_string name = true ->
  inFunction st = false -> in_skipped_body (ifStack st) = false ->
  variables (ctx st) !! name = None ->
  step evalExpression evaluateCondition executeFunction i (print_variable name) st w
  = Running st (add_stderr w ("Undefined variable: " +:+ name +:+ newline)).
Proof.
  intros Hname HinF Hskip Hv. unfold print_variable.
  rewrite (step_print _ _ _ _ _ HinF Hskip (print_variable_match name Hname)).
  unfold bind.
  rewrite (processPrint_undefined_variable _ _ _ _ name) by (assumption || reflexivity).
  unfold ret. now rewrite with_ctx_same.
Qed.

Lemma step_print_undefined_function i fname args st w :
  word_string fname = true -> all_chars (is_not ")") args = true ->
  inFunction st = false -> in_skipped_body (ifStack st) = false ->
  functions (ctx st) !! fname = None ->
  step evalExpression evaluateCondition executeFunction i (print_call fname args) st w
  = Exit 1 (add_stderr w ("Error at line " +:+ show_nat (i + 1)
                          +:+ ": Undefined function: " +:+ fname +:+ newline)).
Proof.
  intros Hname Hargs HinF Hskip Hf.
  change (print_call fname args)
    with ("print--" +:+ "f-" +:+ fname +:+ "(" +:+ args +:+ ")!").
  rewrite (step_print _ _ _ _ _ HinF Hskip (print_call_match fname args Hname Hargs)).
  unfold bind.
  now rewrite (processPrint_undefined_function _ _ _ _ fname) by (assumption || reflexivity).
Qed.

Lemma step_assign_undefined i ln m st w :
  String.eqb ln "" = false -> regex_match funRegex ln = None -> is_control ln = false ->
  inFunction st = false -> in_skipped_body (ifStack st) = false ->
  regex_match locRegex ln = None -> regex_match inputRegex ln = None ->
  regex_match assignRegex ln = Some m ->
  variables (ctx st) !! sub m 1 = None ->
  step evalExpression evaluateCondition executeFunction i ln st w
  = Exit 1 (add_stderr w ("Error at line " +:+ show_nat (i + 1)
                          +:+ ": Undefined variable: " +:+ sub m 1 +:+ newline)).
Proof.
  intros Hne Hfun Hctl HinF Hskip Hloc Hinp Hasg Hv.
  rewrite step_simple by assumption.
  unfold simple_construct, bind. rewrite Hloc, Hinp, Hasg.
  now rewrite processAssign_undefined_variable.
Qed.

Lemma step_input_str i ln m st w :
  String.eqb ln "" = false -> regex_match funRegex ln = None -> is_control ln = false ->
  inFunction st = false -> in_skipped_body (ifStack st) = false ->
  regex_match locRegex ln = None -> regex_match inputRegex ln = Some m ->
  sub m 2 = "str" ->
  step evalExpression evaluateCondition executeFunction i ln st w
  = let line := match stdin w with l :: _ => l | [] => "" end in
    Running (with_ctx st (set_variable (ctx st) (sub m 1) (mkVar "str" line)))
            (mkIO (tail (stdin w)) (stdout w +:+ sub m 3) (stderr w)).
Proof.
  intros Hne Hfun Hctl HinF Hskip Hloc Hinp Hty.
  rewrite step_simple by assumption.
  unfold simple_construct, bind. rewrite Hloc, Hinp.
  now rewrite processInput_str.
Qed.

Lemma step_input_int i ln m st w line rest z :
  String.eqb ln "" = false -> regex_match funRegex ln = None -> is_control ln = false ->
  inFunction st = false -> in_skipped_body (ifStack st) = false ->
  regex_match locRegex ln = None -> regex_match inputRegex ln = Some m ->
  sub m 2 = "i" -> stdin w = line :: rest -> stoll line = Some z ->
  step evalExpression evaluateCondition executeFunction i ln st w
  = Running (with_ctx st (set_variable (ctx st) (sub m 1) (mkVar "int" line)))
            (mkIO rest (stdout w +:+ sub m 3) (stderr w)).
Proof.
  intros Hne Hfun Hctl HinF Hskip Hloc Hinp Hty Hin Hz.
  rewrite step_simple by assumption.
  unfold simple_construct, bind. rewrite Hloc, Hinp.
  now rewrite (processInput_int _ _ _ _ line rest z).
Qed.

End Print.

(** C6: after the declaration of a as arr("x","y","z"), the statement print--a!
    writes [x, y, z] and a newline, and nothing else happens. In general, for
    every name, a print statement that is reached and names a variable of type
    arr writes an opening bracket, the items of the stored value (the pieces
    between its commas, trimmed) with a comma and a blank between them, a
    closing bracket and a newline, and changes nothing. When the stored value
    is the comma-join of elements e1 ... en that contain no comma and no
    surrounding blanks, the last of them not empty, the output is
    [e1, e2, ..., en]. *)
Theorem array_prints_in_brackets :
  run ["loc a = arr('x','y','z')!"; "print--a!"] []
  = (0, mkIO [] ("[x, y, z]" +:+ newline) "")
  /\ (forall evalExpression evaluateCondition executeFunction i name st w v,
        word_string name = true ->
        inFunction st = false -> in_skipped_body (ifStack st) = false ->
        variables (ctx st) !! name = Some v -> type v = "arr" ->
        step evalExpression evaluateCondition executeFunction i (print_variable name) st w
        = Running st (add_stdout w ("[" +:+ join ", " (map trim (split_on "," (value v)))
                                        +:+ "]" +:+ newline)))
  /\ (forall es,
        Forall (fun e => all_chars (is_not ",") e = true /\ trim e = e) es ->
        last es <> Some "" ->
        map trim (split_on "," (join "," es)) = es).
Proof.
  split; [vm_compute; reflexivity|]. split.
  - intros. now apply step_print_array.
  - intros es Hes Hlast. rewrite split_on_join.
    + clear Hlast. induction Hes as [|e es [_ He] _ IH]; [reflexivity|].
      simpl. now rewrite He, IH.
    + eapply Forall_impl; [exact Hes|]. now intros e [He _].
    + exact Hlast.
Qed.

(** The second statement of the program of C6, in the state the first one
    leaves. *)
Lemma array_prints_in_brackets_witness :
  let st := mkDriver (mkContext ∅ (<[ "a" := mkVar "arr" "x,y,z" ]> ∅))
                     false (mkFunctionDef "" [] []) "" [] in
  state_after ["loc a = arr('x','y','z')!"] [] = Some st
  /\ lo_step 1 (print_variable "a") st (console [])
     = Running st (add_stdout (console []) ("[x, y, z]" +:+ newline))
  /\ map trim (split_on "," (join "," ["x"; "y"; "z"])) = ["x"; "y"; "z"].
Proof.
  intros st. split; [vm_compute; reflexivity|]. split.
  - apply (proj1 (proj2 array_prints_in_brackets)
             (evalExpression_model (1 + 1)) (evaluateCondition_model (1 + 1))
             (executeFunction_model call_depth (1 + 1)) 1%nat "a" st (console [])
             (mkVar "arr" "x,y,z")); reflexivity.
  - apply (proj2 (proj2 array_prints_in_brackets) ["x"; "y"; "z"]).
    + repeat constructor.
    + discriminate.
Defined.

(** C8: calling an undefined function is fatal. The program print--f-foo()!
    ends with status 1 and the diagnostic "Error at line 1: Undefined function:
    foo". In general a call statement that is reached and names a function
    that is not in the table ends the run with status 1 and that diagnostic,
    with the number of its line. *)
Theorem undefined_function_call_is_fatal :
  run ["print--f-foo()!"] []
  = (1, mkIO [] "" ("Error at line 1: Undefined function: foo" +:+ newline))
  /\ (forall evalExpression evaluateCondition executeFunction i fname args st w,
        word_string fname = true -> all_chars (is_not ")") args = true ->
        inFunction st = false -> in_skipped_body (ifStack st) = false ->
        functions (ctx st) !! fname = None ->
        step evalExpression evaluateCondition executeFunction i
             (print_call fname args) st w
        = Exit 1 (add_stderr w ("Error at line " +:+ show_nat (i + 1)
                                +:+ ": Undefined function: " +:+ fname +:+ newline))).
Proof.
  split; [vm_compute; reflexivity|].
  intros. now apply step_print_undefined_function.
Qed.

(** The call of foo on line 3, after a declaration and a print statement. *)
Lemma undefined_function_call_is_fatal_witness :
  let st := mkDriver (mkContext ∅ (<[ "b" := mkVar "bool" "true" ]> ∅))
                     false (mkFunctionDef "" [] []) "" [] in
  state_after ["loc b = bool(1)!"; "print--b!"] [] = Some st
  /\ lo_step 2 (print_call "foo" "") st (console [])
     = Exit 1 (add_stderr (console [])
                 ("Error at line 3: Undefined function: foo" +:+ newline)).
Proof.
  intros st. split; [vm_compute; reflexivity|].
  apply (proj2 undefined_function_call_is_fatal
           (evalExpression_model (2 + 1)) (evaluateCondition_model (2 + 1))
           (executeFunction_model call_depth (2 + 1)) 2%nat "foo" "" st (console []));
    reflexivity.
Defined.

(** C7, as amended: a print statement that is reached and names a variable
    that is not declared writes the warning "Undefined variable: NAME" to the
    error stream and the run goes on in the same state; an assignment that is
    reached and whose left side is not declared ends the run with status 1;
    an input statement that is reached goes on, whether or not its variable
    is declared, and declares the variable: always for kind str, and for kind
    i whenever the line read starts with an integer. *)
Theorem undefined_variable_in_print_warns :
  (forall evalExpression evaluateCondition executeFunction i name st w,
     word_string name = true ->
     inFunction st = false -> in_skipped_body (ifStack st) = false ->
     variables (ctx st) !! name = None ->
     step evalExpression evaluateCondition executeFunction i (print_variable name) st w
     = Running st (add_stderr w ("Undefined variable: " +:+ name +:+ newline)))
  /\ (forall evalExpression evaluateCondition executeFunction i ln m st w,
        String.eqb ln "" = false -> regex_match funRegex ln = None ->
        is_control ln = false ->
        inFunction st = false -> in_skipped_body (ifStack st) = false ->
        regex_match locRegex ln = None -> regex_match inputRegex ln = None ->
        regex_match assignRegex ln = Some m ->
        variables (ctx st) !! sub m 1 = None ->
        step evalExpression evaluateCondition executeFunction i ln st w
        = Exit 1 (add_stderr w ("Error at line " +:+ show_nat (i + 1)
                                +:+ ": Undefined variable: " +:+ sub m 1 +:+ newline)))
  /\ (forall evalExpression evaluateCondition executeFunction i ln m st w,
        String.eqb ln "" = false -> regex_match funRegex ln = None ->
        is_control ln = false ->
        inFunction st = false -> in_skipped_body (ifStack st) = false ->
        regex_match locRegex ln = None -> regex_match inputRegex ln = Some m ->
        sub m 2 = "str" ->
        step evalExpression evaluateCondition executeFunction i ln st w
        = let line := match stdin w with l :: _ => l | [] => "" end in
          Running (with_ctx st (set_variable (ctx st) (sub m 1) (mkVar "str" line)))
                  (mkIO (tail (stdin w)) (stdout w +:+ sub m 3) (stderr w)))
  /\ (forall evalExpression evaluateCondition executeFunction i ln m st w line rest z,
        String.eqb ln "" = false -> regex_match funRegex ln = None ->
        is_control ln = false ->
        inFunction st = false -> in_skipped_body (ifStack st) = false ->
        regex_match locRegex ln = None -> regex_match inputRegex ln = Some m ->
        sub m 2 = "i" -> stdin w = line :: rest -> stoll line = Some z ->
        step evalExpression evaluateCondition executeFunction i ln st w
        = Running (with_ctx st (set_variable (ctx st) (sub m 1) (mkVar "int" line)))
                  (mkIO rest (stdout w +:+ sub m 3) (stderr w))).
Proof.
  split; [|split; [|split]]; intros.
  - now apply step_print_undefined_variable.
  - now apply step_assign_undefined.
  - now apply step_input_str.
  - eapply step_input_int; eassumption.
Qed.

(** The statements in the initial state, where nothing is declared. *)
Lemma undefined_variable_in_print_warns_witness :
  lo_step 0 (print_variable "nosuch") initial (console [])
  = Running initial (add_stderr (console []) ("Undefined variable: nosuch" +:+ newline))
  /\ lo_step 0 "nosuch = 1!" initial (console [])
     = Exit 1 (add_stderr (console [])
                 ("Error at line 1: Undefined variable: nosuch" +:+ newline))
  /\ lo_step 0 (lo "nosuch = input--str-'name: '!") initial (console ["Ada"])
     = Running (with_ctx initial (set_variable (ctx initial) "nosuch" (mkVar "str" "Ada")))
               (mkIO [] "name: " "")
  /\ lo_step 0 (lo "nosuch = input--i-'age: '!") initial (console ["36"])
     = Running (with_ctx initial (set_variable (ctx initial) "nosuch" (mkVar "int" "36")))
               (mkIO [] "age: " "").
Proof.
  split; [|split; [|split]].
  - apply (proj1 undefined_variable_in_print_warns
             (evalExpression_model (0 + 1)) (evaluateCondition_model (0 + 1))
             (executeFunction_model call_depth (0 + 1)) 0%nat "nosuch" initial (console []));
      reflexivity.
  - assert (H := proj1 (proj2 undefined_variable_in_print_warns)
             (evalExpression_model (0 + 1)) (evaluateCondition_model (0 + 1))
             (executeFunction_model call_depth (0 + 1)) 0%nat "nosuch = 1!"
             (<[1%nat := "nosuch"]> (<[2%nat := "1"]> ∅)) initial (console [])).
    repeat (specialize (H ltac:(vm_compute; reflexivity))). exact H.
  - assert (H := proj1 (proj2 (proj2 undefined_variable_in_print_warns))
             (evalExpression_model (0 + 1)) (evaluateCondition_model (0 + 1))
             (executeFunction_model call_depth (0 + 1)) 0%nat
             (lo "nosuch = input--str-'name: '!")
             (<[1%nat := "nosuch"]> (<[2%nat := "str"]> (<[3%nat := "name: "]> ∅)))
             initial (console ["Ada"])).
    repeat (specialize (H ltac:(vm_compute; reflexivity))). exact H.
  - assert (H := proj2 (proj2 (proj2 undefined_variable_in_print_warns))
             (evalExpression_model (0 + 1)) (evaluateCondition_model (0 + 1))
             (executeFunction_model call_depth (0 + 1)) 0%nat
             (lo "nosuch = input--i-'age: '!")
             (<[1%nat := "nosuch"]> (<[2%nat := "i"]> (<[3%nat := "age: "]> ∅)))
             initial (console ["36"]) "36" [] 36).
    repeat (specialize (H ltac:(vm_compute; reflexivity))). exact H.
Defined.

(** C7 as stated fails: print statements are not the only place where an
    undeclared name goes through. The first line names n, which is declared
    nowhere, on the left of an input statement; the run goes on, reads the
    line and prints it, and ends with status 0. The same name on the left of
    an assignment ends the run. *)
Lemma input_to_undeclared_variable_is_not_fatal :
  run ["n = input--str-'name: '!"; "print--n!"] ["Ada"]
  = (0, mkIO [] ("name: Ada" +:+ newline) "")
  /\ run ["n = input--i-'age: '!"; "print--n!"] ["36"]
     = (0, mkIO [] ("age: 36" +:+ newline) "")
  /\ run ["n = 36!"; "print--n!"] []
     = (1, mkIO [] "" ("Error at line 1: Undefined variable: n" +:+ newline)).
Proof. repeat split; vm_compute; reflexivity. Qed.

(** ** Conditional lines *)

Lemma startsWith_inv p ln : startsWith ln p = true -> exists rest, ln = p +:+ rest.
Proof.
  unfold startsWith. revert ln. induction p as [|c p IH]; intros ln H.
  - now exists ln.
  - destruct ln as [|a ln]; [discriminate|]. simpl in H.
    destruct (ascii_dec c a) as [->|]; [|discriminate].
    destruct (IH ln H) as [rest ->]. now exists rest.
Qed.

Lemma if_line_dispatch ln :
  startsWith ln "if-" = true ->
  String.eqb ln "" = false /\ regex_match funRegex ln = None.
Proof.
  intros H. apply startsWith_inv in H as [rest ->].
  split; [reflexivity|]. unfold funRegex. anchored_mismatch.
Qed.

Lemma elif_line_dispatch ln :
  startsWith ln "elif-" = true ->
  String.eqb ln "" = false /\ regex_match funRegex ln = None
  /\ startsWith ln "if-" = false.
Proof.
  intros H. apply startsWith_inv in H as [rest ->].
  split; [reflexivity|]. split; [|reflexivity]. unfold funRegex. anchored_mismatch.
Qed.

Section Conditions.

Variable evalExpression : gmap string Var -> string -> M string.
Variable evaluateCondition : gmap string Var -> string -> string -> string -> M bool.
Variable executeFunction :
  FunctionDef -> list string -> gmap string FunctionDef -> gmap string Var ->
  M (string * Context).

Let step' := step evalExpression evaluateCondition executeFunction.

Lemma step_if i ln m st w :
  inFunction st = false -> startsWith ln "if-" = true ->
  regex_match ifRe ln = Some m ->
  step' i ln st w
  = bind (evaluateCondition (variables (ctx st)) (sub m 1) (sub m 2) (sub m 3))
         (fun res => ret (with_ifStack st (push_result res (ifStack st)))) w.
Proof.
  intros HinF Hif Hm. destruct (if_line_dispatch ln Hif) as [Hne Hfun].
  unfold step', step, conditional. rewrite Hne, HinF, Hfun, Hif, Hm.
  unfold bind. now destruct (evaluateCondition _ _ _ _ w).
Qed.

Lemma step_elif_unmatched i ln m top rest st w :
  inFunction st = false -> startsWith ln "elif-" = true ->
  ifStack st = top :: rest -> matched top = false ->
  regex_match elifRe ln = Some m ->
  step' i ln st w
  = bind (evaluateCondition (variables (ctx st)) (sub m 1) (sub m 2) (sub m 3))
         (fun res => ret (with_ifStack st (push_result res rest))) w.
Proof.
  intros HinF Helif Hstk Htop Hm.
  destruct (elif_line_dispatch ln Helif) as (Hne & Hfun & Hif).
  unfold step', step, conditional. rewrite Hne, HinF, Hfun, Hif, Helif, Hstk, Htop, Hm.
  unfold bind. now destruct (evaluateCondition _ _ _ _ w).
Qed.

Lemma step_elif_matched i ln top rest st w :
  inFunction st = false -> startsWith ln "elif-" = true ->
  ifStack st = top :: rest -> matched top = true ->
  step' i ln st w = Running (with_ifStack st (mkIfState true true :: rest)) w.
Proof.
  intros HinF Helif Hstk Htop.
  destruct (elif_line_dispatch ln Helif) as (Hne & Hfun & Hif).
  unfold step', step, conditional.
  now rewrite Hne, HinF, Hfun, Hif, Helif, Hstk, Htop.
Qed.

End Conditions.

(** C2, as amended: the condition of an if- line is evaluated when the line
    is reached, whatever the frames on the stack say about skipping, and so is
    the condition of an elif- line whose chain has not matched yet: the step
    is the call of evaluateCondition on the three captured fields followed by
    the push of its result. An elif- line whose chain has already matched is
    not evaluated: the step pushes the frame (matched, skipping) without
    calling the evaluator and without looking at the rest of the line. *)
Theorem conditions_are_evaluated_unless_chain_matched :
  (forall evalExpression evaluateCondition executeFunction i ln m st w,
     inFunction st = false -> startsWith ln "if-" = true ->
     regex_match ifRe ln = Some m ->
     step evalExpression evaluateCondition executeFunction i ln st w
     = bind (evaluateCondition (variables (ctx st)) (sub m 1) (sub m 2) (sub m 3))
            (fun res => ret (with_ifStack st (push_result res (ifStack st)))) w)
  /\ (forall evalExpression evaluateCondition executeFunction i ln m top rest st w,
        inFunction st = false -> startsWith ln "elif-" = true ->
        ifStack st = top :: rest -> matched top = false ->
        regex_match elifRe ln = Some m ->
        step evalExpression evaluateCondition executeFunction i ln st w
        = bind (evaluateCondition (variables (ctx st)) (sub m 1) (sub m 2) (sub m 3))
               (fun res => ret (with_ifStack st (push_result res rest))) w)
  /\ (forall evalExpression evaluateCondition executeFunction i ln top rest st w,
        inFunction st = false -> startsWith ln "elif-" = true ->
        ifStack st = top :: rest -> matched top = true ->
        step evalExpression evaluateCondition executeFunction i ln st w
        = Running (with_ifStack st (mkIfState true true :: rest)) w).
Proof.
  split; [|split]; intros.
  - now apply step_if.
  - eapply step_elif_unmatched; eassumption.
  - eapply step_elif_matched; eassumption.
Qed.

(** An if- line under a skipping frame, an elif- line after a branch that did
    not match, and an elif- line after a branch that matched. *)
Lemma conditions_are_evaluated_unless_chain_matched_witness :
  lo_step 1 "if- 2 >> 1 the" (frames [mkIfState false true]) (console [])
  = Running (frames [mkIfState true false; mkIfState false true]) (console [])
  /\ lo_step 1 "elif- 2 >> 1 the" (frames [mkIfState false true]) (console [])
     = Running (frames [mkIfState true false]) (console [])
  /\ lo_step 1 "elif- 2 >> 1 the" (frames [mkIfState true false]) (console [])
     = Running (frames [mkIfState true true]) (console []).
Proof.
  split; [|split].
  - assert (H := proj1 conditions_are_evaluated_unless_chain_matched
             (evalExpression_model (1 + 1)) (evaluateCondition_model (1 + 1))
             (executeFunction_model call_depth (1 + 1)) 1%nat "if- 2 >> 1 the"
             (<[1%nat := "2"]> (<[2%nat := ">>"]> (<[3%nat := "1"]> ∅)))
             (frames [mkIfState false true]) (console [])).
    repeat (specialize (H ltac:(vm_compute; reflexivity))). exact H.
  - assert (H := proj1 (proj2 conditions_are_evaluated_unless_chain_matched)
             (evalExpression_model (1 + 1)) (evaluateCondition_model (1 + 1))
             (executeFunction_model call_depth (1 + 1)) 1%nat "elif- 2 >> 1 the"
             (<[1%nat := "2"]> (<[2%nat := ">>"]> (<[3%nat := "1"]> ∅)))
             (mkIfState false true) [] (frames [mkIfState false true]) (console [])).
    repeat (specialize (H ltac:(vm_compute; reflexivity))). exact H.
  - assert (H := proj2 (proj2 conditions_are_evaluated_unless_chain_matched)
             (evalExpression_model (1 + 1)) (evaluateCondition_model (1 + 1))
             (executeFunction_model call_depth (1 + 1)) 1%nat "elif- 2 >> 1 the"
             (mkIfState true false) [] (frames [mkIfState true false]) (console [])).
    repeat (specialize (H ltac:(vm_compute; reflexivity))). exact H.
Defined.

(** C2 as stated fails: the condition of an elif- line is not evaluated when
    an earlier branch of its chain has matched. With an evaluator that records
    its calls and answers true, the run of if- / elif- / end-- records the
    condition of the if- line only; when it answers false, both are recorded.
    With the evaluator of the spec, evaluating nosuch === 1 ends the run, as
    the last program shows, where the first branch does not match; after a
    branch that matched the same line is passed and the run ends with status 0
    and no diagnostic. *)
Lemma elif_after_match_is_not_evaluated :
  recorded_run true ["if- 1 === 1 the"; "elif- 2 === 2 the"; "end--"]
  = (0, mkIO [] "" ("evaluated 1 === 1" +:+ newline))
  /\ recorded_run false ["if- 1 === 1 the"; "elif- 2 === 2 the"; "end--"]
     = (0, mkIO [] "" ("evaluated 1 === 1" +:+ newline
                       +:+ "evaluated 2 === 2" +:+ newline))
  /\ run ["if- 1 === 1 the"; "elif- nosuch === 1 the"; "end--"] [] = (0, console [])
  /\ run ["if- 1 === 2 the"; "elif- nosuch === 1 the"; "end--"] []
     = (1, mkIO [] "" ("Error at line 2: Undefined variable: nosuch" +:+ newline)).
Proof. repeat split; vm_compute; reflexivity. Qed.

(** ** The end of a run *)

Section Runs.

Variable evalExpression : gmap string Var -> string -> M string.
Variable evaluateCondition : gmap string Var -> string -> string -> string -> M bool.
Variable executeFunction :
  FunctionDef -> list string -> gmap string FunctionDef -> gmap string Var ->
  M (string * Context).

Let step' := step evalExpression evaluateCondition executeFunction.
Let loop' := loop evalExpression evaluateCondition executeFunction.
Let interpret' := interpret evalExpression evaluateCondition executeFunction.
Let main' := main evalExpression evaluateCondition executeFunction.



Lemma main_clean_exit argv0 path more open file w st w' :
  open path = Some file -> interpret' file w = Running st w' ->
  main' (argv0 :: path :: more) open w = (0, w').
Proof.
  intros Hopen Hrun. unfold main', main. rewrite Hopen.
  fold interpret'. now rewrite Hrun.
Qed.

(** While a function is collected every line but the closing one is stored:
    nothing is written, nothing fails and the context stays as it is. *)
Lemma loop_collects i lines st w :
  inFunction st = true -> Forall (fun l => l <> "}") lines ->
  exists st', loop' i lines st w = Running st' w
              /\ inFunction st' = true /\ ctx st' = ctx st
              /\ ifStack st' = ifStack st.
Proof.
  revert i st. induction lines as [|ln lines IH]; intros i st HinF Hall.
  - exists st. now repeat split.
  - apply Forall_cons in Hall as [Hln Hall].
    unfold loop'. rewrite loop_cons. fold loop'. unfold step.
    destruct (String.eqb ln "") eqn:Hempty.
    + apply (IH (S i) st HinF Hall).
    + rewrite HinF. destruct (String.eqb ln "}") eqn:Hclose.
      { apply String.eqb_eq in Hclose. contradiction. }
      destruct (IH (S i) (collect_line st ln) eq_refl Hall)
        as (st' & Hrun & HinF' & Hctx & Hstk).
      exists st'. now repeat split.
Qed.

Lemma main_unclosed_function argv0 path more open file pre header m lines w st w1 :
  open path = Some file -> map trim file = (pre ++ header :: lines)%list ->
  loop' 0 pre initial w = Running st w1 ->
  inFunction st = false -> regex_match funRegex header = Some m ->
  Forall (fun l => l <> "}") lines ->
  main' (argv0 :: path :: more) open w = (0, w1)
  /\ exists st', interpret' file w = Running st' w1
                 /\ inFunction st' = true
                 /\ functions (ctx st') = functions (ctx st).
Proof.
  intros Hopen Hfile Hpre HinF Hm Hall.
  assert (String.eqb header "" = false) as Hne.
  { destruct header; [discriminate Hm | reflexivity]. }
  assert (exists st', interpret' file w = Running st' w1
                      /\ inFunction st' = true
                      /\ functions (ctx st') = functions (ctx st))
    as (st' & Hrun & HinF' & Hfun).
  { unfold interpret', interpret. rewrite Hfile.
    unfold loop' in Hpre. rewrite loop_app, Hpre, loop_cons.
    unfold step. rewrite Hne, HinF, Hm. simpl.
    destruct (loop_collects (S (List.length pre)) lines (open_function st m) w1
                eq_refl Hall) as (st' & Hrun & HinF' & Hctx & _).
    exists st'. unfold loop' in Hrun. rewrite Hrun, Hctx. now repeat split. }
  split; [|now exists st'].
  now apply (main_clean_exit argv0 path more open file w st' w1).
Qed.

End Runs.




(** C10: the end of the input inside a function definition or inside a
    conditional is no error. When the program ends after a function header
    and body lines, none of which is the closing line, the run ends with
    status 0, what has been written is what was written before the header,
    and the function table is the one from before the header: the function
    being collected is not in it unless an earlier definition put its name
    there. And whenever the end of the program is reached with frames left on
    the stack, or in collection mode, the status is 0 and nothing is added to
    the streams. *)
Theorem unterminated_blocks_exit_cleanly :
  (forall evalExpression evaluateCondition executeFunction
          argv0 path more open file pre header m lines w st w1,
     open path = Some file -> map trim file = (pre ++ header :: lines)%list ->
     loop evalExpression evaluateCondition executeFunction 0 pre initial w
     = Running st w1 ->
     inFunction st = false -> regex_match funRegex header = Some m ->
     Forall (fun l => l <> "}") lines ->
     main evalExpression evaluateCondition executeFunction (argv0 :: path :: more) open w
     = (0, w1)
     /\ exists st',
          interpret evalExpression evaluateCondition executeFunction file w
          = Running st' w1
          /\ inFunction st' = true
          /\ functions (ctx st') = functions (ctx st))
  /\ (forall evalExpression evaluateCondition executeFunction
             argv0 path more open file w st w',
        open path = Some file ->
        interpret evalExpression evaluateCondition executeFunction file w
        = Running st w' ->
        inFunction st = true \/ ifStack st <> [] ->
        main evalExpression evaluateCondition executeFunction (argv0 :: path :: more) open w
        = (0, w')).
Proof.
  split.
  - intros. eapply main_unclosed_function; eassumption.
  - intros. eapply main_clean_exit; eassumption.
Qed.

(** A program that ends inside the body of f, and one that ends inside a
    conditional. *)
Lemma unterminated_blocks_exit_cleanly_witness :
  let st := mkDriver (mkContext ∅ (<[ "b" := mkVar "bool" "true" ]> ∅))
                     false (mkFunctionDef "" [] []) "" [] in
  let w1 := mkIO [] ("true" +:+ newline) "" in
  (lo_main_at 1 ["lomake"; "p.lo"]
           (one_file ["loc b = bool(1)!"; "print--b!"; "funS int f():{"; "return 1!"])
           (console [])
   = (0, w1)
   /\ exists st',
        lo_interpret_at 1 ["loc b = bool(1)!"; "print--b!"; "funS int f():{"; "return 1!"]
                     (console [])
        = Running st' w1
        /\ inFunction st' = true
        /\ functions (ctx st') = functions (ctx st))
  /\ lo_main_at 1 ["lomake"; "p.lo"]
             (one_file ["loc b = bool(1)!"; "if- 1 === 1 the"; "print--b!"]) (console [])
     = (0, w1).
Proof.
  intros st w1. split.
  - assert (H := proj1 unterminated_blocks_exit_cleanly
             (evalExpression_model 1) (evaluateCondition_model 1)
             (executeFunction_model call_depth 1) "lomake" "p.lo" []
             (one_file ["loc b = bool(1)!"; "print--b!"; "funS int f():{"; "return 1!"])
             ["loc b = bool(1)!"; "print--b!"; "funS int f():{"; "return 1!"]
             ["loc b = bool(1)!"; "print--b!"] "funS int f():{"
             (<[1%nat := "int"]> (<[2%nat := "f"]> (<[3%nat := ""]> ∅)))
             ["return 1!"] (console []) st w1).
    repeat (specialize (H ltac:(vm_compute; reflexivity))).
    apply H. repeat constructor. discriminate.
  - assert (H := proj2 unterminated_blocks_exit_cleanly
             (evalExpression_model 1) (evaluateCondition_model 1)
             (executeFunction_model call_depth 1) "lomake" "p.lo" []
             (one_file ["loc b = bool(1)!"; "if- 1 === 1 the"; "print--b!"])
             ["loc b = bool(1)!"; "if- 1 === 1 the"; "print--b!"] (console [])
             (with_ifStack st [mkIfState true false]) w1).
    repeat (specialize (H ltac:(vm_compute; reflexivity))).
    apply H. right. discriminate.
Defined.

(** ** Chains of branches *)

Lemma body_line_inv ln :
  body_line ln = true -> regex_match funRegex ln = None /\ is_control ln = false.
Proof.
  unfold body_line, is_function_header. intros H.
  apply andb_true_iff in H as [Hfun Hctl]. apply negb_true_iff in Hctl.
  destruct (regex_match funRegex ln); [discriminate|]. now split.
Qed.

Lemma body_line_not_elif ln : body_line ln = true -> startsWith ln "elif-" = false.
Proof.
  intros H. apply body_line_inv in H as [_ H]. unfold is_control in H.
  apply orb_false_iff in H as [H _]. now apply orb_false_iff in H as [_ H].
Qed.

Lemma flat_line_cases ln :
  flat_line ln = true -> body_line ln = true \/ startsWith ln "elif-" = true.
Proof. unfold flat_line. intros H. now apply orb_true_iff in H. Qed.

Section Chains.

Variable evalExpression : gmap string Var -> string -> M string.
Variable evaluateCondition : gmap string Var -> string -> string -> string -> M bool.
Variable executeFunction :
  FunctionDef -> list string -> gmap string FunctionDef -> gmap string Var ->
  M (string * Context).

Let step' := step evalExpression evaluateCondition executeFunction.
Let loop' := loop evalExpression evaluateCondition executeFunction.

(** A body line leaves the stack of frames and the collection mode alone. *)
Lemma step_body_line i ln st w st' w' :
  body_line ln = true -> inFunction st = false ->
  step' i ln st w = Running st' w' ->
  inFunction st' = false /\ ifStack st' = ifStack st.
Proof.
  intros Hbody HinF H. apply body_line_inv in Hbody as [Hfun Hctl].
  unfold step', step in H. rewrite HinF, Hfun in H.
  destruct (String.eqb ln "").
  { inversion H; subst. now split. }
  unfold is_control in Hctl. apply orb_false_iff in Hctl as [Hctl Hend].
  apply orb_false_iff in Hctl as [Hif Helif].
  unfold conditional in H. rewrite Hif, Helif, Hend in H.
  destruct (in_skipped_body (ifStack st)).
  { inversion H; subst. now split. }
  apply bind_inv in H as (c & w1 & _ & H). inversion H; subst. now split.
Qed.

(** The frame an if- line pushes is coherent. *)
Lemma step_if_line i ln st w st' w' :
  startsWith ln "if-" = true -> inFunction st = false ->
  step' i ln st w = Running st' w' ->
  inFunction st' = false
  /\ exists top, ifStack st' = top :: ifStack st /\ coherent top = true.
Proof.
  intros Hif HinF H. destruct (if_line_dispatch ln Hif) as [Hne Hfun].
  unfold step', step, conditional in H. rewrite Hne, HinF, Hfun, Hif in H.
  destruct (regex_match ifRe ln).
  - apply bind_inv in H as (stk & w1 & Hc & H). inversion H; subst.
    apply bind_inv in Hc as (res & w2 & _ & Hc). inversion Hc; subst.
    split; [assumption|]. eexists. split; [reflexivity|].
    unfold coherent. simpl. now destruct res.
  - apply bind_inv in H as (stk & w1 & Hc & _).
    now apply errorAndExit_not_running in Hc.
Qed.

(** An elif- line replaces the top frame by a coherent one, and by the frame
    (matched, skipping) when the chain has matched. *)
Lemma step_elif_line i ln top rest st w st' w' :
  startsWith ln "elif-" = true -> inFunction st = false ->
  ifStack st = top :: rest ->
  step' i ln st w = Running st' w' ->
  inFunction st' = false
  /\ exists top', ifStack st' = top' :: rest /\ coherent top' = true
                  /\ (matched top = true -> top' = mkIfState true true).
Proof.
  intros Helif HinF Hstk H. destruct (matched top) eqn:Htop.
  - unfold step' in H. rewrite (step_elif_matched _ _ _ i ln top rest) in H by assumption.
    inversion H; subst. split; [assumption|]. eexists. now repeat split.
  - destruct (elif_line_dispatch ln Helif) as (Hne & Hfun & Hif).
    unfold step', step, conditional in H.
    rewrite Hne, HinF, Hfun, Hif, Helif, Hstk, Htop in H.
    destruct (regex_match elifRe ln).
    + apply bind_inv in H as (stk & w1 & Hc & H). inversion H; subst.
      apply bind_inv in Hc as (res & w2 & _ & Hc). inversion Hc; subst.
      split; [assumption|]. eexists. split; [reflexivity|].
      split; [|discriminate]. unfold coherent. simpl. now destruct res.
    + apply bind_inv in H as (stk & w1 & Hc & _).
      now apply errorAndExit_not_running in Hc.
Qed.

Lemma loop_flat_coherent lines : forall i st w st' w' top rest,
  Forall (fun ln => flat_line ln = true) lines ->
  inFunction st = false -> ifStack st = top :: rest -> coherent top = true ->
  loop' i lines st w = Running st' w' ->
  inFunction st' = false
  /\ exists top', ifStack st' = top' :: rest /\ coherent top' = true.
Proof.
  induction lines as [|ln lines IH]; intros i st w st' w' top rest Hall HinF Hstk Hco H.
  - inversion H; subst. eauto.
  - apply Forall_cons in Hall as [Hln Hall].
    unfold loop' in H. rewrite loop_cons in H.
    destruct (step _ _ _ i ln st w) as [st1 w1|] eqn:Hstep; [|discriminate].
    destruct (flat_line_cases ln Hln) as [Hbody|Helif].
    + destruct (step_body_line _ _ _ _ _ _ Hbody HinF Hstep) as [HinF1 Hstk1].
      rewrite Hstk in Hstk1. exact (IH _ _ _ _ _ _ _ Hall HinF1 Hstk1 Hco H).
    + destruct (step_elif_line _ _ _ _ _ _ _ _ Helif HinF Hstk Hstep)
        as (HinF1 & top1 & Hstk1 & Hco1 & _).
      exact (IH _ _ _ _ _ _ _ Hall HinF1 Hstk1 Hco1 H).
Qed.






Lemma scan_cons inF depth ln rest :
  scan inF depth (ln :: rest)
  = if String.eqb ln "" then scan inF depth rest
    else if inF then scan (negb (String.eqb ln "}")) depth rest
    else if is_function_header ln then scan true depth rest
    else if startsWith ln "if-" then scan false (S depth) rest
    else if startsWith ln "elif-" then scan false depth rest
    else if String.eqb ln "end--" then
      match depth with
      | O => None
      | S depth' => scan false depth' rest
      end
    else scan false depth rest.
Proof. reflexivity. Qed.

Lemma own_elifs_cons inF depth ln rest :
  own_elifs inF depth (ln :: rest)
  = if String.eqb ln "" then own_elifs inF depth rest
    else if inF then own_elifs (negb (String.eqb ln "}")) depth rest
    else if is_function_header ln then own_elifs true depth rest
    else if startsWith ln "if-" then own_elifs false (S depth) rest
    else if startsWith ln "elif-" then
      match depth with
      | O => ln :: own_elifs false depth rest
      | S _ => own_elifs false depth rest
      end
    else if String.eqb ln "end--" then
      match depth with
      | O => []
      | S depth' => own_elifs false depth' rest
      end
    else own_elifs false depth rest.
Proof. reflexivity. Qed.



End Chains.

(** In lines without nesting (statement lines, empty lines and elif- lines
    only) every line is a line of the chain itself and every elif- line is one
    of its own. *)
Lemma scan_flat lines :
  Forall (fun ln => flat_line ln = true) lines ->
  scan false 0 lines = Some (false, 0%nat)
  /\ (own_elifs false 0 lines = []
      <-> Forall (fun ln => startsWith ln "elif-" = false) lines).
Proof.
  induction 1 as [|ln lines Hln _ [IHs IHe]]; [now split|].
  rewrite scan_cons, own_elifs_cons.
  destruct (String.eqb ln "") eqn:Hne.
  { apply String.eqb_eq in Hne. subst ln. split; [assumption|].
    rewrite IHe. split; [now constructor | now intros [_ ?]%Forall_cons]. }
  destruct (flat_line_cases ln Hln) as [Hbody|Helif].
  - pose proof (body_line_not_elif ln Hbody) as Helif.
    apply body_line_inv in Hbody as [Hfun Hctl].
    unfold is_control in Hctl. apply orb_false_iff in Hctl as [Hctl Hend].
    apply orb_false_iff in Hctl as [Hif _].
    unfold is_function_header. rewrite Hfun, Hif, Helif, Hend.
    split; [assumption|].
    rewrite IHe. split; [now constructor | now intros [_ ?]%Forall_cons].
  - destruct (elif_line_dispatch ln Helif) as (_ & Hfun & Hif).
    unfold is_function_header. rewrite Hfun, Hif, Helif.
    split; [assumption|]. split; [discriminate|].
    intros [Hno _]%Forall_cons. congruence.
Qed.




(** * Further properties of the driver *)

(** ** Prefixes and quotes *)

(** X1 (startsWith): [startsWith s p] holds exactly when [s] is [p] followed
    by some text. *)
Theorem startsWith_iff_prefix s p :
  startsWith s p = true <-> exists rest, s = p +:+ rest.
Proof.
  split; [apply startsWith_inv|].
  intros [rest ->]. unfold startsWith. induction p as [|c p IH]; simpl.
  - now destruct rest.
  - destruct (ascii_dec c c); [exact IH | congruence].
Qed.

Lemma substring_all s : String.substring 0 (String.length s) s = s.
Proof. induction s as [|c s IH]; [reflexivity|]. simpl. now rewrite IH. Qed.

Lemma substring_drop_last s c :
  String.substring 0 (String.length s) (s +:+ String c "") = s.
Proof.
  induction s as [|a s IH]; [reflexivity|]. rewrite append_cons. simpl. now rewrite IH.
Qed.

Lemma length_append a b :
  String.length (a +:+ b) = (String.length a + String.length b)%nat.
Proof.
  induction a as [|c a IH]; [reflexivity|]. rewrite append_cons. simpl. now rewrite IH.
Qed.

Lemma get_last s c : String.get (String.length s) (s +:+ String c "") = Some c.
Proof.
  induction s as [|a s IH]; [reflexivity|]. rewrite append_cons. simpl. exact IH.
Qed.

Lemma quoted_quote s : quoted (quote s) = true.
Proof.
  unfold quoted, quote. simpl String.length. rewrite length_append. simpl String.length.
  replace (S (String.length s + 1) - 1)%nat with (S (String.length s)) by lia.
  simpl String.get. rewrite get_last.
  rewrite !Ascii.eqb_refl. simpl.
  destruct (String.length s + 1)%nat eqn:E; [lia | reflexivity].
Qed.

Lemma unquote_quote_text s : unquote (quote s) = s.
Proof.
  unfold unquote. rewrite quoted_quote. unfold quote.
  simpl String.length. rewrite length_append. simpl String.length.
  replace (S (String.length s + 1) - 2)%nat with (String.length s) by lia.
  simpl. apply substring_drop_last.
Qed.

(** X2 (processLoc, processAssign): removing one layer of quotes undoes
    putting a text between quotes, whatever the text is (quotes inside it
    stay); a text that is a single quote character is left as it is. *)
Theorem unquote_quote s :
  unquote (quote s) = s /\ unquote (String dquote "") = String dquote "".
Proof. split; [apply unquote_quote_text | reflexivity]. Qed.

(** The prefix if- of the line "if- x >> 1 the". *)
Lemma startsWith_iff_prefix_witness :
  startsWith "if- x >> 1 the" "if-" = true
  /\ exists rest, "if- x >> 1 the" = "if-" +:+ rest.
Proof.
  split; [reflexivity|].
  apply (proj1 (startsWith_iff_prefix "if- x >> 1 the" "if-")). reflexivity.
Defined.

(** ** What the handlers keep *)

Section Handlers.

Variable evalExpression : gmap string Var -> string -> M string.

Lemma bools_canonical_set c name v :
  bools_canonical (variables c) ->
  (type v = "bool" -> value v = "true" \/ value v = "false") ->
  bools_canonical (variables (set_variable c name v)).
Proof.
  intros Hc Hv n u Hn Hty. rewrite lookup_set_variable in Hn.
  destruct (decide (name = n)).
  - inversion Hn; subst. now apply Hv.
  - now apply (Hc n u).
Qed.

Lemma processLoc_bools c m lineno w c' w' :
  bools_canonical (variables c) ->
  processLoc evalExpression c m lineno w = Running c' w' ->
  bools_canonical (variables c').
Proof.
  unfold processLoc. intros Hc H.
  destruct (String.eqb (sub m 2) "str").
  { inversion H; subst. apply bools_canonical_set; [assumption | discriminate]. }
  destruct (String.eqb (sub m 2) "int").
  { apply bind_inv in H as (val & w1 & _ & H). inversion H; subst.
    apply bools_canonical_set; [assumption | discriminate]. }
  destruct (String.eqb (sub m 2) "bool").
  { destruct (_ || _).
    { inversion H; subst. apply bools_canonical_set; [assumption | now left]. }
    destruct (_ || _).
    { inversion H; subst. apply bools_canonical_set; [assumption | now right]. }
    now apply errorAndExit_not_running in H. }
  destruct (String.eqb (sub m 2) "arr").
  { inversion H; subst. apply bools_canonical_set; [assumption | discriminate]. }
  now apply errorAndExit_not_running in H.
Qed.

Lemma processAssign_bools c m lineno w c' w' :
  bools_canonical (variables c) ->
  processAssign evalExpression c m lineno w = Running c' w' ->
  bools_canonical (variables c').
Proof.
  unfold processAssign. intros Hc H.
  destruct (variables c !! sub m 1) as [var|] eqn:Hvar.
  2: { now apply errorAndExit_not_running in H. }
  destruct (String.eqb (type var) "int") eqn:Eint.
  { apply String.eqb_eq in Eint.
    apply bind_inv in H as (val & w1 & _ & H). inversion H; subst.
    apply bools_canonical_set; [assumption|]. simpl. rewrite Eint. discriminate. }
  destruct (String.eqb (type var) "bool") eqn:Ebool.
  { destruct (_ || _).
    { inversion H; subst. apply bools_canonical_set; [assumption | now left]. }
    destruct (_ || _).
    { inversion H; subst. apply bools_canonical_set; [assumption | now right]. }
    now apply errorAndExit_not_running in H. }
  inversion H; subst. apply bools_canonical_set; [assumption|]. simpl.
  intros Hty. rewrite Hty in Ebool. discriminate.
Qed.

Lemma processInput_bools c m lineno w c' w' :
  bools_canonical (variables c) ->
  processInput c m lineno w = Running c' w' ->
  bools_canonical (variables c').
Proof.
  intros Hc H. apply processInput_running in H as (line & ->).
  apply bools_canonical_set; [assumption|]. simpl.
  destruct (String.eqb _ _); discriminate.
Qed.

(** X3 (processLoc, processAssign, processInput): the three handlers that
    write variables keep the table canonical for booleans: when every variable
    of type bool holds true or false before a declaration, an assignment or an
    input statement, then so does every variable of type bool afterwards,
    whatever the evaluator of expressions returns. *)
Theorem handlers_keep_bools_canonical c m lineno w c' w' :
  bools_canonical (variables c) ->
  processLoc evalExpression c m lineno w = Running c' w'
  \/ processAssign evalExpression c m lineno w = Running c' w'
  \/ processInput c m lineno w = Running c' w' ->
  bools_canonical (variables c').
Proof.
  intros Hc [H|[H|H]].
  - now apply (processLoc_bools c m lineno w c' w').
  - now apply (processAssign_bools c m lineno w c' w').
  - now apply (processInput_bools c m lineno w c' w').
Qed.

(** X4 (processLoc, processAssign, processInput): no handler removes a
    variable: a name that is declared before a declaration, an assignment or
    an input statement is declared after it, and a name that is declared
    afterwards was declared before or is the name the statement writes. *)
Theorem handlers_never_undeclare c m lineno w c' w' :
  processLoc evalExpression c m lineno w = Running c' w'
  \/ processAssign evalExpression c m lineno w = Running c' w'
  \/ processInput c m lineno w = Running c' w' ->
  forall n, (is_Some (variables c !! n) -> is_Some (variables c' !! n))
            /\ (is_Some (variables c' !! n) ->
                is_Some (variables c !! n) \/ n = sub m 1).
Proof.
  intros H n.
  assert (exists v, c' = set_variable c (sub m 1) v) as [v ->].
  { destruct H as [H|[H|H]].
    - apply processLoc_running in H as (val & ->). eauto.
    - apply processAssign_running in H as (var & val & _ & ->). eauto.
    - apply processInput_running in H as (line & ->). eauto. }
  rewrite lookup_set_variable. destruct (decide (sub m 1 = n)) as [<-|Hne].
  - split; [eauto | now right].
  - split; [tauto | now left].
Qed.

End Handlers.

(** The declaration "loc ok = bool(1)!" where b is a bool. *)
Lemma handlers_keep_bools_canonical_witness :
  let c := mkContext ∅ (<["b" := mkVar "bool" "false"]> ∅) in
  let m := <[1%nat := "ok"]> (<[2%nat := "bool"]> (<[3%nat := "1"]> ∅)) in
  let c' := set_variable c "ok" (mkVar "bool" "true") in
  bools_canonical (variables c)
  /\ processLoc (evalExpression_model 1) c m 1 (console []) = Running c' (console [])
  /\ bools_canonical (variables c').
Proof.
  intros c m c'.
  assert (bools_canonical (variables c)) as Hc.
  { intros n v Hn _. subst c. simpl in Hn.
    apply lookup_insert_Some in Hn as [[_ <-]|[_ Hn]]; [now right|].
    rewrite lookup_empty in Hn. discriminate Hn. }
  assert (processLoc (evalExpression_model 1) c m 1 (console []) = Running c' (console []))
    as Hrun by (vm_compute; reflexivity).
  split; [exact Hc|]. split; [exact Hrun|].
  exact (handlers_keep_bools_canonical (evalExpression_model 1) c m 1%nat (console [])
           c' (console []) Hc (or_introl Hrun)).
Defined.

(** The input statement "n = input-- i- Qn: Q!" with 7 typed, where x is
    declared. *)
Lemma handlers_never_undeclare_witness :
  let c := mkContext ∅ (<["x" := mkVar "str" "a"]> ∅) in
  let m := <[1%nat := "n"]> (<[2%nat := "i"]> (<[3%nat := "n: "]> ∅)) in
  let c' := set_variable c "n" (mkVar "int" "7") in
  processInput c m 1 (console ["7"]) = Running c' (mkIO [] "n: " "")
  /\ forall n, (is_Some (variables c !! n) -> is_Some (variables c' !! n))
               /\ (is_Some (variables c' !! n) ->
                   is_Some (variables c !! n) \/ n = sub m 1).
Proof.
  intros c m c'.
  assert (processInput c m 1 (console ["7"]) = Running c' (mkIO [] "n: " ""))
    as Hrun by (vm_compute; reflexivity).
  split; [exact Hrun|].
  exact (handlers_never_undeclare (evalExpression_model 1) c m 1%nat (console ["7"])
           c' (mkIO [] "n: " "") (or_intror (or_intror Hrun))).
Defined.

(** ** The stack of frames *)

Section Frames.

Variable evalExpression : gmap string Var -> string -> M string.
Variable evaluateCondition : gmap string Var -> string -> string -> string -> M bool.
Variable executeFunction :
  FunctionDef -> list string -> gmap string FunctionDef -> gmap string Var ->
  M (string * Context).

Lemma conditional_coherent vars stk lineno ln act w stk' w' :
  conditional evaluateCondition vars stk lineno ln = Some act ->
  act w = Running stk' w' ->
  frames_coherent stk -> frames_coherent stk'.
Proof.
  unfold conditional, frames_coherent. intros Hc Hact Hstk.
  destruct (startsWith ln "if-").
  { inversion Hc; subst; clear Hc. destruct (regex_match ifRe ln).
    - apply bind_inv in Hact as (res & w1 & _ & H). inversion H; subst.
      constructor; [|assumption]. unfold coherent. simpl. now destruct res.
    - now apply errorAndExit_not_running in Hact. }
  destruct (startsWith ln "elif-").
  { inversion Hc; subst; clear Hc. destruct stk as [|top rest].
    { now apply errorAndExit_not_running in Hact. }
    apply Forall_cons in Hstk as [_ Hrest].
    destruct (matched top).
    { inversion Hact; subst. now constructor. }
    destruct (regex_match elifRe ln).
    - apply bind_inv in Hact as (res & w1 & _ & H). inversion H; subst.
      constructor; [|assumption]. unfold coherent. simpl. now destruct res.
    - now apply errorAndExit_not_running in Hact. }
  destruct (String.eqb ln "end--"); [|discriminate].
  inversion Hc; subst; clear Hc. destruct stk as [|top rest].
  { now apply errorAndExit_not_running in Hact. }
  inversion Hact; subst. now apply Forall_cons in Hstk as [_ Hrest].
Qed.

Lemma step_coherent i ln st w st' w' :
  step evalExpression evaluateCondition executeFunction i ln st w = Running st' w' ->
  frames_coherent (ifStack st) -> frames_coherent (ifStack st').
Proof.
  unfold step. intros H Hstk.
  destruct (String.eqb ln ""); [inversion H; now subst|].
  destruct (inFunction st).
  { destruct (String.eqb ln "}"); inversion H; now subst. }
  destruct (regex_match funRegex ln); [inversion H; now subst|].
  destruct (conditional _ _ _ _ _) as [act|] eqn:Hc.
  { apply bind_inv in H as (stk & w1 & Hact & H). inversion H; subst. simpl.
    exact (conditional_coherent _ _ _ _ _ _ _ _ Hc Hact Hstk). }
  destruct (in_skipped_body _); [inversion H; now subst|].
  apply bind_inv in H as (c & w1 & _ & H). inversion H; now subst.
Qed.

(** X5 (main): the frames on the stack are coherent throughout a run. A
    frame with matched false and skipping false, which would let the body of a
    branch run and a later elif- of the chain run as well, is never on the
    stack: if no such frame is on the stack before a sequence of lines, none
    is after it, and the run starts with the empty stack. *)
Theorem frames_stay_coherent lines i st w st' w' :
  frames_coherent (ifStack st) ->
  loop evalExpression evaluateCondition executeFunction i lines st w = Running st' w' ->
  frames_coherent (ifStack st')
  /\ Forall (fun f => (matched f, skipping f) <> (false, false)) (ifStack st').
Proof.
  intros Hstk H.
  assert (frames_coherent (ifStack st')) as Hco.
  { revert i st w Hstk H. induction lines as [|ln lines IH]; intros i st w Hstk H.
    - inversion H; now subst.
    - rewrite loop_cons in H.
      destruct (step _ _ _ i ln st w) as [st1 w1|] eqn:Hstep; [|discriminate].
      exact (IH _ _ _ (step_coherent _ _ _ _ _ _ Hstep Hstk) H). }
  split; [exact Hco|].
  eapply Forall_impl; [exact Hco|]. intros f Hf. unfold coherent in Hf.
  destruct (matched f), (skipping f); simpl in Hf; congruence.
Qed.

Lemma step_control i ln st w act :
  inFunction st = false -> String.eqb ln "" = false ->
  regex_match funRegex ln = None ->
  conditional evaluateCondition (variables (ctx st)) (ifStack st) (i + 1) ln = Some act ->
  step evalExpression evaluateCondition executeFunction i ln st w
  = bind act (fun stk => ret (with_ifStack st stk)) w.
Proof.
  intros HinF Hne Hfun Hc. unfold step. now rewrite Hne, HinF, Hfun, Hc.
Qed.

Lemma end_line_dispatch :
  String.eqb "end--" "" = false /\ regex_match funRegex "end--" = None
  /\ startsWith "end--" "if-" = false /\ startsWith "end--" "elif-" = false.
Proof. repeat split; vm_compute; reflexivity. Qed.

Lemma step_end i st w :
  inFunction st = false ->
  step evalExpression evaluateCondition executeFunction i "end--" st w
  = match ifStack st with
    | [] => Exit 1 (add_stderr w ("Error at line " +:+ show_nat (i + 1)
                                  +:+ ": end-- without if" +:+ newline))
    | _ :: rest => Running (with_ifStack st rest) w
    end.
Proof.
  intros HinF. unfold step, conditional. rewrite HinF.
  change (String.eqb "end--" "") with false.
  change (regex_match funRegex "end--") with (@None smatch).
  change (startsWith "end--" "if-") with false.
  change (startsWith "end--" "elif-") with false.
  change (String.eqb "end--" "end--") with true. cbv iota.
  now destruct (ifStack st).
Qed.

(** X6 (main): the errors of the conditional lines. Outside the collection
    of a function body, an elif- line on the empty stack ends the run with
    "elif without if", end-- on the empty stack with "end-- without if", an
    if- line that is not of the form if- A OP B the with "Malformed if
    condition", and an elif- line that is not of that form with "Malformed
    elif" when the chain has not matched; each with status 1 and the number of
    the line, and whatever the text of the line is otherwise. *)
Theorem conditional_line_errors i ln st w :
  inFunction st = false ->
  (startsWith ln "elif-" = true -> ifStack st = [] ->
   step evalExpression evaluateCondition executeFunction i ln st w
   = Exit 1 (add_stderr w ("Error at line " +:+ show_nat (i + 1)
                           +:+ ": elif without if" +:+ newline)))
  /\ (ifStack st = [] ->
      step evalExpression evaluateCondition executeFunction i "end--" st w
      = Exit 1 (add_stderr w ("Error at line " +:+ show_nat (i + 1)
                              +:+ ": end-- without if" +:+ newline)))
  /\ (startsWith ln "if-" = true -> regex_match ifRe ln = None ->
      step evalExpression evaluateCondition executeFunction i ln st w
      = Exit 1 (add_stderr w ("Error at line " +:+ show_nat (i + 1)
                              +:+ ": Malformed if condition" +:+ newline)))
  /\ (forall top rest,
        startsWith ln "elif-" = true -> ifStack st = top :: rest ->
        matched top = false -> regex_match elifRe ln = None ->
        step evalExpression evaluateCondition executeFunction i ln st w
        = Exit 1 (add_stderr w ("Error at line " +:+ show_nat (i + 1)
                                +:+ ": Malformed elif" +:+ newline))).
Proof.
  intros HinF. split; [|split; [|split]].
  - intros Helif Hstk. destruct (elif_line_dispatch ln Helif) as (Hne & Hfun & Hif).
    unfold step, conditional. now rewrite Hne, HinF, Hfun, Hif, Helif, Hstk.
  - intros Hstk. rewrite step_end by assumption. now rewrite Hstk.
  - intros Hif Hre. destruct (if_line_dispatch ln Hif) as (Hne & Hfun).
    unfold step, conditional. now rewrite Hne, HinF, Hfun, Hif, Hre.
  - intros top rest Helif Hstk Htop Hre.
    destruct (elif_line_dispatch ln Helif) as (Hne & Hfun & Hif).
    unfold step, conditional. now rewrite Hne, HinF, Hfun, Hif, Helif, Hstk, Htop, Hre.
Qed.

(** X7 (main): a chain leaves the stack as it found it. After an if- line,
    any number of statement lines, empty lines and elif- lines, and the line
    end--, the stack of frames is the one from before the if- line and the
    driver is still at top level, whichever branch ran. *)
Theorem chain_restores_stack i hd lines st w st' w' :
  inFunction st = false -> startsWith hd "if-" = true ->
  Forall (fun ln => flat_line ln = true) lines ->
  loop evalExpression evaluateCondition executeFunction i
       (hd :: lines ++ ["end--"]) st w = Running st' w' ->
  ifStack st' = ifStack st /\ inFunction st' = false.
Proof.
  intros HinF Hif Hall H.
  change (hd :: lines ++ ["end--"])%list with ((hd :: lines) ++ ["end--"])%list in H.
  rewrite loop_app in H.
  destruct (loop _ _ _ i (hd :: lines) st w) as [s1 w1|] eqn:H1; [|discriminate].
  rewrite loop_cons in H1.
  destruct (step _ _ _ i hd st w) as [s0 w0|] eqn:Hhd; [|discriminate].
  destruct (step_if_line _ _ _ _ _ _ _ _ _ Hif HinF Hhd) as (HinF0 & top0 & Hstk0 & Hco0).
  destruct (loop_flat_coherent _ _ _ _ _ _ _ _ _ _ _ Hall HinF0 Hstk0 Hco0 H1)
    as (HinF1 & top1 & Hstk1 & _).
  rewrite loop_cons, step_end in H by assumption. rewrite Hstk1 in H.
  inversion H; subst. now split.
Qed.

Lemma step_skipped i ln st w :
  inFunction st = false -> in_skipped_body (ifStack st) = true ->
  body_line ln = true ->
  step evalExpression evaluateCondition executeFunction i ln st w = Running st w.
Proof.
  intros HinF Hskip Hbody. apply body_line_inv in Hbody as [Hfun Hctl].
  unfold step. rewrite HinF, Hfun. destruct (String.eqb ln ""); [reflexivity|].
  unfold is_control in Hctl. apply orb_false_iff in Hctl as [Hctl Hend].
  apply orb_false_iff in Hctl as [Hif Helif].
  unfold conditional. now rewrite Hif, Helif, Hend, Hskip.
Qed.

(** X8 (main): the lines of a skipped body have no effect. When the
    innermost frame is skipping, a sequence of lines none of which is a
    function header or an if-, elif- or end-- line leaves the whole state and
    the three streams as they are: nothing is declared, read, printed or
    reported, not even for lines that match no statement form. *)
Theorem skipped_lines_have_no_effect lines i st w :
  inFunction st = false -> in_skipped_body (ifStack st) = true ->
  Forall (fun ln => body_line ln = true) lines ->
  loop evalExpression evaluateCondition executeFunction i lines st w = Running st w.
Proof.
  intros HinF Hskip Hall. revert i.
  induction Hall as [|ln lines Hln _ IH]; intros i; [reflexivity|].
  rewrite loop_cons, step_skipped by assumption. apply IH.
Qed.

End Frames.

(** The lines "if- 1 >> 2 the", "elif- 2 >> 1 the" from the initial state. *)
Lemma frames_stay_coherent_witness :
  let lines := ["if- 1 >> 2 the"; "elif- 2 >> 1 the"] in
  let st' := frames [mkIfState true false] in
  frames_coherent (ifStack initial)
  /\ lo_loop_at 1 0 lines initial (console []) = Running st' (console [])
  /\ frames_coherent (ifStack st')
  /\ Forall (fun f => (matched f, skipping f) <> (false, false)) (ifStack st').
Proof.
  intros lines st'.
  assert (frames_coherent (ifStack initial)) as H0 by constructor.
  assert (lo_loop_at 1 0 lines initial (console []) = Running st' (console []))
    as Hrun by (vm_compute; reflexivity).
  split; [exact H0|]. split; [exact Hrun|].
  exact (frames_stay_coherent (evalExpression_model 1) (evaluateCondition_model 1)
           (executeFunction_model call_depth 1) lines 0%nat initial (console [])
           st' (console []) H0 Hrun).
Defined.

(** The lines "elif- x", "end--" and "if- x" with no frame, and "elif- x"
    under a frame that has not matched. *)
Lemma conditional_line_errors_witness :
  let st := frames [mkIfState false true] in
  lo_step 4 "elif- x" initial (console [])
  = Exit 1 (mkIO [] "" ("Error at line 5: elif without if" +:+ newline))
  /\ lo_step 4 "end--" initial (console [])
     = Exit 1 (mkIO [] "" ("Error at line 5: end-- without if" +:+ newline))
  /\ lo_step 4 "if- x" initial (console [])
     = Exit 1 (mkIO [] "" ("Error at line 5: Malformed if condition" +:+ newline))
  /\ lo_step 4 "elif- x" st (console [])
     = Exit 1 (mkIO [] "" ("Error at line 5: Malformed elif" +:+ newline)).
Proof.
  intros st.
  pose proof (conditional_line_errors (evalExpression_model (4 + 1)) (evaluateCondition_model (4 + 1))
                (executeFunction_model call_depth (4 + 1)) 4%nat "elif- x" initial (console [])
                eq_refl) as (H1 & H2 & _ & _).
  pose proof (conditional_line_errors (evalExpression_model (4 + 1)) (evaluateCondition_model (4 + 1))
                (executeFunction_model call_depth (4 + 1)) 4%nat "if- x" initial (console [])
                eq_refl) as (_ & _ & H3 & _).
  pose proof (conditional_line_errors (evalExpression_model (4 + 1)) (evaluateCondition_model (4 + 1))
                (executeFunction_model call_depth (4 + 1)) 4%nat "elif- x" st (console [])
                eq_refl) as (_ & _ & _ & H4).
  split; [exact (H1 eq_refl eq_refl)|]. split; [exact (H2 eq_refl)|].
  split; [apply H3; vm_compute; reflexivity|].
  apply (H4 (mkIfState false true) []); vm_compute; reflexivity.
Defined.

(** A chain of two branches, the second of which runs. *)
Lemma chain_restores_stack_witness :
  let lines := [print_literal "a"; "elif- 2 >> 1 the"; print_literal "b"] in
  let w' := mkIO [] ("b" +:+ newline) "" in
  Forall (fun ln => flat_line ln = true) lines
  /\ lo_loop_at 1 0 ("if- 1 >> 2 the" :: lines ++ ["end--"]) initial (console [])
     = Running initial w'
  /\ ifStack initial = ifStack initial /\ inFunction initial = false.
Proof.
  intros lines w'.
  assert (Forall (fun ln => flat_line ln = true) lines) as Hflat
    by (repeat constructor).
  assert (lo_loop_at 1 0 ("if- 1 >> 2 the" :: lines ++ ["end--"]) initial (console [])
          = Running initial w') as Hrun by (vm_compute; reflexivity).
  split; [exact Hflat|]. split; [exact Hrun|].
  exact (chain_restores_stack (evalExpression_model 1) (evaluateCondition_model 1)
           (executeFunction_model call_depth 1) 0%nat "if- 1 >> 2 the" lines
           initial (console []) initial w' eq_refl eq_refl Hflat Hrun).
Defined.

(** A print statement, an assignment to an undeclared name and a line that is
    no statement, in a skipped branch. *)
Lemma skipped_lines_have_no_effect_witness :
  let st := frames [mkIfState false true] in
  let lines := [print_literal "a"; "x = 1!"; "no statement"] in
  Forall (fun ln => body_line ln = true) lines
  /\ lo_loop_at 1 3 lines st (console []) = Running st (console []).
Proof.
  intros st lines.
  assert (Forall (fun ln => body_line ln = true) lines) as Hbody
    by (repeat constructor).
  split; [exact Hbody|].
  exact (skipped_lines_have_no_effect (evalExpression_model 1) (evaluateCondition_model 1)
           (executeFunction_model call_depth 1) lines 3%nat st (console [])
           eq_refl eq_refl Hbody).
Defined.

(** ** Function definitions *)

Lemma collected_nil : collected [] = [].
Proof. reflexivity. Qed.

Lemma collected_cons ln lines :
  collected (ln :: lines)
  = if String.eqb ln "" then collected lines else ln :: collected lines.
Proof.
  unfold collected. destruct (String.eqb ln "") eqn:E.
  - apply String.eqb_eq in E. subst. now rewrite filter_cons_False by (intros H; now apply H).
  - apply String.eqb_neq in E. now rewrite filter_cons_True.
Qed.

Section Definitions.

Variable evalExpression : gmap string Var -> string -> M string.
Variable evaluateCondition : gmap string Var -> string -> string -> string -> M bool.
Variable executeFunction :
  FunctionDef -> list string -> gmap string FunctionDef -> gmap string Var ->
  M (string * Context).

Let loop' := loop evalExpression evaluateCondition executeFunction.

Lemma loop_collecting lines : forall i c stk name rty ps got w,
  Forall (fun l => l <> "}") lines ->
  loop' i lines (collecting c stk name rty ps got) w
  = Running (collecting c stk name rty ps (got ++ collected lines)) w.
Proof.
  induction lines as [|ln lines IH]; intros i c stk name rty ps got w Hall.
  - simpl. now rewrite collected_nil, app_nil_r.
  - apply Forall_cons in Hall as [Hln Hall].
    unfold loop'. rewrite loop_cons. fold loop'. unfold step.
    rewrite collected_cons. destruct (String.eqb ln "") eqn:Hempty.
    + apply IH, Hall.
    + simpl inFunction. cbv iota. destruct (String.eqb ln "}") eqn:Hclose.
      { apply String.eqb_eq in Hclose. contradiction. }
      unfold ret at 1. unfold collect_line. simpl.
      change (mkDriver c true (mkFunctionDef rty ps (got ++ [ln])) name stk)
        with (collecting c stk name rty ps (got ++ [ln])).
      rewrite IH by assumption. now rewrite <- app_assoc.
Qed.

Lemma loop_definition i header m lines st w :
  inFunction st = false -> regex_match funRegex header = Some m ->
  Forall (fun l => l <> "}") lines ->
  let def := mkFunctionDef (sub m 1) (omap parse_param (split_on "," (sub m 3)))
                           (collected lines) in
  let st' := mkDriver (mkContext (<[sub m 2 := def]> (functions (ctx st)))
                                 (variables (ctx st)))
                      false def (sub m 2) (ifStack st) in
  loop evalExpression evaluateCondition executeFunction i
       (header :: lines ++ ["}"]) st w = Running st' w
  /\ functions (ctx st') !! sub m 2 = Some def.
Proof.
  intros HinF Hm Hall def st'.
  assert (String.eqb header "" = false) as Hne.
  { destruct header; [discriminate Hm | reflexivity]. }
  split; [|apply lookup_insert_eq].
  rewrite loop_cons. unfold step at 1. rewrite Hne, HinF, Hm.
  unfold ret at 1. unfold open_function.
  change (mkDriver (ctx st) true
            (mkFunctionDef (sub m 1) (omap parse_param (split_on "," (sub m 3))) [])
            (sub m 2) (ifStack st))
    with (collecting (ctx st) (ifStack st) (sub m 2) (sub m 1)
            (omap parse_param (split_on "," (sub m 3))) []).
  rewrite loop_app. fold loop'. rewrite loop_collecting by assumption.
  unfold loop'. rewrite loop_cons. reflexivity.
Qed.

(** X9 (main): a definition is stored as it was written. After a function
    header, body lines none of which is the closing line, and the closing
    line, the function table holds under the name of the header a definition
    with the return type and the parameters of the header and, as its body,
    the lines in between in their order, the empty ones left out. No body
    line is executed or checked, whether it is a statement, garbage or an
    if-, elif- or end-- line: the variables, the frames and the three streams
    are as before the header. *)
Theorem definition_is_stored_as_written i header m lines st w :
  inFunction st = false -> regex_match funRegex header = Some m ->
  Forall (fun l => l <> "}") lines ->
  let def := mkFunctionDef (sub m 1) (omap parse_param (split_on "," (sub m 3)))
                           (collected lines) in
  let st' := mkDriver (mkContext (<[sub m 2 := def]> (functions (ctx st)))
                                 (variables (ctx st)))
                      false def (sub m 2) (ifStack st) in
  loop evalExpression evaluateCondition executeFunction i
       (header :: lines ++ ["}"]) st w = Running st' w
  /\ functions (ctx st') !! sub m 2 = Some def.
Proof. intros. now apply loop_definition. Qed.

End Definitions.

(** The definition "funS int f(int: a):{", "return a!", "", "end--", "}". *)
Lemma definition_is_stored_as_written_witness :
  let m := <[3%nat := "int: a"]> (<[2%nat := "f"]> (<[1%nat := "int"]> ∅)) in
  let lines := ["return a!"; ""; "end--"] in
  let def := mkFunctionDef "int" [("int", "a")] ["return a!"; "end--"] in
  let st' := mkDriver (mkContext (<["f" := def]> ∅) ∅) false def "f" [] in
  regex_match funRegex "funS int f(int: a):{" = Some m
  /\ lo_loop_at 1 0 ("funS int f(int: a):{" :: lines ++ ["}"]) initial (console [])
     = Running st' (console [])
  /\ functions (ctx st') !! "f" = Some def.
Proof.
  intros m lines def st'.
  assert (regex_match funRegex "funS int f(int: a):{" = Some m) as Hm
    by (vm_compute; reflexivity).
  assert (Forall (fun l => l <> "}") lines) as Hlines
    by (repeat constructor; discriminate).
  split; [exact Hm|].
  exact (definition_is_stored_as_written (evalExpression_model 1) (evaluateCondition_model 1)
           (executeFunction_model call_depth 1) 0%nat "funS int f(int: a):{" m lines
           initial (console []) eq_refl Hm Hlines).
Defined.

(** ** Headers and parameters *)

Lemma all_chars_rev_onto p s acc :
  all_chars p (string_rev_onto s acc) = all_chars p s && all_chars p acc.
Proof.
  revert acc. induction s as [|c s IH]; intros acc; [reflexivity|].
  simpl. rewrite IH. simpl. destruct (p c), (all_chars p s); reflexivity.
Qed.

Lemma all_chars_rev p s : all_chars p (string_rev s) = all_chars p s.
Proof. unfold string_rev. rewrite all_chars_rev_onto. simpl. apply andb_true_r. Qed.

Lemma all_chars_append p a b :
  all_chars p (a +:+ b) = all_chars p a && all_chars p b.
Proof.
  induction a as [|c a IH]; [reflexivity|]. rewrite append_cons. simpl.
  rewrite IH. now rewrite andb_assoc.
Qed.

Lemma all_chars_impl (p q : ascii -> bool) s :
  (forall c, p c = true -> q c = true) -> all_chars p s = true -> all_chars q s = true.
Proof.
  intros Hpq. induction s as [|c s IH]; [reflexivity|]. simpl.
  intros H. apply andb_true_iff in H as [Hc Hs]. now rewrite (Hpq c Hc), IH.
Qed.

Lemma drop_spaces_stop s : starts_in is_space s = false -> drop_spaces s = s.
Proof. destruct s as [|c s]; [reflexivity|]. simpl. now intros ->. Qed.

Lemma string_rev_empty s : string_rev s = "" -> s = "".
Proof. intros H. rewrite <- (string_rev_involutive s), H. reflexivity. Qed.

(** A text whose first and last characters are not blank is its own trim. *)
Lemma trim_fixed s :
  starts_in is_space s = false -> starts_in is_space (string_rev s) = false ->
  trim s = s.
Proof.
  intros Hfirst Hlast. unfold trim.
  rewrite (drop_spaces_stop s Hfirst), (drop_spaces_stop _ Hlast).
  apply string_rev_involutive.
Qed.

Lemma starts_in_all (p q : ascii -> bool) s :
  (forall c, p c = true -> q c = false) -> all_chars p s = true -> starts_in q s = false.
Proof.
  intros Hpq. destruct s as [|c s]; [reflexivity|]. simpl.
  intros H. apply andb_true_iff in H as [Hc _]. now apply Hpq.
Qed.

Lemma trim_word s : all_chars is_word s = true -> trim s = s.
Proof.
  intros H. apply trim_fixed.
  - exact (starts_in_all is_word is_space s word_not_space H).
  - apply (starts_in_all is_word is_space _ word_not_space). now rewrite all_chars_rev.
Qed.

Lemma string_rev_append a b : string_rev (a +:+ b) = string_rev b +:+ string_rev a.
Proof.
  unfold string_rev. generalize "" at 1 3 as acc. 
  induction a as [|c a IH]; intros acc.
  - change ("" +:+ b) with b. simpl.
    revert acc. induction b as [|x b IHb]; intros acc; [reflexivity|].
    simpl. rewrite IHb. rewrite (IHb (String x "")).
    now rewrite append_assoc.
  - rewrite append_cons. simpl. apply IH.
Qed.

Lemma starts_in_append p a b : a <> "" -> starts_in p (a +:+ b) = starts_in p a.
Proof. destruct a; [congruence | reflexivity]. Qed.

Lemma word_string_inv s :
  word_string s = true -> s <> "" /\ all_chars is_word s = true.
Proof.
  unfold word_string. intros H. apply andb_true_iff in H as [Hst Hall].
  split; [|assumption]. now destruct s.
Qed.

Lemma word_not_colon c : is_word c = true -> is_not ":" c = true.
Proof. destruct c as [[] [] [] [] [] [] [] []]; vm_compute; congruence. Qed.

Lemma word_not_comma c : is_word c = true -> is_not "," c = true.
Proof. destruct c as [[] [] [] [] [] [] [] []]; vm_compute; congruence. Qed.

Lemma word_not_paren c : is_word c = true -> is_not ")" c = true.
Proof. destruct c as [[] [] [] [] [] [] [] []]; vm_compute; congruence. Qed.

Lemma index_colon_cons c s :
  String.index 0 ":" (String c s)
  = if Ascii.eqb c ":" then Some 0%nat
    else match String.index 0 ":" s with Some n => Some (S n) | None => None end.
Proof.
  change (String.index 0 ":" (String c s))
    with (if String.prefix ":" (String c s) then Some 0%nat
          else match String.index 0 ":" s with Some n => Some (S n) | None => None end).
  change (String.prefix ":" (String c s))
    with (match ascii_dec ":" c with left _ => String.prefix "" s | right _ => false end).
  destruct (ascii_dec ":" c) as [<-|Hne].
  - now destruct s.
  - destruct (Ascii.eqb c ":") eqn:E; [|reflexivity].
    apply Ascii.eqb_eq in E. congruence.
Qed.

(** The first colon of a text that has none before it. *)
Lemma index_colon a rest :
  all_chars (is_not ":") a = true ->
  String.index 0 ":" (a +:+ String ":" rest) = Some (String.length a).
Proof.
  induction a as [|c a IH]; intros Ha.
  - change ("" +:+ String ":" rest) with (String ":" rest).
    now rewrite index_colon_cons.
  - simpl in Ha. apply andb_true_iff in Ha as [Hc Ha]. rewrite append_cons.
    rewrite index_colon_cons, (IH Ha). unfold is_not in Hc.
    apply negb_true_iff in Hc. now rewrite Hc.
Qed.

Lemma index_no_colon a :
  all_chars (is_not ":") a = true -> String.index 0 ":" a = None.
Proof.
  induction a as [|c a IH]; intros Ha; [reflexivity|].
  simpl in Ha. apply andb_true_iff in Ha as [Hc Ha].
  rewrite index_colon_cons, (IH Ha). unfold is_not in Hc.
  apply negb_true_iff in Hc. now rewrite Hc.
Qed.

Lemma substring_head a b : String.substring 0 (String.length a) (a +:+ b) = a.
Proof.
  induction a as [|c a IH]; [now destruct b|]. rewrite append_cons. simpl. now rewrite IH.
Qed.

Lemma substring_tail a b n :
  String.substring (String.length a) n (a +:+ b) = String.substring 0 n b.
Proof.
  induction a as [|c a IH]; [reflexivity|]. rewrite append_cons. simpl. exact IH.
Qed.

Lemma eqb_nonempty s : s <> "" -> String.eqb s "" = false.
Proof. destruct s; [congruence | reflexivity]. Qed.

Lemma parse_param_typed ty nm :
  word_string ty = true -> word_string nm = true ->
  parse_param (show_param (ty, nm)) = Some (ty, nm).
Proof.
  intros Hty Hnm. apply word_string_inv in Hty as [Hty0 Hty].
  apply word_string_inv in Hnm as [Hnm0 Hnm].
  unfold parse_param, show_param. simpl fst. simpl snd.
  assert (trim (ty +:+ ": " +:+ nm) = ty +:+ ": " +:+ nm) as ->.
  { apply trim_fixed.
    - rewrite starts_in_append by assumption.
      exact (starts_in_all is_word is_space ty word_not_space Hty).
    - rewrite string_rev_append, string_rev_append.
      assert (string_rev nm <> "") as Hrev.
      { intros H. now apply string_rev_empty in H. }
      rewrite append_assoc, starts_in_append by assumption.
      apply (starts_in_all is_word is_space _ word_not_space).
      now rewrite all_chars_rev. }
  rewrite eqb_nonempty by (destruct ty; [congruence | discriminate]).
  change (ty +:+ ": " +:+ nm) with (ty +:+ String ":" (" " +:+ nm)).
  rewrite index_colon by (exact (all_chars_impl _ _ ty word_not_colon Hty)).
  rewrite substring_head, (trim_word ty Hty). f_equal. f_equal.
  replace (ty +:+ String ":" (" " +:+ nm)) with ((ty +:+ ":") +:+ " " +:+ nm)
    by (now rewrite append_assoc).
  replace (String.length ty + 1)%nat with (String.length (ty +:+ ":"))
    by (rewrite length_append; reflexivity).
  rewrite substring_tail, !length_append.
  replace (String.length ty + String.length ":"
           + (String.length " " + String.length nm)
           - (String.length ty + String.length ":"))%nat
    with (String.length (" " +:+ nm)) by (rewrite length_append; lia).
  rewrite substring_all. unfold trim.
  destruct nm as [|c nm]; [congruence|].
  change (" " +:+ String c nm) with (String " " (String c nm)).
  change (drop_spaces (String " " (String c nm))) with (drop_spaces (String c nm)).
  fold (trim (String c nm)). now apply trim_word.
Qed.

Lemma parse_param_bare nm :
  word_string nm = true -> parse_param nm = Some ("var", nm).
Proof.
  intros Hnm. apply word_string_inv in Hnm as [Hnm0 Hnm].
  unfold parse_param. rewrite (trim_word nm Hnm), eqb_nonempty by assumption.
  rewrite index_no_colon by (exact (all_chars_impl _ _ nm word_not_colon Hnm)).
  now rewrite (trim_word nm Hnm).
Qed.

Lemma parse_param_blank p : all_chars is_space p = true -> parse_param p = None.
Proof.
  intros Hp. unfold parse_param.
  assert (drop_spaces p = "") as Hdrop.
  { induction p as [|c p IH]; [reflexivity|]. simpl in Hp.
    apply andb_true_iff in Hp as [Hc Hp]. simpl. rewrite Hc. now apply IH. }
  unfold trim. now rewrite Hdrop.
Qed.

Lemma omap_cons_Some {A B} (f : A -> option B) x y l :
  f x = Some y -> omap f (x :: l) = y :: omap f l.
Proof. intros H. simpl. now rewrite H. Qed.

Lemma parameters_round_trip_lemmas :
  (forall ps,
     Forall (fun p => word_string (fst p) = true /\ word_string (snd p) = true) ps ->
     omap parse_param (split_on "," (join "," (map show_param ps))) = ps)
  /\ (forall nm, word_string nm = true -> parse_param nm = Some ("var", nm))
  /\ (forall p, all_chars is_space p = true -> parse_param p = None).
Proof.
  split; [|split; [exact parse_param_bare | exact parse_param_blank]].
  intros ps Hps. rewrite split_on_join.
  - induction Hps as [|[ty nm] ps [Hty Hnm] _ IH]; [reflexivity|].
    simpl in Hty, Hnm. rewrite map_cons.
    rewrite (omap_cons_Some _ _ _ _ (parse_param_typed ty nm Hty Hnm)).
    now rewrite IH.
  - apply Forall_map. eapply Forall_impl; [exact Hps|].
    intros [ty nm] [Hty Hnm]. simpl in *.
    apply word_string_inv in Hty as [_ Hty]. apply word_string_inv in Hnm as [_ Hnm].
    unfold show_param. simpl. rewrite !all_chars_append.
    rewrite (all_chars_impl _ _ ty word_not_comma Hty).
    now rewrite (all_chars_impl _ _ nm word_not_comma Hnm).
  - destruct ps as [|p ps] using rev_ind; [discriminate|].
    rewrite map_app. change (map show_param [p]) with [show_param p].
    rewrite last_snoc. intros H. inversion H as [H0].
    apply Forall_app in Hps as [_ Hp]. apply Forall_cons in Hp as [[Hty _] _].
    apply word_string_inv in Hty as [Hty _]. unfold show_param in H0.
    destruct (fst p); [congruence | discriminate].
Qed.

(** X10 (main): the parameters of a header are read as they are written. A
    list of parameters written "type: name" with commas between them is read
    back as the same list of (type, name) pairs, in order, for all types and
    names made of word characters; a parameter written as a bare name gets the
    type var, and an item that is empty or blank is skipped. *)
Theorem parameters_round_trip :
  (forall ps,
     Forall (fun p => word_string (fst p) = true /\ word_string (snd p) = true) ps ->
     omap parse_param (split_on "," (join "," (map show_param ps))) = ps)
  /\ (forall nm, word_string nm = true -> parse_param nm = Some ("var", nm))
  /\ (forall p, all_chars is_space p = true -> parse_param p = None).
Proof. exact parameters_round_trip_lemmas. Qed.

(** The parameters "int: a,str: b", the bare name "a" and a blank item. *)
Lemma parameters_round_trip_witness :
  omap parse_param (split_on "," "int: a,str: b") = [("int", "a"); ("str", "b")]
  /\ parse_param "a" = Some ("var", "a")
  /\ parse_param "  " = None.
Proof.
  destruct parameters_round_trip as (H1 & H2 & H3).
  split; [|split].
  - apply (H1 [("int", "a"); ("str", "b")]). repeat constructor.
  - now apply H2.
  - now apply H3.
Defined.

Lemma substring_prefix_cons c a b :
  match (S (String.length (a +:+ b)) - String.length b)%nat with
  | O => ""
  | S m' => String c (String.substring 0 m' (a +:+ b))
  end = String c a.
Proof.
  rewrite Nat.sub_succ_l by apply length_append_le. now rewrite substring_prefix.
Qed.

(** "funS RET NAME(PARAMS):{" matches [funRegex] with RET, NAME and PARAMS as
    its groups. *)
Lemma fun_header_match rty name ps :
  word_string rty = true -> word_string name = true ->
  all_chars (is_not ")") ps = true ->
  regex_match funRegex (fun_header rty name ps)
  = Some (<[3%nat := ps]> (<[2%nat := name]> (<[1%nat := rty]> ∅))).
Proof.
  unfold word_string. intros Hr Hn Hps.
  apply andb_true_iff in Hr as [Hr0 Hr]. apply andb_true_iff in Hn as [Hn0 Hn].
  unfold funRegex, fun_header. cbv [cat]. rewrite regex_match_bol.
  generalize (String.length ("funS " +:+ rty +:+ " " +:+ name +:+ "(" +:+ ps +:+ "):{")).
  intros whole.
  change ("funS " +:+ rty +:+ " " +:+ name +:+ "(" +:+ ps +:+ "):{")
    with ("funS" +:+ String " " (rty +:+ " " +:+ name +:+ "(" +:+ ps +:+ "):{")).
  rewrite rmatch_seq, rmatch_lit by discriminate.
  destruct rty as [|c rty]; [discriminate|]. simpl in Hr0, Hr.
  rewrite Hr0 in Hr. simpl in Hr.
  destruct name as [|d name]; [discriminate|]. simpl in Hn0, Hn.
  rewrite Hn0 in Hn. simpl in Hn.
  rewrite rmatch_seq. unfold ws1, plus. rewrite rmatch_seq.
  simpl rmatch at 1. change (is_space " ") with true. cbv iota.
  rewrite (word_not_space c Hr0), Hr0.
  set (r := <[3%nat := ps]> (<[2%nat := String d name]> (<[1%nat := String c rty]> ∅))).
  rewrite (many_all is_word rty (" " +:+ String d name +:+ "(" +:+ ps +:+ "):{") _ r);
    [reflexivity|assumption|reflexivity|].
  change (" " +:+ String d name +:+ "(" +:+ ps +:+ "):{")
    with (String " " (String d (name +:+ "(" +:+ ps +:+ "):{"))).
  cbv beta iota. change (is_space " ") with true. cbv iota.
  rewrite many_stop by (simpl; now apply word_not_space).
  cbv beta iota. rewrite Hn0.
  rewrite (many_all is_word name ("(" +:+ ps +:+ "):{") _ r);
    [reflexivity|assumption|reflexivity|].
  change ("(" +:+ ps +:+ "):{") with (String "(" (ps +:+ "):{")).
  cbv beta iota. change (Ascii.eqb "(" "(") with true. cbv iota.
  rewrite (many_all (is_not ")") ps "):{" _ r);
    [reflexivity|assumption|reflexivity|].
  subst r. change (Ascii.eqb ")" ")") with true. change (Ascii.eqb ":" ":") with true.
  cbv iota. rewrite many_stop by reflexivity.
  change (Ascii.eqb "{" "{") with true. cbv beta iota. unfold at_end.
  rewrite substring_prefix.
  change (String d (name +:+ String "(" (ps +:+ "):{")))
    with (String d name +:+ String "(" (ps +:+ "):{")).
  rewrite substring_prefix.
  rewrite substring_prefix_cons. reflexivity.
Qed.

(** "print--"TEXT"!" matches [printRegex] with TEXT as group 2. *)
Lemma print_literal_match text :
  all_chars (is_not dquote) text = true ->
  regex_match printRegex (print_literal text)
  = Some (<[1%nat := quote text]> (<[2%nat := text]> ∅)).
Proof.
  intros Htext. unfold printRegex, print_literal, quote. cbv [cat].
  rewrite regex_match_bol.
  generalize (String.length ("print--" +:+ String dquote (text +:+ String dquote "") +:+ "!")).
  intros whole.
  rewrite rmatch_seq, rmatch_lit by discriminate.
  rewrite rmatch_seq. unfold ws. simpl rmatch at 1.
  rewrite (append_assoc text (String dquote "") "!").
  change (String dquote "" +:+ "!") with (String dquote "!").
  rewrite (many_all (is_not dquote) text (String dquote "!") _
             (<[1%nat := String dquote (text +:+ String dquote "")]> (<[2%nat := text]> ∅)));
    [reflexivity|assumption|reflexivity|].
  cbv beta iota. change (Ascii.eqb dquote dquote) with true.
  change (Ascii.eqb "!" "!") with true. cbv iota. unfold at_end.
  rewrite substring_prefix.
  change (text +:+ String dquote "!") with (text +:+ String dquote "" +:+ "!").
  rewrite <- append_assoc, substring_prefix_cons. reflexivity.
Qed.

Lemma many_app_some p a b k r :
  all_chars p a = true -> many p b k = Some r -> many p (a +:+ b) k = Some r.
Proof.
  intros Ha Hb. induction a as [|c a IH]; [exact Hb|].
  simpl in Ha. apply andb_true_iff in Ha as [Hc Ha].
  now rewrite append_cons, many_cons, Hc, (IH Ha).
Qed.

Lemma type_name_cases ty :
  is_type_name ty = true -> ty = "int" \/ ty = "str" \/ ty = "bool" \/ ty = "arr".
Proof.
  unfold is_type_name. intros H.
  repeat (apply orb_true_iff in H as [H|H]); apply String.eqb_eq in H; tauto.
Qed.

Ltac quiet_simpl :=
  with_strategy opaque [String.substring String.length] simpl.

(** "loc NAME = TYPE(RAW)!" matches [locRegex] with NAME, TYPE and RAW as its
    groups. *)
Lemma loc_line_match name ty raw :
  word_string name = true -> is_type_name ty = true -> all_chars is_dot raw = true ->
  regex_match locRegex (loc_line name ty raw)
  = Some (<[3%nat := raw]> (<[2%nat := ty]> (<[1%nat := name]> ∅))).
Proof.
  unfold word_string. intros Hn Hty Hraw.
  apply andb_true_iff in Hn as [Hn0 Hn].
  unfold locRegex, loc_line. cbv [cat]. rewrite regex_match_bol.
  generalize (String.length ("loc " +:+ name +:+ " = " +:+ ty +:+ "(" +:+ raw +:+ ")!")).
  intros whole.
  change ("loc " +:+ name +:+ " = " +:+ ty +:+ "(" +:+ raw +:+ ")!")
    with ("loc" +:+ String " " (name +:+ " = " +:+ ty +:+ "(" +:+ raw +:+ ")!")).
  rewrite rmatch_seq, rmatch_lit by discriminate.
  destruct name as [|c name]; [discriminate|]. simpl in Hn0, Hn.
  rewrite Hn0 in Hn. simpl in Hn.
  set (r := <[3%nat := raw]> (<[2%nat := ty]> (<[1%nat := String c name]> ∅))).
  rewrite rmatch_seq. unfold ws1, plus. rewrite rmatch_seq.
  quiet_simpl. rewrite (word_not_space c Hn0), Hn0.
  rewrite (many_all is_word name (" = " +:+ ty +:+ "(" +:+ raw +:+ ")!") _ r);
    [reflexivity|assumption|reflexivity|].
  change (" = " +:+ ty +:+ "(" +:+ raw +:+ ")!")
    with (String " " (String "=" (String " " (ty +:+ "(" +:+ raw +:+ ")!")))).
  rewrite many_cons. change (is_space " ") with true. cbv iota.
  rewrite (many_stop is_space (String "=" _)) by reflexivity.
  change (Ascii.eqb "=" "=") with true. cbv iota.
  rewrite many_cons. change (is_space " ") with true. cbv iota.
  assert (forall K : string -> option smatch,
            K ")!" = Some r -> K "!" = None -> K "" = None ->
            many is_dot (raw +:+ ")!") K = Some r) as Hgreedy.
  { intros K H2 H1 H0. apply many_app_some; [assumption|].
    rewrite many_cons. change (is_dot ")") with true. cbv iota.
    rewrite many_cons. change (is_dot "!") with true. cbv iota.
    change (many is_dot "" K) with (K ""). now rewrite H0, H1. }
  assert (forall t : string,
            String.substring 0
              (String.length (String c (name +:+ String " " (String "=" (String " " t))))
               - String.length (String " " (String "=" (String " " t))))
              (String c (name +:+ String " " (String "=" (String " " t))))
            = String c name) as Hg1.
  { intros t. apply (substring_prefix (String c name)). }
  destruct (type_name_cases ty Hty) as [-> | [-> | [-> | ->]]].
  - rewrite many_stop by reflexivity.
    change ("int" +:+ "(" +:+ raw +:+ ")!")
      with (String "i" (String "n" (String "t" (String "(" (raw +:+ ")!"))))).
    quiet_simpl. rewrite Hgreedy; [reflexivity| |reflexivity|reflexivity].
    quiet_simpl. rewrite substring_prefix, Hg1.
    subst r. do 3 f_equal.
    exact (substring_prefix "int" (String "(" (raw +:+ ")!"))).
  - rewrite many_stop by reflexivity.
    change ("str" +:+ "(" +:+ raw +:+ ")!")
      with (String "s" (String "t" (String "r" (String "(" (raw +:+ ")!"))))).
    quiet_simpl. rewrite Hgreedy; [reflexivity| |reflexivity|reflexivity].
    quiet_simpl. rewrite substring_prefix, Hg1.
    subst r. do 3 f_equal.
    exact (substring_prefix "str" (String "(" (raw +:+ ")!"))).
  - rewrite many_stop by reflexivity.
    change ("bool" +:+ "(" +:+ raw +:+ ")!")
      with (String "b" (String "o" (String "o" (String "l" (String "(" (raw +:+ ")!")))))).
    quiet_simpl. rewrite Hgreedy; [reflexivity| |reflexivity|reflexivity].
    quiet_simpl. rewrite substring_prefix, Hg1.
    subst r. do 3 f_equal.
    exact (substring_prefix "bool" (String "(" (raw +:+ ")!"))).
  - rewrite many_stop by reflexivity.
    change ("arr" +:+ "(" +:+ raw +:+ ")!")
      with (String "a" (String "r" (String "r" (String "(" (raw +:+ ")!"))))).
    quiet_simpl. rewrite Hgreedy; [reflexivity| |reflexivity|reflexivity].
    quiet_simpl. rewrite substring_prefix, Hg1.
    subst r. do 3 f_equal.
    exact (substring_prefix "arr" (String "(" (raw +:+ ")!"))).
Qed.

(** ** Statements *)

Lemma loc_line_dispatch tail :
  let ln := "loc " +:+ tail in
  String.eqb ln "" = false /\ regex_match funRegex ln = None /\ is_control ln = false.
Proof.
  intros ln. subst ln. split; [reflexivity|].
  split; [unfold funRegex; anchored_mismatch | reflexivity].
Qed.

Lemma quote_is_dot text :
  all_chars is_dot text = true -> all_chars is_dot (quote text) = true.
Proof.
  intros H. unfold quote. simpl. rewrite all_chars_append, H. reflexivity.
Qed.

Lemma trim_quote text : trim (quote text) = quote text.
Proof.
  apply trim_fixed; [reflexivity|]. unfold quote.
  change (String dquote (text +:+ String dquote ""))
    with (String dquote "" +:+ text +:+ String dquote "").
  now rewrite !string_rev_append.
Qed.

Lemma sub_groups3 (a b c : string) :
  sub (<[3%nat := c]> (<[2%nat := b]> (<[1%nat := a]> ∅))) 1 = a
  /\ sub (<[3%nat := c]> (<[2%nat := b]> (<[1%nat := a]> ∅))) 2 = b
  /\ sub (<[3%nat := c]> (<[2%nat := b]> (<[1%nat := a]> ∅))) 3 = c.
Proof. unfold sub. repeat split; now simplify_map_eq. Qed.

Section Statements.

Variable evalExpression : gmap string Var -> string -> M string.
Variable evaluateCondition : gmap string Var -> string -> string -> string -> M bool.
Variable executeFunction :
  FunctionDef -> list string -> gmap string FunctionDef -> gmap string Var ->
  M (string * Context).

Let step' := step evalExpression evaluateCondition executeFunction.
Let loop' := loop evalExpression evaluateCondition executeFunction.

Lemma step_loc i name ty raw st w :
  word_string name = true -> is_type_name ty = true -> all_chars is_dot raw = true ->
  inFunction st = false -> in_skipped_body (ifStack st) = false ->
  step' i (loc_line name ty raw) st w
  = bind (processLoc evalExpression (ctx st)
            (<[3%nat := raw]> (<[2%nat := ty]> (<[1%nat := name]> ∅))) (i + 1))
         (fun c => ret (with_ctx st c)) w.
Proof.
  intros Hname Hty Hraw HinF Hskip.
  pose proof (loc_line_match name ty raw Hname Hty Hraw) as Hm.
  unfold loc_line in *.
  destruct (loc_line_dispatch (name +:+ " = " +:+ ty +:+ "(" +:+ raw +:+ ")!"))
    as (Hne & Hfun & Hctl).
  unfold step'. rewrite step_simple by assumption.
  unfold simple_construct. now rewrite Hm.
Qed.

Lemma step_loc_str i name text st w :
  word_string name = true -> all_chars is_dot text = true ->
  inFunction st = false -> in_skipped_body (ifStack st) = false ->
  step' i (loc_line name "str" (quote text)) st w
  = Running (with_ctx st (set_variable (ctx st) name (mkVar "str" text))) w.
Proof.
  intros Hname Htext HinF Hskip.
  rewrite step_loc by (try assumption; try reflexivity; now apply quote_is_dot).
  unfold bind, processLoc.
  destruct (sub_groups3 name "str" (quote text)) as (-> & -> & ->).
  change (String.eqb "str" "str") with true. cbv iota.
  rewrite trim_quote. now rewrite unquote_quote_text.
Qed.

Lemma step_loc_bool i name raw st w :
  word_string name = true -> all_chars is_dot raw = true ->
  inFunction st = false -> in_skipped_body (ifStack st) = false ->
  step' i (loc_line name "bool" raw) st w
  = let val := trim (trim raw) in
    if String.eqb val "true" || String.eqb val "1"
    then Running (with_ctx st (set_variable (ctx st) name (mkVar "bool" "true"))) w
    else if String.eqb val "false" || String.eqb val "0"
    then Running (with_ctx st (set_variable (ctx st) name (mkVar "bool" "false"))) w
    else Exit 1 (add_stderr w ("Error at line " +:+ show_nat (i + 1)
                               +:+ ": Invalid bool value: " +:+ val +:+ newline)).
Proof.
  intros Hname Hraw HinF Hskip.
  rewrite step_loc by (try assumption; reflexivity).
  unfold bind, processLoc.
  destruct (sub_groups3 name "bool" raw) as (-> & -> & ->).
  change (String.eqb "bool" "str") with false.
  change (String.eqb "bool" "int") with false.
  change (String.eqb "bool" "bool") with true. cbv iota zeta.
  destruct (_ || _); [reflexivity|]. destruct (_ || _); reflexivity.
Qed.

Lemma step_loc_arr i name raw st w :
  word_string name = true -> all_chars is_dot raw = true ->
  inFunction st = false -> in_skipped_body (ifStack st) = false ->
  step' i (loc_line name "arr" raw) st w
  = Running (with_ctx st (set_variable (ctx st) name
               (mkVar "arr" (join "," (map (fun item => unquote (trim item))
                                           (split_on "," (trim (trim raw)))))))) w.
Proof.
  intros Hname Hraw HinF Hskip.
  rewrite step_loc by (try assumption; reflexivity).
  unfold bind, processLoc.
  destruct (sub_groups3 name "arr" raw) as (-> & -> & ->).
  change (String.eqb "arr" "str") with false.
  change (String.eqb "arr" "int") with false.
  change (String.eqb "arr" "bool") with false.
  change (String.eqb "arr" "arr") with true. cbv iota zeta.
  now rewrite write_elements_join.
Qed.

Lemma processPrint_scalar c m lineno w name v :
  m !! 2%nat = None -> m !! 3%nat = Some name ->
  variables c !! name = Some v -> String.eqb (type v) "arr" = false ->
  processPrint executeFunction c m lineno w
  = Running c (add_stdout w (value v +:+ newline)).
Proof.
  intros H2 H3 Hv Hty. unfold processPrint. now rewrite H2, H3, Hv, Hty.
Qed.

Lemma step_print_scalar i name st w v :
  word_string name = true ->
  inFunction st = false -> in_skipped_body (ifStack st) = false ->
  variables (ctx st) !! name = Some v -> String.eqb (type v) "arr" = false ->
  step' i (print_variable name) st w = Running st (add_stdout w (value v +:+ newline)).
Proof.
  intros Hname HinF Hskip Hv Hty. unfold step', print_variable.
  rewrite (step_print _ _ _ _ _ _ _ _ HinF Hskip (print_variable_match name Hname)).
  unfold bind.
  rewrite (processPrint_scalar _ _ _ _ name v) by (assumption || reflexivity).
  unfold ret. now rewrite with_ctx_same.
Qed.

Lemma step_print_literal i text st w :
  all_chars (is_not dquote) text = true ->
  inFunction st = false -> in_skipped_body (ifStack st) = false ->
  step' i (print_literal text) st w = Running st (add_stdout w (text +:+ newline)).
Proof.
  intros Htext HinF Hskip. unfold step', print_literal.
  rewrite (step_print _ _ _ _ _ _ _ _ HinF Hskip (print_literal_match text Htext)).
  unfold bind, processPrint.
  replace ((<[1%nat := quote text]> (<[2%nat := text]> ∅) : smatch) !! 2%nat)
    with (Some text) by (now simplify_map_eq).
  unfold bind, cout, ret, add_stdout. simpl. now rewrite with_ctx_same.
Qed.

Lemma step_call i fname args def st w :
  word_string fname = true -> all_chars (is_not ")") args = true ->
  inFunction st = false -> in_skipped_body (ifStack st) = false ->
  functions (ctx st) !! fname = Some def ->
  step' i (print_call fname args) st w
  = match executeFunction def (map trim (split_on "," args))
                          (functions (ctx st)) (variables (ctx st)) w with
    | Running res w1 =>
        Running (with_ctx st (snd res)) (add_stdout w1 (fst res +:+ newline))
    | Exit status w1 => Exit status w1
    end.
Proof.
  intros Hname Hargs HinF Hskip Hf. unfold step'.
  change (print_call fname args)
    with ("print--" +:+ "f-" +:+ fname +:+ "(" +:+ args +:+ ")!").
  rewrite (step_print _ _ _ _ _ _ _ _ HinF Hskip (print_call_match fname args Hname Hargs)).
  unfold bind at 1. unfold processPrint.
  replace ((<[5%nat := args]> (<[4%nat := fname]> ∅) : smatch) !! 2%nat)
    with (@None string) by (now simplify_map_eq).
  replace ((<[5%nat := args]> (<[4%nat := fname]> ∅) : smatch) !! 3%nat)
    with (@None string) by (now simplify_map_eq).
  replace ((<[5%nat := args]> (<[4%nat := fname]> ∅) : smatch) !! 4%nat)
    with (Some fname) by (now simplify_map_eq).
  replace (sub (<[5%nat := args]> (<[4%nat := fname]> ∅)) 5) with args
    by (unfold sub; now simplify_map_eq).
  rewrite Hf. unfold bind.
  destruct (executeFunction _ _ _ _ w) as [res w1|]; reflexivity.
Qed.

End Statements.

(** ** Joined texts *)

Lemma all_chars_join p sep l :
  all_chars p sep = true -> Forall (fun e => all_chars p e = true) l ->
  all_chars p (join sep l) = true.
Proof.
  intros Hsep Hl. induction Hl as [|e l He _ IH]; [reflexivity|].
  destruct l as [|e' l]; [exact He|].
  change (join sep (e :: e' :: l)) with (e +:+ sep +:+ join sep (e' :: l)).
  now rewrite !all_chars_append, He, Hsep, IH.
Qed.

Lemma join_nonempty sep x l : x <> "" -> join sep (x :: l) <> "".
Proof.
  intros Hx. destruct l as [|y l]; [exact Hx|].
  change (join sep (x :: y :: l)) with (x +:+ sep +:+ join sep (y :: l)).
  destruct x; [congruence | discriminate].
Qed.

Lemma string_rev_nonempty s : s <> "" -> string_rev s <> "".
Proof. intros Hs H. now apply string_rev_empty in H. Qed.

Lemma starts_in_join p sep l :
  Forall (fun e => e <> "") l ->
  starts_in p (join sep l) = match l with x :: _ => starts_in p x | [] => false end.
Proof.
  intros Hl. destruct l as [|x l]; [reflexivity|].
  apply Forall_cons in Hl as [Hx _]. destruct l as [|y l]; [reflexivity|].
  change (join sep (x :: y :: l)) with (x +:+ sep +:+ join sep (y :: l)).
  now apply starts_in_append.
Qed.

Lemma starts_in_rev_join p sep l :
  Forall (fun e => e <> "") l ->
  starts_in p (string_rev (join sep l))
  = match last l with Some x => starts_in p (string_rev x) | None => false end.
Proof.
  intros Hl. induction Hl as [|x l Hx Hl IH]; [reflexivity|].
  destruct l as [|y l]; [reflexivity|].
  change (join sep (x :: y :: l)) with (x +:+ sep +:+ join sep (y :: l)).
  rewrite !string_rev_append, append_assoc.
  rewrite starts_in_append.
  - rewrite IH. reflexivity.
  - apply string_rev_nonempty, join_nonempty. now apply Forall_cons in Hl as [Hy _].
Qed.

Lemma starts_in_rev_quote p e :
  starts_in p (string_rev (quote e)) = p dquote.
Proof.
  unfold quote.
  change (String dquote (e +:+ String dquote ""))
    with (String dquote "" +:+ e +:+ String dquote "").
  now rewrite !string_rev_append.
Qed.

Lemma quote_nonempty e : quote e <> "".
Proof. discriminate. Qed.

Lemma last_map_quote es : last (map quote es) = quote <$> last es.
Proof.
  destruct es as [|e es _] using rev_ind; [reflexivity|].
  rewrite map_app. change (map quote [e]) with [quote e]. now rewrite !last_snoc.
Qed.

(** The text of an array literal with every element between quotes is its
    own trim, and splits into the quoted elements. *)
Lemma quoted_elements es :
  Forall (fun e => all_chars (is_not ",") e = true) es ->
  let raw := join "," (map quote es) in
  trim raw = raw
  /\ map (fun item => unquote (trim item)) (split_on "," raw) = es.
Proof.
  intros Hes raw. subst raw.
  assert (Forall (fun q => q <> "") (map quote es)) as Hne.
  { apply Forall_map. apply Forall_forall. intros e _. apply quote_nonempty. }
  split.
  - apply trim_fixed.
    + rewrite starts_in_join by assumption. now destruct es.
    + rewrite starts_in_rev_join by assumption. rewrite last_map_quote.
      destruct (last es); [|reflexivity]. simpl. now rewrite starts_in_rev_quote.
  - rewrite split_on_join.
    + clear. induction es as [|e es IH]; [reflexivity|].
      simpl. now rewrite trim_quote, unquote_quote_text, IH.
    + apply Forall_map. eapply Forall_impl; [exact Hes|]. intros e He.
      unfold quote. simpl. now rewrite all_chars_append, He.
    + rewrite last_map_quote. destruct (last es); discriminate.
Qed.

Lemma clean_elements es :
  Forall (fun e => all_chars (is_not ",") e = true /\ trim e = e) es ->
  last es <> Some "" ->
  map trim (split_on "," (join "," es)) = es.
Proof.
  intros Hes Hlast. rewrite split_on_join.
  - clear Hlast. induction Hes as [|e es [_ He] _ IH]; [reflexivity|].
    simpl. now rewrite He, IH.
  - eapply Forall_impl; [exact Hes|]. now intros e [He _].
  - exact Hlast.
Qed.

(** ** Programs *)

Section Programs.

Variable evalExpression : gmap string Var -> string -> M string.
Variable evaluateCondition : gmap string Var -> string -> string -> string -> M bool.
Variable executeFunction :
  FunctionDef -> list string -> gmap string FunctionDef -> gmap string Var ->
  M (string * Context).

Let step' := step evalExpression evaluateCondition executeFunction.
Let loop' := loop evalExpression evaluateCondition executeFunction.

Lemma loop_two i l1 l2 st w s1 w1 :
  step' i l1 st w = Running s1 w1 ->
  loop' i [l1; l2] st w = step' (S i) l2 s1 w1.
Proof.
  intros H1. unfold loop'. rewrite loop_cons. fold step'. rewrite H1.
  rewrite loop_cons. fold step'. destruct (step' (S i) l2 s1 w1); reflexivity.
Qed.

(** X11 (main): a function written in the source is the function in the
    table. After the header funS RET NAME(T1: P1,...,Tn: Pn):{, body lines
    none of which is the closing line, and the closing line, the table holds
    under NAME the definition with return type RET, the parameters (T1, P1),
    ..., (Tn, Pn) and the non-empty body lines in order. This holds whatever
    the frames on the stack are: a definition inside a skipped branch is made
    all the same. *)
Theorem definition_from_text i rty name ps lines st w :
  word_string rty = true -> word_string name = true ->
  Forall (fun p => word_string (fst p) = true /\ word_string (snd p) = true) ps ->
  inFunction st = false -> Forall (fun l => l <> "}") lines ->
  exists st',
    loop evalExpression evaluateCondition executeFunction i
         (fun_header rty name (join "," (map show_param ps)) :: lines ++ ["}"]) st w
    = Running st' w
    /\ functions (ctx st') !! name = Some (mkFunctionDef rty ps (collected lines))
    /\ variables (ctx st') = variables (ctx st)
    /\ ifStack st' = ifStack st /\ inFunction st' = false.
Proof.
  intros Hrty Hname Hps HinF Hlines.
  assert (all_chars (is_not ")") (join "," (map show_param ps)) = true) as Hparen.
  { apply all_chars_join; [reflexivity|]. apply Forall_map.
    eapply Forall_impl; [exact Hps|]. intros [ty nm] [Hty Hnm]. simpl in *.
    apply word_string_inv in Hty as [_ Hty]. apply word_string_inv in Hnm as [_ Hnm].
    unfold show_param. simpl. rewrite !all_chars_append.
    rewrite (all_chars_impl _ _ ty word_not_paren Hty).
    now rewrite (all_chars_impl _ _ nm word_not_paren Hnm). }
  pose proof (fun_header_match rty name _ Hrty Hname Hparen) as Hm.
  destruct (loop_definition evalExpression evaluateCondition executeFunction
              i _ _ lines st w HinF Hm Hlines) as [Hrun Hlook].
  destruct (sub_groups3 rty name (join "," (map show_param ps))) as (E1 & E2 & E3).
  rewrite E1, E2, E3 in Hrun, Hlook.
  rewrite (proj1 parameters_round_trip_lemmas ps Hps) in Hrun, Hlook.
  eexists. split; [exact Hrun|]. split; [exact Hlook|]. now repeat split.
Qed.

(** X12 (processLoc, processPrint): a string comes back as it was declared.
    The declaration loc NAME = str("TEXT")! followed by print--NAME! prints
    TEXT and a newline, for every text without line breaks, quotes inside it
    included, and leaves NAME bound to type str and TEXT. *)
Theorem declared_string_is_printed i name text st w :
  word_string name = true -> all_chars is_dot text = true ->
  inFunction st = false -> in_skipped_body (ifStack st) = false ->
  loop evalExpression evaluateCondition executeFunction i
       [loc_line name "str" (quote text); print_variable name] st w
  = Running (with_ctx st (set_variable (ctx st) name (mkVar "str" text)))
            (add_stdout w (text +:+ newline)).
Proof.
  intros Hname Htext HinF Hskip.
  fold loop'. rewrite (loop_two i _ _ st w _ w
                         (step_loc_str _ _ _ i name text st w Hname Htext HinF Hskip)).
  unfold step'. rewrite (step_print_scalar _ _ _ _ name _ _ (mkVar "str" text));
    try assumption; try reflexivity.
  unfold with_ctx, set_variable. simpl. apply lookup_insert_eq.
Qed.

(** X13 (processLoc): a declaration of type bool accepts the four literals
    true, 1, false and 0, blanks around them being ignored, and stores true
    for the first two and false for the others; any other text ends the run
    with status 1 and the message Invalid bool value with the trimmed text. *)
Theorem bool_declaration i name raw st w :
  word_string name = true -> all_chars is_dot raw = true ->
  inFunction st = false -> in_skipped_body (ifStack st) = false ->
  step evalExpression evaluateCondition executeFunction i (loc_line name "bool" raw) st w
  = let val := trim (trim raw) in
    if String.eqb val "true" || String.eqb val "1"
    then Running (with_ctx st (set_variable (ctx st) name (mkVar "bool" "true"))) w
    else if String.eqb val "false" || String.eqb val "0"
    then Running (with_ctx st (set_variable (ctx st) name (mkVar "bool" "false"))) w
    else Exit 1 (add_stderr w ("Error at line " +:+ show_nat (i + 1)
                               +:+ ": Invalid bool value: " +:+ val +:+ newline)).
Proof. intros. now apply step_loc_bool. Qed.

(** X14 (processLoc, processPrint): an array comes back as it was declared.
    The declaration loc NAME = arr("e1","e2",...,"en")! followed by
    print--NAME! prints [e1, e2, ..., en] and a newline and leaves NAME bound
    to type arr and the comma-join of the elements, for all elements without
    commas, line breaks and surrounding blanks, the last one not empty; the
    empty array prints []. *)
Theorem declared_array_is_printed i name es st w :
  word_string name = true ->
  Forall (fun e => all_chars (is_not ",") e = true /\ all_chars is_dot e = true
                   /\ trim e = e) es ->
  last es <> Some "" ->
  inFunction st = false -> in_skipped_body (ifStack st) = false ->
  loop evalExpression evaluateCondition executeFunction i
       [loc_line name "arr" (join "," (map quote es)); print_variable name] st w
  = Running (with_ctx st (set_variable (ctx st) name (mkVar "arr" (join "," es))))
            (add_stdout w ("[" +:+ join ", " es +:+ "]" +:+ newline)).
Proof.
  intros Hname Hes Hlast HinF Hskip.
  assert (all_chars is_dot (join "," (map quote es)) = true) as Hdot.
  { apply all_chars_join; [reflexivity|]. apply Forall_map.
    eapply Forall_impl; [exact Hes|]. intros e (_ & He & _). now apply quote_is_dot. }
  assert (Forall (fun e => all_chars (is_not ",") e = true) es) as Hcomma.
  { eapply Forall_impl; [exact Hes|]. now intros e (He & _). }
  destruct (quoted_elements es Hcomma) as [Htrim Hsplit].
  pose proof (step_loc_arr evalExpression evaluateCondition executeFunction
                i name _ st w Hname Hdot HinF Hskip) as Hloc.
  rewrite !Htrim, Hsplit in Hloc.
  fold loop'. rewrite (loop_two i _ _ st w _ w Hloc).
  unfold step'.
  rewrite (step_print_array _ _ _ _ name _ _ (mkVar "arr" (join "," es)));
    try assumption; try reflexivity.
  - simpl. rewrite clean_elements; [reflexivity| |assumption].
    eapply Forall_impl; [exact Hes|]. now intros e (H1 & _ & H3).
  - unfold with_ctx, set_variable. simpl. apply lookup_insert_eq.
Qed.

(** X15 (processPrint): print--"TEXT"! prints TEXT and a newline, for every
    text without a double quote, and changes nothing else: the state is the
    same and nothing is read or reported. *)
Theorem literal_is_printed i text st w :
  all_chars (is_not dquote) text = true ->
  inFunction st = false -> in_skipped_body (ifStack st) = false ->
  step evalExpression evaluateCondition executeFunction i (print_literal text) st w
  = Running st (add_stdout w (text +:+ newline)).
Proof. intros. now apply step_print_literal. Qed.

(** X16 (processPrint): a call hands the arguments over as they are written.
    For a function NAME that is in the table, print--f-NAME(a1,...,an)! calls
    the executor with the definition stored under NAME, the arguments a1, ...,
    an in order (none for an empty list), the function table and the variable
    table. This is proved for arguments without commas, closing parentheses
    and surrounding blanks, the last of them not empty: an empty text after
    the last comma is no argument. When the call returns, its result is
    printed with a newline and the two tables are the ones the executor hands
    back; when the call ends the run, nothing is printed. *)
Theorem call_passes_arguments i fname args def st w :
  word_string fname = true ->
  Forall (fun a => all_chars (is_not ",") a = true /\ all_chars (is_not ")") a = true
                   /\ trim a = a) args ->
  last args <> Some "" ->
  inFunction st = false -> in_skipped_body (ifStack st) = false ->
  functions (ctx st) !! fname = Some def ->
  step evalExpression evaluateCondition executeFunction i
       (print_call fname (join "," args)) st w
  = match executeFunction def args (functions (ctx st)) (variables (ctx st)) w with
    | Running res w1 =>
        Running (with_ctx st (snd res)) (add_stdout w1 (fst res +:+ newline))
    | Exit status w1 => Exit status w1
    end.
Proof.
  intros Hname Hargs Hlast HinF Hskip Hf.
  assert (all_chars (is_not ")") (join "," args) = true) as Hparen.
  { apply all_chars_join; [reflexivity|].
    eapply Forall_impl; [exact Hargs|]. now intros a (_ & Ha & _). }
  rewrite (step_call _ _ _ i fname _ def st w Hname Hparen HinF Hskip Hf).
  rewrite clean_elements; [reflexivity| |assumption].
  eapply Forall_impl; [exact Hargs|]. now intros a (H1 & _ & H3).
Qed.

Lemma step_loc_int i name raw st w :
  word_string name = true -> all_chars is_dot raw = true ->
  inFunction st = false -> in_skipped_body (ifStack st) = false ->
  step evalExpression evaluateCondition executeFunction i (loc_line name "int" raw) st w
  = match evalExpression (variables (ctx st)) (trim raw) w with
    | Running val w1 =>
        Running (with_ctx st (set_variable (ctx st) name (mkVar "int" val))) w1
    | Exit status w1 => Exit status w1
    end.
Proof.
  intros Hname Hraw HinF Hskip. fold step'.
  unfold step'. rewrite (step_loc _ _ _ i name "int" raw st w) by (assumption || reflexivity).
  unfold bind, processLoc.
  destruct (sub_groups3 name "int" raw) as (-> & -> & ->).
  change (String.eqb "int" "str") with false.
  change (String.eqb "int" "int") with true. cbv iota. unfold bind.
  now destruct (evalExpression (variables (ctx st)) (trim raw) w).
Qed.

End Programs.

(** X17 (processLoc): a declaration of type int stores what the expression
    evaluator answers. As main.cpp calls it, the evaluator is a function of
    the text alone: for loc NAME = int(EXPR)! it is called with EXPR without
    the blanks around it, and NAME is bound to type int and the answer,
    whatever the answer is; when the evaluator ends the run, nothing is
    declared. *)
Theorem int_declaration_uses_evaluator (evaluator : string -> M string)
    evaluateCondition executeFunction i name raw st w :
  word_string name = true -> all_chars is_dot raw = true ->
  inFunction st = false -> in_skipped_body (ifStack st) = false ->
  step (fun _ => evaluator) evaluateCondition executeFunction i
       (loc_line name "int" raw) st w
  = match evaluator (trim raw) w with
    | Running val w1 =>
        Running (with_ctx st (set_variable (ctx st) name (mkVar "int" val))) w1
    | Exit status w1 => Exit status w1
    end.
Proof. intros. now apply (step_loc_int (fun _ => evaluator)). Qed.

(** The definition of add with two parameters, made in a skipped branch. *)
Lemma definition_from_text_witness :
  let st := frames [mkIfState false true] in
  let ps := [("int", "a"); ("int", "b")] in
  fun_header "int" "add" (join "," (map show_param ps)) = "funS int add(int: a,int: b):{"
  /\ exists st',
       lo_loop_at 1 0 ["funS int add(int: a,int: b):{"; "return a + b!"; "}"] st (console [])
       = Running st' (console [])
       /\ functions (ctx st') !! "add"
          = Some (mkFunctionDef "int" ps (collected ["return a + b!"]))
       /\ variables (ctx st') = variables (ctx st)
       /\ ifStack st' = ifStack st /\ inFunction st' = false.
Proof.
  intros st ps. split; [reflexivity|].
  assert (Forall (fun p => word_string (fst p) = true /\ word_string (snd p) = true) ps)
    as Hps by (repeat constructor).
  assert (Forall (fun l => l <> "}") ["return a + b!"]) as Hlines
    by (repeat constructor; discriminate).
  exact (definition_from_text (evalExpression_model 1) (evaluateCondition_model 1)
           (executeFunction_model call_depth 1) 0%nat "int" "add" ps ["return a + b!"]
           st (console []) eq_refl eq_refl Hps eq_refl Hlines).
Defined.

(** The declaration of s with the text hello world, then print--s!. *)
Lemma declared_string_is_printed_witness :
  lo_loop_at 1 0 [loc_line "s" "str" (quote "hello world"); print_variable "s"]
          initial (console [])
  = Running (with_ctx initial (set_variable (ctx initial) "s" (mkVar "str" "hello world")))
            (add_stdout (console []) ("hello world" +:+ newline)).
Proof.
  exact (declared_string_is_printed (evalExpression_model 1) (evaluateCondition_model 1)
           (executeFunction_model call_depth 1) 0%nat "s" "hello world" initial (console [])
           eq_refl eq_refl eq_refl eq_refl).
Defined.

(** The declaration "loc b = bool( 1 )!". *)
Lemma bool_declaration_witness :
  lo_step 0 (loc_line "b" "bool" " 1 ") initial (console [])
  = Running (with_ctx initial (set_variable (ctx initial) "b" (mkVar "bool" "true")))
            (console []).
Proof.
  exact (bool_declaration (evalExpression_model (0 + 1)) (evaluateCondition_model (0 + 1))
           (executeFunction_model call_depth (0 + 1)) 0%nat "b" " 1 " initial (console [])
           eq_refl eq_refl eq_refl eq_refl).
Defined.

(** The declaration of xs with the elements a, b c and d, then print--xs!. *)
Lemma declared_array_is_printed_witness :
  let es := ["a"; "b c"; "d"] in
  lo_loop_at 1 0 [loc_line "xs" "arr" (join "," (map quote es)); print_variable "xs"]
          initial (console [])
  = Running (with_ctx initial (set_variable (ctx initial) "xs" (mkVar "arr" "a,b c,d")))
            (add_stdout (console []) ("[a, b c, d]" +:+ newline)).
Proof.
  intros es.
  assert (Forall (fun e => all_chars (is_not ",") e = true /\ all_chars is_dot e = true
                           /\ trim e = e) es) as Hes by (repeat constructor).
  assert (last es <> Some "") as Hlast by discriminate.
  exact (declared_array_is_printed (evalExpression_model 1) (evaluateCondition_model 1)
           (executeFunction_model call_depth 1) 0%nat "xs" es initial (console [])
           eq_refl Hes Hlast eq_refl eq_refl).
Defined.

(** The statement that prints the literal hi. *)
Lemma literal_is_printed_witness :
  lo_step 0 (print_literal "hi") initial (console [])
  = Running initial (add_stdout (console []) ("hi" +:+ newline)).
Proof.
  exact (literal_is_printed (evalExpression_model (0 + 1)) (evaluateCondition_model (0 + 1))
           (executeFunction_model call_depth (0 + 1)) 0%nat "hi" initial (console [])
           eq_refl eq_refl eq_refl).
Defined.

(** The call print--f-f(1,x)! of a function of two parameters. *)
Lemma call_passes_arguments_witness :
  let def := mkFunctionDef "int" [("int", "a"); ("var", "b")] ["return a!"] in
  let st := mkDriver (mkContext (<["f" := def]> ∅) ∅) false def "f" [] in
  let call := executeFunction_model call_depth (0 + 1) in
  functions (ctx st) !! "f" = Some def
  /\ lo_step 0 (print_call "f" "1,x") st (console [])
     = match call def ["1"; "x"] (functions (ctx st)) (variables (ctx st)) (console []) with
       | Running res w1 =>
           Running (with_ctx st (snd res)) (add_stdout w1 (fst res +:+ newline))
       | Exit status w1 => Exit status w1
       end
  /\ lo_step 0 (print_call "f" "1,x") st (console [])
     = Running st (mkIO [] ("1" +:+ newline) "").
Proof.
  intros def st call.
  assert (functions (ctx st) !! "f" = Some def) as Hf by (vm_compute; reflexivity).
  assert (Forall (fun a => all_chars (is_not ",") a = true
                           /\ all_chars (is_not ")") a = true /\ trim a = a) ["1"; "x"])
    as Hargs by (repeat constructor).
  assert (last ["1"; "x"] <> Some "") as Hlast by discriminate.
  split; [exact Hf|]. split; [|vm_compute; reflexivity].
  exact (call_passes_arguments (evalExpression_model (0 + 1))
           (evaluateCondition_model (0 + 1)) call
           0%nat "f" ["1"; "x"] def st (console []) eq_refl Hargs Hlast eq_refl eq_refl Hf).
Defined.

(** The declaration "loc x = int( 1 + 2 )!" with the evaluator of the spec
    for line 1 and no variables. *)
Lemma int_declaration_uses_evaluator_witness :
  let evaluator := evalExpression_model 1 ∅ in
  step (fun _ => evaluator) (evaluateCondition_model 1) (executeFunction_model call_depth 1)
       0 (loc_line "x" "int" " 1 + 2 ") initial (console [])
  = match evaluator (trim " 1 + 2 ") (console []) with
    | Running val w1 =>
        Running (with_ctx initial (set_variable (ctx initial) "x" (mkVar "int" val))) w1
    | Exit status w1 => Exit status w1
    end
  /\ evaluator (trim " 1 + 2 ") (console []) = Running "3" (console []).
Proof.
  intros evaluator. split; [|vm_compute; reflexivity].
  exact (int_declaration_uses_evaluator evaluator (evaluateCondition_model 1)
           (executeFunction_model call_depth 1) 0%nat "x" " 1 + 2 " initial (console [])
           eq_refl eq_refl eq_refl eq_refl).
Defined.

(** ** Lines that start with a name *)

Lemma first_nonword_word a b :
  all_chars is_word a = true -> first_nonword (a +:+ b) = first_nonword b.
Proof.
  induction a as [|c a IH]; [reflexivity|]. intros H. simpl in H.
  apply andb_true_iff in H as [Hc Ha]. rewrite append_cons. simpl.
  now rewrite Hc, IH.
Qed.

Lemma first_nonword_prefix p r c :
  first_nonword p = Some c -> first_nonword (p +:+ r) = Some c.
Proof.
  induction p as [|a p IH]; [discriminate|]. rewrite append_cons. simpl.
  destruct (is_word a); [exact IH | trivial].
Qed.

Lemma startsWith_first_nonword ln p c d :
  first_nonword ln = Some c -> first_nonword p = Some d -> c <> d ->
  startsWith ln p = false.
Proof.
  intros Hln Hp Hcd. destruct (startsWith ln p) eqn:E; [|reflexivity].
  apply startsWith_inv in E as [rest ->].
  rewrite (first_nonword_prefix _ rest _ Hp) in Hln. congruence.
Qed.

Lemma named_line_control name t :
  all_chars is_word name = true -> is_control (name +:+ String " " t) = false.
Proof.
  intros Hn.
  assert (first_nonword (name +:+ String " " t) = Some " "%char) as Hf.
  { now rewrite first_nonword_word. }
  unfold is_control.
  rewrite (startsWith_first_nonword _ "if-" _ "-"%char Hf) by (reflexivity || discriminate).
  rewrite (startsWith_first_nonword _ "elif-" _ "-"%char Hf) by (reflexivity || discriminate).
  simpl. apply String.eqb_neq. intros E. rewrite E in Hf. discriminate Hf.
Qed.

Lemma rmatch_lit_inv p whole s caps k r :
  p <> "" -> rmatch (lit p) whole s caps k = Some r ->
  exists s', s = p +:+ s' /\ k s' caps = Some r.
Proof.
  revert s. induction p as [|c p IH]; [congruence|]. intros s _ H.
  destruct p as [|c' p].
  - simpl in H. destruct s as [|a s]; [discriminate|].
    destruct (Ascii.eqb a c) eqn:E; [|discriminate].
    apply Ascii.eqb_eq in E as ->. now exists s.
  - change (lit (String c (String c' p))) with (Seq (Chr c) (lit (String c' p))) in H.
    rewrite rmatch_seq in H. simpl rmatch at 1 in H.
    destruct s as [|a s]; [discriminate|].
    destruct (Ascii.eqb a c) eqn:E; [|discriminate].
    apply Ascii.eqb_eq in E as ->.
    destruct (IH s ltac:(discriminate) H) as (s' & -> & Hk). now exists s'.
Qed.

Lemma word_line_strip kw name t s' :
  all_chars is_word kw = true -> all_chars is_word name = true ->
  name +:+ String " " t = kw +:+ s' ->
  exists name', all_chars is_word name' = true /\ s' = name' +:+ String " " t.
Proof.
  revert name. induction kw as [|c kw IH]; intros name Hkw Hn E.
  - exists name. split; [assumption|]. now rewrite E.
  - simpl in Hkw. apply andb_true_iff in Hkw as [Hc Hkw].
    rewrite append_cons in E. destruct name as [|a name].
    + change ("" +:+ String " " t) with (String " " t) in E.
      injection E as <- _. discriminate Hc.
    + rewrite append_cons in E. injection E as -> E.
      simpl in Hn. apply andb_true_iff in Hn as [_ Hn]. now apply (IH name).
Qed.

(** A pattern that starts with a keyword and white space does not match a
    line that starts with a name and " =". *)
Lemma keyword_mismatch kw i R name t :
  kw <> "" -> all_chars is_word kw = true -> all_chars is_word name = true ->
  regex_match (Seq Bol (Seq (lit kw) (Seq ws1 (Seq (Grp i word) R))))
              (name +:+ String " " (String "=" t)) = None.
Proof.
  intros Hne Hkw Hn. rewrite regex_match_bol.
  generalize (String.length (name +:+ String " " (String "=" t))). intros whole.
  destruct (rmatch _ _ _ _ _) as [r|] eqn:H; [exfalso | reflexivity].
  rewrite rmatch_seq in H. apply rmatch_lit_inv in H as (s' & E & H); [|assumption].
  apply (word_line_strip kw name _ s' Hkw Hn) in E as (name' & Hn' & ->).
  destruct name' as [|c name'].
  - vm_compute in H. discriminate H.
  - simpl in Hn'. apply andb_true_iff in Hn' as [Hc _].
    rewrite append_cons, rmatch_seq in H. unfold ws1, plus in H.
    rewrite rmatch_seq in H. simpl rmatch at 1 in H.
    rewrite (word_not_space c Hc) in H. discriminate H.
Qed.

(** A line that starts with a name and " =" is no function header,
    declaration or conditional keyword line. *)
Lemma named_line_dispatch name t :
  word_string name = true ->
  let ln := name +:+ String " " (String "=" t) in
  String.eqb ln "" = false
  /\ regex_match funRegex ln = None
  /\ is_control ln = false
  /\ regex_match locRegex ln = None.
Proof.
  intros Hw ln. subst ln. unfold word_string in Hw.
  apply andb_true_iff in Hw as [Hst Hall]. split.
  { destruct name; [discriminate | reflexivity]. }
  split.
  { unfold funRegex. cbv [cat].
    now apply (keyword_mismatch "funS"). }
  split; [now apply named_line_control|].
  unfold locRegex. cbv [cat]. now apply (keyword_mismatch "loc").
Qed.

Lemma many_backtrack p a b k :
  all_chars p a = true -> (forall s, starts_in p s = true -> k s = None) ->
  many p (a +:+ b) k = many p b k.
Proof.
  intros Ha Hk. induction a as [|c a IH]; [reflexivity|].
  simpl in Ha. apply andb_true_iff in Ha as [Hc Ha].
  rewrite append_cons, many_cons, Hc, (IH Ha).
  rewrite (Hk (String c (a +:+ b))) by exact Hc. now destruct (many p b k).
Qed.

Lemma word_not_eq c : is_word c = true -> Ascii.eqb c "=" = false.
Proof. destruct c as [[] [] [] [] [] [] [] []]; vm_compute; congruence. Qed.

(** "NAME = RHS!" matches [assignRegex] with NAME and RHS as its groups. *)
Lemma assign_line_match name rhs :
  word_string name = true -> all_chars is_dot rhs = true ->
  starts_in is_space rhs = false -> rhs <> "" ->
  regex_match assignRegex (assign_line name rhs)
  = Some (<[2%nat := rhs]> (<[1%nat := name]> ∅)).
Proof.
  unfold word_string. intros Hn Hrhs Hsp Hne.
  apply andb_true_iff in Hn as [Hn0 Hn].
  unfold assignRegex, assign_line. cbv [cat]. rewrite regex_match_bol.
  generalize (String.length (name +:+ " = " +:+ rhs +:+ "!")). intros whole.
  destruct name as [|c name]; [discriminate|]. simpl in Hn0, Hn.
  rewrite Hn0 in Hn. simpl in Hn.
  destruct rhs as [|d rhs]; [congruence|]. simpl in Hsp, Hrhs.
  apply andb_true_iff in Hrhs as [Hd Hrhs].
  set (r := <[2%nat := String d rhs]> (<[1%nat := String c name]> ∅)).
  rewrite rmatch_seq. unfold word, plus. rewrite append_cons.
  quiet_simpl. rewrite Hn0.
  rewrite (many_all is_word name (" = " +:+ String d rhs +:+ "!") _ r);
    [reflexivity|assumption|reflexivity|].
  change (" = " +:+ String d rhs +:+ "!")
    with (String " " (String "=" (String " " (String d (rhs +:+ "!"))))).
  rewrite many_cons. change (is_space " ") with true. cbv iota.
  rewrite (many_stop is_space (String "=" _)) by reflexivity.
  change (Ascii.eqb "=" "=") with true. cbv iota.
  rewrite many_cons. change (is_space " ") with true. cbv iota.
  rewrite (many_stop is_space (String d _)) by exact Hsp.
  rewrite Hd.
  assert (forall K : string -> option smatch,
            K "!" = Some r -> K "" = None ->
            many is_dot (rhs +:+ "!") K = Some r) as Hgreedy.
  { intros K H1 H0. apply many_app_some; [assumption|].
    rewrite many_cons. change (is_dot "!") with true. cbv iota.
    change (many is_dot "" K) with (K ""). now rewrite H0. }
  rewrite Hgreedy; [reflexivity| |reflexivity].
  quiet_simpl. subst r. f_equal. f_equal.
  - f_equal. exact (substring_prefix (String d rhs) "!").
  - f_equal.
    exact (substring_prefix (String c name)
             (String " " (String "=" (String " " (String d (rhs +:+ "!")))))).
Qed.

(** "NAME = RHS!" is no input statement when RHS does not start with the
    letter i. *)
Lemma assign_line_not_input name rhs :
  word_string name = true ->
  starts_in (fun c => is_space c || Ascii.eqb c "i") rhs = false -> rhs <> "" ->
  regex_match inputRegex (assign_line name rhs) = None.
Proof.
  unfold word_string. intros Hn Hst Hne.
  apply andb_true_iff in Hn as [Hn0 Hn].
  unfold inputRegex, assign_line. cbv [cat]. rewrite regex_match_bol.
  generalize (String.length (name +:+ " = " +:+ rhs +:+ "!")). intros whole.
  destruct name as [|c name]; [discriminate|]. simpl in Hn0, Hn.
  rewrite Hn0 in Hn. simpl in Hn.
  destruct rhs as [|d rhs]; [congruence|]. simpl in Hst.
  apply orb_false_iff in Hst as [Hsp Hi].
  rewrite rmatch_seq. unfold word, plus. rewrite append_cons.
  quiet_simpl. rewrite Hn0.
  rewrite many_backtrack; [|assumption|].
  2: { intros [|a s] Ha; [discriminate|]. simpl in Ha.
       rewrite many_stop by (simpl; now apply word_not_space).
       now rewrite (word_not_eq a Ha). }
  change (" = " +:+ String d rhs +:+ "!")
    with (String " " (String "=" (String " " (String d (rhs +:+ "!"))))).
  rewrite (many_stop is_word) by reflexivity.
  rewrite many_cons. change (is_space " ") with true. cbv iota.
  rewrite (many_stop is_space (String "=" _)) by reflexivity.
  change (Ascii.eqb "=" "=") with true. cbv iota.
  rewrite many_cons. change (is_space " ") with true. cbv iota.
  rewrite (many_stop is_space (String d _)) by exact Hsp.
  rewrite Hi. reflexivity.
Qed.

Lemma input_line_shape name kind prompt :
  input_line name kind prompt
  = name +:+ " = input-- " +:+ kind +:+ "- " +:+ String dquote (prompt +:+ String dquote "!").
Proof.
  unfold input_line, assign_line, quote.
  rewrite (append_assoc "input-- "), (append_assoc kind).
  change ("- " +:+ String dquote (prompt +:+ String dquote ""))
    with (String "-" (String " " (String dquote "")) +:+ prompt +:+ String dquote "").
  now rewrite !append_assoc.
Qed.

(** "NAME = input-- KIND- QPROMPTQ!" matches [inputRegex] with NAME, KIND and
    PROMPT as its groups. *)
Lemma input_line_match name kind prompt :
  word_string name = true -> kind = "i" \/ kind = "str" ->
  all_chars (is_not dquote) prompt = true ->
  regex_match inputRegex (input_line name kind prompt)
  = Some (<[3%nat := prompt]> (<[2%nat := kind]> (<[1%nat := name]> ∅))).
Proof.
  unfold word_string. intros Hn Hkind Hp.
  apply andb_true_iff in Hn as [Hn0 Hn].
  rewrite input_line_shape.
  unfold inputRegex. cbv [cat]. rewrite regex_match_bol.
  generalize (String.length (name +:+ " = input-- " +:+ kind +:+ "- "
                             +:+ String dquote (prompt +:+ String dquote "!"))).
  intros whole.
  destruct name as [|c name]; [discriminate|]. simpl in Hn0, Hn.
  rewrite Hn0 in Hn. simpl in Hn.
  set (r := <[3%nat := prompt]> (<[2%nat := kind]> (<[1%nat := String c name]> ∅))).
  rewrite rmatch_seq. unfold word, plus. rewrite append_cons.
  quiet_simpl. rewrite Hn0.
  rewrite (many_all is_word name _ _ r); [reflexivity|assumption|reflexivity|].
  assert (forall t,
            String.substring 0
              (String.length (String c (name +:+ String " " t))
               - String.length (String " " t))
              (String c (name +:+ String " " t))
            = String c name) as Hg1.
  { intros t. apply (substring_prefix (String c name)). }
  destruct Hkind as [-> | ->].
  - change (" = input-- " +:+ "i" +:+ "- " +:+ String dquote (prompt +:+ String dquote "!"))
      with (String " " (String "=" (String " " ("input--" +:+ String " " (String "i"
              (String "-" (String " " (String dquote (prompt +:+ String dquote "!"))))))))).
    quiet_simpl.
    rewrite (many_all (is_not dquote) prompt (String dquote "!") _ r);
      [reflexivity|assumption|reflexivity|].
    quiet_simpl. rewrite substring_prefix, Hg1. subst r. do 3 f_equal.
    exact (substring_prefix "i" (String "-" (String " "
             (String dquote (prompt +:+ String dquote "!"))))).
  - change (" = input-- " +:+ "str" +:+ "- " +:+ String dquote (prompt +:+ String dquote "!"))
      with (String " " (String "=" (String " " ("input--" +:+ String " " (String "s"
              (String "t" (String "r"
              (String "-" (String " " (String dquote (prompt +:+ String dquote "!"))))))))))).
    quiet_simpl.
    rewrite (many_all (is_not dquote) prompt (String dquote "!") _ r);
      [reflexivity|assumption|reflexivity|].
    quiet_simpl. rewrite substring_prefix, Hg1. subst r. do 3 f_equal.
    exact (substring_prefix "str" (String "-" (String " "
             (String dquote (prompt +:+ String dquote "!"))))).
Qed.

(** ** Input statements and assignments *)

Section Named.

Variable evalExpression : gmap string Var -> string -> M string.
Variable evaluateCondition : gmap string Var -> string -> string -> string -> M bool.
Variable executeFunction :
  FunctionDef -> list string -> gmap string FunctionDef -> gmap string Var ->
  M (string * Context).

Let step' := step evalExpression evaluateCondition executeFunction.
Let loop' := loop evalExpression evaluateCondition executeFunction.

Lemma step_input i name kind prompt st w :
  word_string name = true -> kind = "i" \/ kind = "str" ->
  all_chars (is_not dquote) prompt = true ->
  inFunction st = false -> in_skipped_body (ifStack st) = false ->
  step' i (input_line name kind prompt) st w
  = bind (processInput (ctx st)
            (<[3%nat := prompt]> (<[2%nat := kind]> (<[1%nat := name]> ∅))) (i + 1))
         (fun c => ret (with_ctx st c)) w.
Proof.
  intros Hname Hkind Hp HinF Hskip.
  pose proof (input_line_match name kind prompt Hname Hkind Hp) as Hm.
  destruct (named_line_dispatch name
              (String " " (("input-- " +:+ kind +:+ "- " +:+ quote prompt) +:+ "!")) Hname)
    as (Hne & Hfun & Hctl & Hloc).
  change (name +:+ String " " (String "=" (String " "
            (("input-- " +:+ kind +:+ "- " +:+ quote prompt) +:+ "!"))))
    with (input_line name kind prompt) in *.
  unfold step'. rewrite step_simple by assumption.
  unfold simple_construct. now rewrite Hloc, Hm.
Qed.

Lemma step_assign i name rhs st w :
  word_string name = true -> all_chars is_dot rhs = true ->
  starts_in (fun c => is_space c || Ascii.eqb c "i") rhs = false -> rhs <> "" ->
  inFunction st = false -> in_skipped_body (ifStack st) = false ->
  step' i (assign_line name rhs) st w
  = bind (processAssign evalExpression (ctx st)
            (<[2%nat := rhs]> (<[1%nat := name]> ∅)) (i + 1))
         (fun c => ret (with_ctx st c)) w.
Proof.
  intros Hname Hrhs Hst Hrne HinF Hskip.
  assert (starts_in is_space rhs = false) as Hsp.
  { destruct rhs as [|d rhs]; [reflexivity|]. simpl in *.
    now apply orb_false_iff in Hst as [-> _]. }
  pose proof (assign_line_match name rhs Hname Hrhs Hsp Hrne) as Hm.
  pose proof (assign_line_not_input name rhs Hname Hst Hrne) as Hin.
  destruct (named_line_dispatch name (String " " (rhs +:+ "!")) Hname)
    as (Hne & Hfun & Hctl & Hloc).
  change (name +:+ String " " (String "=" (String " " (rhs +:+ "!"))))
    with (assign_line name rhs) in *.
  unfold step'. rewrite step_simple by assumption.
  unfold simple_construct. now rewrite Hloc, Hin, Hm.
Qed.

(** X18 (processInput): an input statement at the end of the input. When no
    line is left to read, NAME = input-- str- "PROMPT"! writes the prompt and
    stores the empty text in NAME with type str, and
    NAME = input-- i- "PROMPT"! writes the prompt and ends the run with status
    1 and the message Invalid input for int with nothing after it. *)
Theorem input_at_end_of_input i name prompt st w :
  word_string name = true -> all_chars (is_not dquote) prompt = true ->
  inFunction st = false -> in_skipped_body (ifStack st) = false ->
  stdin w = [] ->
  step evalExpression evaluateCondition executeFunction i
       (input_line name "str" prompt) st w
  = Running (with_ctx st (set_variable (ctx st) name (mkVar "str" "")))
            (add_stdout w prompt)
  /\ step evalExpression evaluateCondition executeFunction i
          (input_line name "i" prompt) st w
     = Exit 1 (add_stderr (add_stdout w prompt)
                 ("Error at line " +:+ show_nat (i + 1)
                  +:+ ": Invalid input for int: " +:+ newline)).
Proof.
  intros Hname Hp HinF Hskip Hin. fold step'. split.
  - rewrite step_input by (try assumption; now right).
    unfold bind, processInput, cout, getline_cin, bind.
    destruct (sub_groups3 name "str" prompt) as (-> & -> & ->).
    unfold ret, add_stdout, add_stderr. simpl. rewrite !Hin. reflexivity.
  - rewrite step_input by (try assumption; now left).
    unfold bind, processInput, cout, getline_cin, bind.
    destruct (sub_groups3 name "i" prompt) as (-> & -> & ->).
    unfold ret, add_stdout, add_stderr. simpl. rewrite !Hin. reflexivity.
Qed.

(** X19 (processAssign, processPrint): a text assigned to a string variable
    comes back. For a variable NAME of type str, NAME = "TEXT"! followed by
    print--NAME! prints TEXT and a newline and leaves NAME bound to type str
    and TEXT, for every text without line breaks. *)
Theorem assigned_text_is_printed i name text v st w :
  word_string name = true -> all_chars is_dot text = true ->
  inFunction st = false -> in_skipped_body (ifStack st) = false ->
  variables (ctx st) !! name = Some v -> type v = "str" ->
  loop evalExpression evaluateCondition executeFunction i
       [assign_line name (quote text); print_variable name] st w
  = Running (with_ctx st (set_variable (ctx st) name (mkVar "str" text)))
            (add_stdout w (text +:+ newline)).
Proof.
  intros Hname Htext HinF Hskip Hv Hty.
  assert (step' i (assign_line name (quote text)) st w
          = Running (with_ctx st (set_variable (ctx st) name (mkVar "str" text))) w)
    as Hstep.
  { rewrite step_assign; try assumption; try reflexivity;
      [|now apply quote_is_dot|discriminate].
    unfold bind, processAssign.
    replace (sub (<[2%nat := quote text]> (<[1%nat := name]> ∅)) 1) with name
      by (unfold sub; now simplify_map_eq).
    replace (sub (<[2%nat := quote text]> (<[1%nat := name]> ∅)) 2) with (quote text)
      by (unfold sub; now simplify_map_eq).
    rewrite Hv, Hty. change (String.eqb "str" "int") with false.
    change (String.eqb "str" "bool") with false. cbv iota.
    rewrite trim_quote. now rewrite unquote_quote_text. }
  fold loop'. rewrite (loop_two _ _ _ i _ _ st w _ w Hstep).
  rewrite (step_print_scalar _ _ _ _ name _ _ (mkVar "str" text));
    try assumption; try reflexivity.
  unfold with_ctx, set_variable. simpl. apply lookup_insert_eq.
Qed.

(** X20 (main): empty lines are skipped and counted. A run of empty lines
    changes nothing and writes nothing, whether a function is being collected
    or not, and the lines after it keep their numbers in the file: running
    the empty lines and then the rest is running the rest from the index
    after them. *)
Theorem empty_lines_are_skipped i blanks rest st w :
  Forall (fun l => l = "") blanks ->
  loop evalExpression evaluateCondition executeFunction i (blanks ++ rest)%list st w
  = loop evalExpression evaluateCondition executeFunction
         (i + List.length blanks) rest st w.
Proof.
  intros H. revert i. induction H as [|l blanks -> _ IH]; intros i.
  - simpl. now rewrite Nat.add_0_r.
  - change (("" :: blanks) ++ rest)%list with ("" :: (blanks ++ rest))%list.
    rewrite loop_cons.
    change (step evalExpression evaluateCondition executeFunction i "" st w)
      with (Running st w).
    cbv iota. rewrite IH. simpl List.length. f_equal. lia.
Qed.

End Named.

(** The two input statements for n with the prompt "n: " and nothing typed. *)
Lemma input_at_end_of_input_witness :
  lo_step 2 (input_line "n" "str" "n: ") initial (console [])
  = Running (with_ctx initial (set_variable (ctx initial) "n" (mkVar "str" "")))
            (add_stdout (console []) "n: ")
  /\ lo_step 2 (input_line "n" "i" "n: ") initial (console [])
     = Exit 1 (add_stderr (add_stdout (console []) "n: ")
                 ("Error at line " +:+ show_nat (2 + 1)
                  +:+ ": Invalid input for int: " +:+ newline)).
Proof.
  exact (input_at_end_of_input (evalExpression_model (2 + 1)) (evaluateCondition_model (2 + 1))
           (executeFunction_model call_depth (2 + 1)) 2%nat "n" "n: " initial (console [])
           eq_refl eq_refl eq_refl eq_refl eq_refl).
Defined.

(** The assignment of the text new to the string s, then print--s!. *)
Lemma assigned_text_is_printed_witness :
  let st := with_ctx initial (mkContext ∅ (<["s" := mkVar "str" "old"]> ∅)) in
  variables (ctx st) !! "s" = Some (mkVar "str" "old")
  /\ lo_loop_at 1 0 [assign_line "s" (quote "new"); print_variable "s"] st (console [])
     = Running (with_ctx st (set_variable (ctx st) "s" (mkVar "str" "new")))
               (add_stdout (console []) ("new" +:+ newline)).
Proof.
  intros st.
  assert (variables (ctx st) !! "s" = Some (mkVar "str" "old")) as Hv
    by (vm_compute; reflexivity).
  split; [exact Hv|].
  exact (assigned_text_is_printed (evalExpression_model 1) (evaluateCondition_model 1)
           (executeFunction_model call_depth 1) 0%nat "s" "new" (mkVar "str" "old") st
           (console []) eq_refl eq_refl eq_refl eq_refl Hv eq_refl).
Defined.

(** Two empty lines before a line that is no statement: the error is reported
    for line 3. *)
Lemma empty_lines_are_skipped_witness :
  lo_loop_at 1 0 ([""; ""] ++ ["no statement"])%list initial (console [])
  = lo_loop_at 1 (0 + 2) ["no statement"] initial (console [])
  /\ lo_loop_at 1 0 [""; ""; "no statement"] initial (console [])
     = Exit 1 (mkIO [] "" ("Syntax error at line 3: no statement" +:+ newline)).
Proof.
  assert (Forall (fun l => l = "") [""; ""]) as Hb by (repeat constructor).
  split; [|vm_compute; reflexivity].
  exact (empty_lines_are_skipped (evalExpression_model 1) (evaluateCondition_model 1)
           (executeFunction_model call_depth 1) 0%nat [""; ""] ["no statement"]
           initial (console []) Hb).
Defined.

(** ** Exit status *)

Lemma exits_ret {A} (a : A) : exits_with_1 (ret a).
Proof. intros w status w' H. discriminate H. Qed.

Lemma exits_bind {A B} (m : M A) (k : A -> M B) :
  exits_with_1 m -> (forall a, exits_with_1 (k a)) -> exits_with_1 (bind m k).
Proof.
  intros Hm Hk w status w' H. unfold bind in H.
  destruct (m w) as [a w1|c w1] eqn:E.
  - now apply (Hk a w1 status w').
  - injection H as <- _. now apply (Hm w c w1).
Qed.

Lemma exits_exit {A} : exits_with_1 (@exit A 1).
Proof. intros w status w' H. now injection H as <- _. Qed.

Lemma exits_cout s : exits_with_1 (cout s).
Proof. intros w status w' H. discriminate H. Qed.

Lemma exits_cerr s : exits_with_1 (cerr s).
Proof. intros w status w' H. discriminate H. Qed.

Lemma exits_errorAndExit {A} lineno msg : exits_with_1 (@errorAndExit A lineno msg).
Proof. intros w status w' H. rewrite errorAndExit_eq in H. now injection H as <- _. Qed.

Lemma exits_getline_cin : exits_with_1 getline_cin.
Proof.
  intros w status w' H. unfold getline_cin in H. destruct (stdin w); discriminate H.
Qed.

Ltac exits_step :=
  first
    [ apply exits_ret | apply exits_errorAndExit | apply exits_exit
    | apply exits_cout | apply exits_cerr | apply exits_getline_cin
    | assumption
    | apply exits_bind; [|intros ?]
    | match goal with
      | |- exits_with_1 (match ?x with _ => _ end) => destruct x
      end ].

Ltac exits := repeat exits_step.

Section ExitStatus.

Variable evalExpression : gmap string Var -> string -> M string.
Variable evaluateCondition : gmap string Var -> string -> string -> string -> M bool.
Variable executeFunction :
  FunctionDef -> list string -> gmap string FunctionDef -> gmap string Var ->
  M (string * Context).

Hypothesis evalExpression_exits : forall vars e, exits_with_1 (evalExpression vars e).
Hypothesis evaluateCondition_exits :
  forall vars a op b, exits_with_1 (evaluateCondition vars a op b).
Hypothesis executeFunction_exits :
  forall def args funcs vars, exits_with_1 (executeFunction def args funcs vars).

Lemma simple_construct_exits c lineno ln :
  exits_with_1 (simple_construct evalExpression executeFunction c lineno ln).
Proof.
  unfold simple_construct, processLoc, processInput, processAssign, processPrint.
  cbv zeta. exits; first [apply evalExpression_exits | apply executeFunction_exits].
Qed.

Lemma conditional_exits vars stk lineno ln act :
  conditional evaluateCondition vars stk lineno ln = Some act -> exits_with_1 act.
Proof.
  unfold conditional. intros H.
  destruct (startsWith ln "if-"); [injection H as <-; exits; apply evaluateCondition_exits|].
  destruct (startsWith ln "elif-"); [injection H as <-; exits; apply evaluateCondition_exits|].
  destruct (String.eqb ln "end--"); [injection H as <-; exits | discriminate H].
Qed.

Lemma step_exits i ln st :
  exits_with_1 (step evalExpression evaluateCondition executeFunction i ln st).
Proof.
  unfold step.
  destruct (String.eqb ln ""); [exits|].
  destruct (inFunction st); [exits|].
  destruct (regex_match funRegex ln); [exits|].
  destruct (conditional _ _ _ _ _) as [act|] eqn:E.
  - apply exits_bind; [now apply (conditional_exits _ _ _ _ _ E) | intros; exits].
  - destruct (in_skipped_body _); [exits|].
    apply exits_bind; [apply simple_construct_exits | intros; exits].
Qed.

Lemma loop_exits lines i st :
  exits_with_1 (loop evalExpression evaluateCondition executeFunction i lines st).
Proof.
  revert i st. induction lines as [|ln lines IH]; intros i st; [apply exits_ret|].
  simpl. apply exits_bind; [apply step_exits | intros st'; apply IH].
Qed.

End ExitStatus.

(** X21 (main, errorAndExit): main.cpp itself ends a run with status 0 or 1
    only. For every command line, file system and console input the status
    that [main] gives is 0 or 1, as long as the evaluators and the executor
    end a run with status 1 only. This is about the ways in which the code of
    main.cpp ends a run (the return statements of main and errorAndExit); the
    matcher of the embedding answers on every line, so a run that the host
    ends while the regular expression library is matching (the library can
    use up the stack on a line of many thousand characters) is outside the
    statement. *)
Theorem exit_status_is_0_or_1 evalExpression evaluateCondition executeFunction
    argv open w :
  (forall vars e, exits_with_1 (evalExpression vars e)) ->
  (forall vars a op b, exits_with_1 (evaluateCondition vars a op b)) ->
  (forall def args funcs vars, exits_with_1 (executeFunction def args funcs vars)) ->
  fst (main evalExpression evaluateCondition executeFunction argv open w) = 0
  \/ fst (main evalExpression evaluateCondition executeFunction argv open w) = 1.
Proof.
  intros He Hc Hx. unfold main.
  destruct argv as [|argv0 [|path more]]; [now right | now right |].
  destruct (open path) as [file|]; [|now right].
  unfold interpret.
  destruct (loop _ _ _ _ _ _ _) as [st w'|status w'] eqn:E; [now left | right].
  simpl. exact (loop_exits _ _ _ He Hc Hx _ _ _ _ _ _ E).
Qed.

(** The evaluators and the executor of the spec end a run with status 1
    only. *)
Lemma fail_with_exits {A} lineno msg : exits_with_1 (@fail_with A lineno msg).
Proof.
  intros w status w' H. unfold fail_with, bind, cerr, exit in H. now injection H as <- _.
Qed.

Lemma evalExpression_model_exits lineno vars e :
  exits_with_1 (evalExpression_model lineno vars e).
Proof.
  unfold evalExpression_model.
  repeat first [apply fail_with_exits | exits_step].
Qed.

Lemma evaluateCondition_model_exits lineno vars a op b :
  exits_with_1 (evaluateCondition_model lineno vars a op b).
Proof.
  unfold evaluateCondition_model, operand.
  repeat first [apply fail_with_exits | exits_step].
Qed.

Lemma bind_parameters_exits lineno ps args vars :
  exits_with_1 (bind_parameters lineno ps args vars).
Proof.
  revert args vars. induction ps as [|[ty name] ps IH]; intros args vars; [apply exits_ret|].
  destruct args as [|a args]; [apply exits_ret|]. simpl.
  destruct (String.eqb ty "var"); [apply IH|].
  apply exits_bind; [|intros c; apply IH].
  unfold processLoc. cbv zeta.
  repeat first [apply evalExpression_model_exits | exits_step].
Qed.

Lemma run_body_exits call lines lineno c stk :
  (forall n def args funcs vars, exits_with_1 (call n def args funcs vars)) ->
  exits_with_1 (run_body call lines lineno c stk).
Proof.
  intros Hcall. revert lineno c stk.
  induction lines as [|ln lines IH]; intros lineno c stk; [apply exits_ret|].
  simpl.
  destruct (conditional _ _ _ _ _) as [act|] eqn:E.
  - apply exits_bind; [|intros; apply IH].
    apply (conditional_exits _ (evaluateCondition_model_exits lineno) _ _ _ _ _ E).
  - destruct (in_skipped_body stk); [apply IH|].
    destruct (regex_match returnRegex ln).
    + apply exits_bind; [apply evalExpression_model_exits | intros; apply exits_ret].
    + apply exits_bind; [|intros; apply IH].
      apply simple_construct_exits; [apply evalExpression_model_exits | apply Hcall].
Qed.

Lemma executeFunction_model_exits depth lineno def args funcs vars :
  exits_with_1 (executeFunction_model depth lineno def args funcs vars).
Proof.
  revert lineno def args funcs vars.
  induction depth as [|depth IH]; intros lineno def args funcs vars.
  - apply fail_with_exits.
  - simpl. destruct (_ =? _)%nat; [|apply fail_with_exits].
    apply exits_bind; [apply bind_parameters_exits|]. intros bound.
    apply exits_bind; [now apply run_body_exits | intros; apply exits_ret].
Qed.

(** The interpreter of the spec on a file with a division by zero. *)
Lemma exit_status_is_0_or_1_witness :
  let argv := ["lomake"; "p.lo"] in
  let open := one_file ["loc x = int(1 / 0)!"] in
  fst (lo_main_at 1 argv open (console [])) = 1
  /\ (fst (lo_main_at 1 argv open (console [])) = 0
      \/ fst (lo_main_at 1 argv open (console [])) = 1).
Proof.
  intros argv open. split; [vm_compute; reflexivity|].
  exact (exit_status_is_0_or_1 (evalExpression_model 1) (evaluateCondition_model 1)
           (executeFunction_model call_depth 1) argv open (console [])
           (evalExpression_model_exits 1) (evaluateCondition_model_exits 1)
           (executeFunction_model_exits call_depth 1)).
Defined.

(** ** What a match captures *)

Lemma many_inv p s k r : many p s k = Some r -> exists s', k s' = Some r.
Proof.
  induction s as [|c s IH]; simpl; intros H; [eauto|].
  destruct (p c); [|eauto].
  destruct (many p s k) eqn:E; [|eauto]. injection H as ->. now apply IH.
Qed.

(** A match of a pattern hands over to the rest of the pattern the groups it
    was given, with the groups of the pattern on top; the groups outside an
    alternative are all captured. *)
Lemma rmatch_captures r whole s caps k m :
  rmatch r whole s caps k = Some m ->
  exists s' caps',
    k s' caps' = Some m
    /\ (forall j, j ∉ groups_of r -> caps' !! j = caps !! j)
    /\ (forall j, is_Some (caps !! j) -> is_Some (caps' !! j))
    /\ (forall j, j ∈ sure_groups r -> is_Some (caps' !! j)).
Proof.
  revert s caps k.
  induction r as [| | c | p | p | r1 IH1 r2 IH2 | r1 IH1 r2 IH2 | i r IH];
    intros s caps k H; simpl in H.
  - destruct (_ =? _)%nat; [|discriminate]. exists s, caps. set_solver.
  - destruct s; [|discriminate]. exists "", caps. set_solver.
  - destruct s as [|a s]; [discriminate|]. destruct (Ascii.eqb a c); [|discriminate].
    exists s, caps. set_solver.
  - destruct s as [|a s]; [discriminate|]. destruct (p a); [|discriminate].
    exists s, caps. set_solver.
  - apply many_inv in H as [s' H]. exists s', caps. set_solver.
  - apply IH1 in H as (s1 & caps1 & H & Hout1 & Hkeep1 & Hsure1).
    apply IH2 in H as (s2 & caps2 & H & Hout2 & Hkeep2 & Hsure2).
    exists s2, caps2. split; [assumption|]. simpl. split; [|split].
    + intros j Hj. rewrite Hout2, Hout1; set_solver.
    + intros j Hj. auto.
    + intros j Hj. apply elem_of_app in Hj as [Hj|Hj]; auto.
  - destruct (rmatch r1 whole s caps k) as [c|] eqn:E.
    + injection H as ->. apply IH1 in E as (s1 & caps1 & H & Hout1 & Hkeep1 & _).
      exists s1, caps1. split; [assumption|]. simpl. split; [|split]; [|assumption|set_solver].
      intros j Hj. apply Hout1. set_solver.
    + apply IH2 in H as (s1 & caps1 & H & Hout1 & Hkeep1 & _).
      exists s1, caps1. split; [assumption|]. simpl. split; [|split]; [|assumption|set_solver].
      intros j Hj. apply Hout1. set_solver.
  - apply IH in H as (s1 & caps1 & H & Hout1 & Hkeep1 & Hsure1).
    eexists s1, _. split; [exact H|]. simpl. split; [|split].
    + intros j Hj. rewrite lookup_insert_ne by set_solver. apply Hout1. set_solver.
    + intros j Hj. destruct (decide (i = j)) as [->|Hne].
      * rewrite lookup_insert_eq. eauto.
      * rewrite lookup_insert_ne by assumption. auto.
    + intros j Hj. destruct (decide (i = j)) as [->|Hne].
      * rewrite lookup_insert_eq. eauto.
      * rewrite lookup_insert_ne by assumption. apply Hsure1.
        apply elem_of_cons in Hj as [->|Hj]; [congruence | assumption].
Qed.

Lemma rmatch_grp i r whole s caps k :
  rmatch (Grp i r) whole s caps k
  = rmatch r whole s caps (fun s' caps' =>
      k s' (<[i := String.substring 0 (String.length s - String.length s') s]> caps')).
Proof. reflexivity. Qed.

Lemma rmatch_alt r1 r2 whole s caps k :
  rmatch (Alt r1 r2) whole s caps k
  = match rmatch r1 whole s caps k with
    | Some c => Some c
    | None => rmatch r2 whole s caps k
    end.
Proof. reflexivity. Qed.

Lemma at_end_inv s caps m : at_end s caps = Some m -> m = caps.
Proof. unfold at_end. destruct s; [now intros [= ->] | discriminate]. Qed.

(** X22 (processLoc): the type of a declaration is one of the four. Whenever
    a line matches the pattern of declarations, its second group is int, str,
    bool or arr, so the branch of processLoc that reports Unknown type for
    loc is never taken for a line that main dispatches. *)
Theorem declared_type_is_known ln m :
  regex_match locRegex ln = Some m -> is_type_name (sub m 2) = true.
Proof.
  unfold regex_match, locRegex. cbv [cat]. intros H.
  do 7 (rewrite rmatch_seq in H; apply rmatch_captures in H as (? & ? & H & _)).
  rewrite rmatch_seq, rmatch_grp, !rmatch_alt in H.
  match type of H with
  | match rmatch (lit "int") ?w ?s ?c ?K with _ => _ end = _ =>
      assert (exists ty s', is_type_name ty = true /\ s = ty +:+ s' /\ K s' c = Some m)
        as (ty & s' & Hty & -> & HK)
  end.
  { repeat match type of H with
           | match rmatch (lit ?p) ?w ?s ?c ?K with _ => _ end = _ =>
               let E := fresh "E" in
               destruct (rmatch (lit p) w s c K) eqn:E;
                 [injection H as ->;
                  apply rmatch_lit_inv in E as (s' & -> & E); [|discriminate];
                  now exists p, s'
                 |]
           end.
    apply rmatch_lit_inv in H as (s' & -> & H); [|discriminate]. now exists "arr", s'. }
  cbv beta in HK. rewrite substring_prefix in HK.
  apply rmatch_captures in HK as (s1 & caps1 & HK & Hout & _).
  apply at_end_inv in HK as ->.
  unfold sub. rewrite Hout by (simpl; intros Hj; apply elem_of_cons in Hj as [Hj|Hj];
                               [discriminate Hj | inversion Hj]).
  now rewrite lookup_insert_eq.
Qed.

(** X23 (processPrint): a print statement has one of the three forms.
    Whenever a line matches the pattern of print statements, the group of a
    literal, of a variable or of a function name took part in the match, so
    the branch of processPrint that reports Bad print expression is never
    taken for a line that main dispatches. *)
Theorem print_form_is_known ln m :
  regex_match printRegex ln = Some m ->
  is_Some (m !! 2%nat) \/ is_Some (m !! 3%nat) \/ is_Some (m !! 4%nat).
Proof.
  unfold regex_match, printRegex. cbv [cat]. intros H.
  do 3 (rewrite rmatch_seq in H; apply rmatch_captures in H as (? & ? & H & _)).
  rewrite rmatch_seq, !rmatch_alt in H.
  match type of H with
  | match ?A with _ => _ end = _ => destruct A eqn:EA
  end.
  { injection H as ->.
    apply rmatch_captures in EA as (s1 & caps1 & EA & _ & _ & Hsure).
    apply rmatch_captures in EA as (s2 & caps2 & EA & _ & Hkeep & _).
    apply at_end_inv in EA as ->. left. apply Hkeep, Hsure. simpl. set_solver. }
  match type of H with
  | match ?A with _ => _ end = _ => destruct A eqn:EB
  end.
  { injection H as ->.
    apply rmatch_captures in EB as (s1 & caps1 & EB & _ & _ & Hsure).
    apply rmatch_captures in EB as (s2 & caps2 & EB & _ & Hkeep & _).
    apply at_end_inv in EB as ->. right. left. apply Hkeep, Hsure. simpl. set_solver. }
  apply rmatch_captures in H as (s1 & caps1 & H & _ & _ & Hsure).
  apply rmatch_captures in H as (s2 & caps2 & H & _ & Hkeep & _).
  apply at_end_inv in H as ->. right. right. apply Hkeep, Hsure. simpl. set_solver.
Qed.

(** The declaration "loc xs = arr(1,2)!". *)
Lemma declared_type_is_known_witness :
  let m := <[3%nat := "1,2"]> (<[2%nat := "arr"]> (<[1%nat := "xs"]> ∅)) in
  regex_match locRegex "loc xs = arr(1,2)!" = Some m
  /\ is_type_name (sub m 2) = true.
Proof.
  intros m.
  assert (regex_match locRegex "loc xs = arr(1,2)!" = Some m) as Hm
    by (vm_compute; reflexivity).
  split; [exact Hm|].
  exact (declared_type_is_known "loc xs = arr(1,2)!" m Hm).
Defined.

(** The call "print--f-f(1)!". *)
Lemma print_form_is_known_witness :
  let m := <[5%nat := "1"]> (<[4%nat := "f"]> ∅) in
  regex_match printRegex "print--f-f(1)!" = Some m
  /\ (is_Some (m !! 2%nat) \/ is_Some (m !! 3%nat) \/ is_Some (m !! 4%nat)).
Proof.
  intros m.
  assert (regex_match printRegex "print--f-f(1)!" = Some m) as Hm
    by (vm_compute; reflexivity).
  split; [exact Hm|].
  exact (print_form_is_known "print--f-f(1)!" m Hm).
Defined.
